(** * Bing marker and polyline services

    A shallow embedding of [BingMarkerService] (src/services/bingmarkerservice.ts)
    and [BingPolylineService] (the Bing polyline service of the same library),
    with the part of the JavaScript run time they rely on: promise objects with
    their reaction lists, the microtask queue, arrays shared by reference, and a
    log of every call made on an external collaborator (map, layer and cluster
    services, native markers and polylines, event emitters and observers).

    Service methods are computations in a state-and-exception monad over a
    [World]; closures handed to [then], [AddListener] and [Observable.create]
    are defunctionalised, one constructor per closure of the source. *)

From Stdlib Require Import PrimFloat ZArith.
From stdpp Require Import gmap strings list.

Open Scope string_scope.
Open Scope list_scope.

(** ** Values *)

(** A JavaScript number is an IEEE 754 binary64 value. *)
Definition number : Type := float.

(** Truthiness of a number: neither zero (of either sign) nor NaN. *)
Definition number_truthy (v : number) : bool :=
  negb (PrimFloat.eqb v 0%float || PrimFloat.is_nan v).

(** Truthiness of a property that holds a number or is undefined. *)
Definition opt_number_truthy (v : option number) : bool :=
  match v with
  | Some n => number_truthy n
  | None => false
  end.

Module ILatLong.
Record t : Type := mk { latitude : number; longitude : number }.
End ILatLong.

Module IPoint.
Record t : Type := mk { x : number; y : number }.
End IPoint.

Module ISize.
Record t : Type := mk { width : number; height : number }.
End ISize.

(** The two fields of an icon description that the marker service reads. *)
Module IMarkerIconInfo.
Record t : Type := mk {
  size : option ISize.t;
  markerOffsetRatio : option IPoint.t
}.
End IMarkerIconInfo.

(** Object identities. Directives, icon descriptions, observers, promises
    and arrays are JavaScript objects, compared and shared by reference. *)
Definition MapMarker : Type := nat.
Definition MapPolylineDirective : Type := nat.
Definition IconInfoRef : Type := nat.
Definition Observer : Type := nat.
Definition PromiseRef : Type := nat.
Definition ArrayRef : Type := nat.
Definition SubjectRef : Type := nat.

(** Native objects of the mapping SDK, as wrapped by the library's models. *)
Definition Marker : Type := nat.
Definition Polyline : Type := nat.

(** Marker metadata is only ever passed along. *)
Definition Metadata : Type := list (string * string).

(** The properties of a marker component that the service reads. The ones
    the service tests for truthiness may be undefined. *)
Module MapMarkerProps.
Record t : Type := mk {
  Latitude : number;
  Longitude : number;
  Title : string;
  Label : string;
  Draggable : bool;
  IconUrl : string;
  IconInfo : option IconInfoRef;
  Width : option number;
  Height : option number;
  Anchor : option IPoint.t;
  Metadata : option Metadata;
  InClusterLayer : bool;
  InCustomLayer : bool;
  LayerId : number
}.
End MapMarkerProps.

Module IMarkerOptions.
Record t : Type := mk {
  position : ILatLong.t;
  title : option string;
  label : option string;
  draggable : option bool;
  icon : option string;
  iconInfo : option IconInfoRef;
  width : option number;
  height : option number;
  anchor : option IPoint.t;
  metadata : option Metadata
}.
End IMarkerOptions.

(** [Array<ILatLong> | Array<Array<ILatLong>>]. The empty array is both
    [SimplePath []] and [ComplexPath []]; the service treats them alike.
    The type has no value for a path that is undefined or null: a handle
    whose [Path] is not an array is outside this development. On such a
    handle the function [UpdatePolyline] passes to [then] throws a
    [TypeError] where it reads [Path.length]; no statement below speaks of
    that case. *)
Inductive PathValue : Type :=
  | SimplePath (points : list ILatLong.t)
  | ComplexPath (segments : list (list ILatLong.t)).

Module MapPolylineProps.
Record t : Type := mk {
  Id : number;
  Clickable : bool;
  Draggable : bool;
  Editable : bool;
  Geodesic : bool;
  Path : PathValue;
  ShowTooltip : bool;
  StrokeColor : string;
  StrokeOpacity : number;
  StrokeWeight : number;
  Title : string;
  Visible : bool;
  zIndex : number;
  InCustomLayer : bool;
  LayerId : number
}.
End MapPolylineProps.

Module IPolylineOptions.
Record t : Type := mk {
  id : number;
  clickable : bool;
  draggable : bool;
  editable : bool;
  geodesic : bool;
  path : PathValue;
  showTooltip : bool;
  strokeColor : string;
  strokeOpacity : number;
  strokeWeight : number;
  title : string;
  visible : bool;
  zIndex : number
}.
End IPolylineOptions.

(** [Microsoft.Maps.Location] and [Microsoft.Maps.Point]. *)
Module MsLocation.
Record t : Type := mk { latitude : number; longitude : number }.
End MsLocation.

Module MsPoint.
Record t : Type := mk { x : number; y : number }.
End MsPoint.

(** What [e.primitive] can hold when it is truthy. *)
Inductive Primitive : Type :=
  | Pushpin (getLocation : MsLocation.t)
  | NotAPushpin.

(** The argument of a click handler, typed [MouseEvent | any]. A field that
    is missing, null or undefined is [None]; a truthy value without fields
    (a number, a string) is [JsObject None None]. *)
Inductive JsEvent : Type :=
  | JsNull
  | JsUndefined
  | JsFalsy
  | JsObject (primitive : option Primitive) (location : option MsLocation.t).

(** ** Closures *)

(** [(e: T) => this._zone.run(() => observer.next(e))] *)
Inductive Listener : Type :=
  | zone_run_next (observer : Observer).

(** The functions passed to [Observable.create], called once per
    subscription with the subscriber's observer. *)
Inductive SubscribeFn : Type :=
  | MarkerEvent_subscribe (eventName : string) (marker : MapMarker)
  | PolylineEvent_subscribe (eventName : string) (polyline : MapPolylineDirective).

(** An observable is the read-only face of a [Subject], or was made by
    [Observable.create]. *)
Inductive Observable : Type :=
  | Subject_asObservable (b : SubjectRef)
  | Observable_create (subscribe : SubscribeFn).

(** The functions passed to [then] on a marker creation promise. *)
Inductive MarkerCallback : Type :=
  | AddMarker_then (marker : MapMarker) (o : IMarkerOptions.t)
  | MarkerEvent_then (eventName : string) (observer : Observer)
  | DeleteMarker_then (marker : MapMarker)
  | LocationToPoint_then
  | UpdateAnchor_then (marker : MapMarker)
  | UpdateMarkerPosition_then (marker : MapMarker)
  | UpdateTitle_then (marker : MapMarker)
  | UpdateLabel_then (marker : MapMarker)
  | UpdateDraggable_then (marker : MapMarker)
  | UpdateIcon_then (marker : MapMarker).

(** The functions passed to [then] on a polyline creation promise. *)
Inductive PolylineCallback : Type :=
  | PolylineEvent_then (eventName : string) (observer : Observer)
  | DeletePolyline_then (polyline : MapPolylineDirective)
  | SetOptions_then (options : IPolylineOptions.t)
  | UpdatePolyline_then (polyline : MapPolylineDirective).

(** ** Promises *)

Inductive PromiseState (V C : Type) : Type :=
  | Pending (reactions : list C)
  | Fulfilled (value : V)
  | Rejected.
Arguments Pending {V C} reactions.
Arguments Fulfilled {V C} value.
Arguments Rejected {V C}.

(** [Polyline | Array<Polyline>]: an array is held by reference. *)
Inductive PolylineValue : Type :=
  | OnePolyline (l : Polyline)
  | PolylineArray (a : ArrayRef).

Inductive Job : Type :=
  | MarkerJob (cb : MarkerCallback) (m : Marker)
  | PolylineJob (cb : PolylineCallback) (v : PolylineValue).

(** What a service method hands back where the source returns a promise:
    [Promise.resolve()], or the promise made by [then]. *)
Inductive ReturnedPromise : Type :=
  | Promise_resolve
  | marker_then_promise (p : PromiseRef) (cb : MarkerCallback)
  | polyline_then_promise (p : PromiseRef) (cb : PolylineCallback).

(** ** Calls on external collaborators *)

(** The argument of [Marker.SetIcon]: a URL, or the [icon] field of
    [BingConversions.TranslateMarkerOptions(x)], kept symbolic. *)
Inductive IconArg : Type :=
  | IconUrl_arg (url : string)
  | TranslateMarkerOptions_icon (x : IMarkerOptions.t).

Inductive Native : Type :=
  | NativeMarker (m : Marker)
  | NativePolyline (l : Polyline).

Inductive Call : Type :=
  | ClusterService_CreateMarker (layer : number) (o : IMarkerOptions.t) (ret : PromiseRef)
  | LayerService_CreateMarker (layer : number) (o : IMarkerOptions.t) (ret : PromiseRef)
  | MapService_CreateMarker (o : IMarkerOptions.t) (ret : PromiseRef)
  | LayerService_CreatePolyline (layer : number) (o : IPolylineOptions.t) (ret : PromiseRef)
  | MapService_CreatePolyline (o : IPolylineOptions.t) (ret : PromiseRef)
  | MapService_LocationToPoint_Location (m : Marker)
  | DynamicMarkerCreated_emit (marker : MapMarker) (iconInfo : option IconInfoRef)
  | Marker_SetAnchor (m : Marker) (anchor : option IPoint.t)
  | Marker_SetPosition (m : Marker) (latLng : ILatLong.t)
  | Marker_SetTitle (m : Marker) (title : string)
  | Marker_SetLabel (m : Marker) (label : string)
  | Marker_SetDraggable (m : Marker) (draggable : bool)
  | Marker_SetIcon (m : Marker) (icon : IconArg)
  | Marker_DeleteMarker (m : Marker)
  | Marker_AddListener (m : Marker) (eventName : string) (fn : Listener)
  | Polyline_AddListener (l : Polyline) (eventName : string) (fn : Listener)
  | Polyline_Delete (l : Polyline)
  | Polyline_SetOptions (l : Polyline) (options : IPolylineOptions.t)
  | Polyline_SetPath (l : Polyline) (path : list ILatLong.t)
  | Observer_next (observer : Observer) (e : JsEvent).

(** ** The world *)

#[projections(primitive)]
Record World : Type := mkWorld {
  (* objects owned by the hosting framework *)
  marker_obj : MapMarker -> MapMarkerProps.t;
  polyline_obj : MapPolylineDirective -> MapPolylineProps.t;
  iconinfo_obj : IconInfoRef -> IMarkerIconInfo.t;
  (* BingMarkerService._markers and BingPolylineService._polylines *)
  _markers : gmap MapMarker PromiseRef;
  _polylines : gmap MapPolylineDirective PromiseRef;
  (* the JavaScript run time: promises, arrays and subjects by reference,
     the counters new references come from, the microtask queue *)
  marker_promises : gmap PromiseRef (PromiseState Marker MarkerCallback);
  polyline_promises : gmap PromiseRef (PromiseState PolylineValue PolylineCallback);
  arrays : gmap ArrayRef (list Polyline);
  subjects : gmap SubjectRef (list Observer);
  next_ref : nat;
  next_subject : nat;
  microtasks : list Job;
  (* the mapping SDK: handlers kept by native objects, and the log of calls *)
  listeners : list (Native * string * Listener);
  calls : list Call
}.

(** Field updates. *)
Definition set_marker_obj
    (f : (MapMarker -> MapMarkerProps.t) ->
         MapMarker -> MapMarkerProps.t)
    (w : World) : World :=
  mkWorld (f (marker_obj w)) (polyline_obj w) (iconinfo_obj w)
    (_markers w) (_polylines w)
    (marker_promises w) (polyline_promises w) (arrays w) (subjects w)
    (next_ref w) (next_subject w) (microtasks w)
    (listeners w) (calls w).

Definition set_polyline_obj
    (f : (MapPolylineDirective -> MapPolylineProps.t) ->
         MapPolylineDirective -> MapPolylineProps.t)
    (w : World) : World :=
  mkWorld (marker_obj w) (f (polyline_obj w)) (iconinfo_obj w)
    (_markers w) (_polylines w)
    (marker_promises w) (polyline_promises w) (arrays w) (subjects w)
    (next_ref w) (next_subject w) (microtasks w)
    (listeners w) (calls w).

Definition set_iconinfo_obj
    (f : (IconInfoRef -> IMarkerIconInfo.t) ->
         IconInfoRef -> IMarkerIconInfo.t)
    (w : World) : World :=
  mkWorld (marker_obj w) (polyline_obj w) (f (iconinfo_obj w))
    (_markers w) (_polylines w)
    (marker_promises w) (polyline_promises w) (arrays w) (subjects w)
    (next_ref w) (next_subject w) (microtasks w)
    (listeners w) (calls w).

Definition set_markers (f : gmap MapMarker PromiseRef -> gmap MapMarker PromiseRef) (w : World) : World :=
  mkWorld (marker_obj w) (polyline_obj w) (iconinfo_obj w)
    (f (_markers w)) (_polylines w)
    (marker_promises w) (polyline_promises w) (arrays w) (subjects w)
    (next_ref w) (next_subject w) (microtasks w)
    (listeners w) (calls w).

Definition set_polylines
    (f : (gmap MapPolylineDirective PromiseRef) ->
         gmap MapPolylineDirective PromiseRef)
    (w : World) : World :=
  mkWorld (marker_obj w) (polyline_obj w) (iconinfo_obj w)
    (_markers w) (f (_polylines w))
    (marker_promises w) (polyline_promises w) (arrays w) (subjects w)
    (next_ref w) (next_subject w) (microtasks w)
    (listeners w) (calls w).

Definition set_marker_promises
    (f : (gmap PromiseRef (PromiseState Marker MarkerCallback)) ->
         gmap PromiseRef (PromiseState Marker MarkerCallback))
    (w : World) : World :=
  mkWorld (marker_obj w) (polyline_obj w) (iconinfo_obj w)
    (_markers w) (_polylines w)
    (f (marker_promises w)) (polyline_promises w) (arrays w) (subjects w)
    (next_ref w) (next_subject w) (microtasks w)
    (listeners w) (calls w).

Definition set_polyline_promises
    (f : (gmap PromiseRef (PromiseState PolylineValue PolylineCallback)) ->
         gmap PromiseRef (PromiseState PolylineValue PolylineCallback))
    (w : World) : World :=
  mkWorld (marker_obj w) (polyline_obj w) (iconinfo_obj w)
    (_markers w) (_polylines w)
    (marker_promises w) (f (polyline_promises w)) (arrays w) (subjects w)
    (next_ref w) (next_subject w) (microtasks w)
    (listeners w) (calls w).

Definition set_arrays (f : gmap ArrayRef (list Polyline) -> gmap ArrayRef (list Polyline)) (w : World) : World :=
  mkWorld (marker_obj w) (polyline_obj w) (iconinfo_obj w)
    (_markers w) (_polylines w)
    (marker_promises w) (polyline_promises w) (f (arrays w)) (subjects w)
    (next_ref w) (next_subject w) (microtasks w)
    (listeners w) (calls w).

Definition set_subjects
    (f : (gmap SubjectRef (list Observer)) ->
         gmap SubjectRef (list Observer))
    (w : World) : World :=
  mkWorld (marker_obj w) (polyline_obj w) (iconinfo_obj w)
    (_markers w) (_polylines w)
    (marker_promises w) (polyline_promises w) (arrays w) (f (subjects w))
    (next_ref w) (next_subject w) (microtasks w)
    (listeners w) (calls w).

Definition set_next_ref (f : nat -> nat) (w : World) : World :=
  mkWorld (marker_obj w) (polyline_obj w) (iconinfo_obj w)
    (_markers w) (_polylines w)
    (marker_promises w) (polyline_promises w) (arrays w) (subjects w)
    (f (next_ref w)) (next_subject w) (microtasks w)
    (listeners w) (calls w).

Definition set_next_subject (f : nat -> nat) (w : World) : World :=
  mkWorld (marker_obj w) (polyline_obj w) (iconinfo_obj w)
    (_markers w) (_polylines w)
    (marker_promises w) (polyline_promises w) (arrays w) (subjects w)
    (next_ref w) (f (next_subject w)) (microtasks w)
    (listeners w) (calls w).

Definition set_microtasks (f : list Job -> list Job) (w : World) : World :=
  mkWorld (marker_obj w) (polyline_obj w) (iconinfo_obj w)
    (_markers w) (_polylines w)
    (marker_promises w) (polyline_promises w) (arrays w) (subjects w)
    (next_ref w) (next_subject w) (f (microtasks w))
    (listeners w) (calls w).

Definition set_listeners
    (f : (list (Native * string * Listener)) ->
         list (Native * string * Listener))
    (w : World) : World :=
  mkWorld (marker_obj w) (polyline_obj w) (iconinfo_obj w)
    (_markers w) (_polylines w)
    (marker_promises w) (polyline_promises w) (arrays w) (subjects w)
    (next_ref w) (next_subject w) (microtasks w)
    (f (listeners w)) (calls w).

Definition set_calls (f : list Call -> list Call) (w : World) : World :=
  mkWorld (marker_obj w) (polyline_obj w) (iconinfo_obj w)
    (_markers w) (_polylines w)
    (marker_promises w) (polyline_promises w) (arrays w) (subjects w)
    (next_ref w) (next_subject w) (microtasks w)
    (listeners w) (f (calls w)).

(** ** Computations *)

Inductive JsError : Type :=
  | TypeError.

(** How a piece of JavaScript ends: with a value, or by throwing. Whatever
    was written to the world before a throw stays written. *)
Inductive Completion (A : Type) : Type :=
  | Normal (a : A)
  | Throw (e : JsError).
Arguments Normal {A} a.
Arguments Throw {A} e.

Definition M (A : Type) : Type := World -> Completion A * World.

Definition ret {A : Type} (a : A) : M A := fun w => (Normal a, w).

Definition bind {A B : Type} (c : M A) (k : A -> M B) : M B :=
  fun w =>
    match c w with
    | (Normal a, w') => k a w'
    | (Throw e, w') => (Throw e, w')
    end.

Definition throw {A : Type} (e : JsError) : M A := fun w => (Throw e, w).

Definition gets {A : Type} (f : World -> A) : M A := fun w => (Normal (f w), w).

Definition modify (f : World -> World) : M unit := fun w => (Normal tt, f w).

Declare Scope js_scope.
Delimit Scope js_scope with js.
Notation "x <- c ;; k" := (bind c (fun x => k))
  (at level 100, c at next level, right associativity) : js_scope.
Notation "c ;; k" := (bind c (fun _ => k))
  (at level 100, right associativity) : js_scope.
Open Scope js_scope.

(** The world a computation leaves behind. *)
Definition exec {A : Type} (c : M A) (w : World) : World := snd (c w).

(** [Array.prototype.forEach], with and without the index. *)
Fixpoint forEach {A : Type} (f : A -> M unit) (l : list A) : M unit :=
  match l with
  | [] => ret tt
  | a :: l' => f a ;; forEach f l'
  end.

Fixpoint forEach_from {A : Type} (index : nat) (f : A -> nat -> M unit) (l : list A)
    : M unit :=
  match l with
  | [] => ret tt
  | a :: l' => f a index ;; forEach_from (S index) f l'
  end.

(** [Array.prototype.splice(start)] with the delete count left out: every
    element from [start] on is removed; a negative [start] counts from the
    end. The result is (removed elements, what is left in the array). *)
Definition splice {A : Type} (start : Z) (l : list A) : list A * list A :=
  let len := Z.of_nat (length l) in
  let actualStart :=
    if (start <? 0)%Z then Z.max (len + start) 0 else Z.min start len in
  (drop (Z.to_nat actualStart) l, take (Z.to_nat actualStart) l).

(** Record a call on an external collaborator. *)
Definition call (c : Call) : M unit := modify (set_calls (fun l => l ++ [c])).

Definition fresh : M nat :=
  n <- gets (fun w => next_ref w) ;;
  modify (set_next_ref S) ;;
  ret n.

(** *** Promises and microtasks *)

(** A promise nothing was recorded about is pending, with no reactions. *)
Definition marker_promise_state (w : World) (p : PromiseRef)
    : PromiseState Marker MarkerCallback :=
  default (Pending []) (marker_promises w !! p).

Definition polyline_promise_state (w : World) (p : PromiseRef)
    : PromiseState PolylineValue PolylineCallback :=
  default (Pending []) (polyline_promises w !! p).

(** [p.then(cb)]: on a pending promise the reaction is appended to its
    list; on a fulfilled one a microtask is queued; on a rejected one [cb]
    is never called. *)
Definition marker_then (p : PromiseRef) (cb : MarkerCallback) : M unit :=
  st <- gets (fun w => marker_promise_state w p) ;;
  match st with
  | Pending rs => modify (set_marker_promises <[p := Pending (rs ++ [cb])]>)
  | Fulfilled m => modify (set_microtasks (fun q => q ++ [MarkerJob cb m]))
  | Rejected => ret tt
  end.

Definition polyline_then (p : PromiseRef) (cb : PolylineCallback) : M unit :=
  st <- gets (fun w => polyline_promise_state w p) ;;
  match st with
  | Pending rs => modify (set_polyline_promises <[p := Pending (rs ++ [cb])]>)
  | Fulfilled v => modify (set_microtasks (fun q => q ++ [PolylineJob cb v]))
  | Rejected => ret tt
  end.

(** A creation call on an external service: the call is logged with the
    promise it returns, a new pending promise. *)
Definition create_marker (c : PromiseRef -> Call) : M PromiseRef :=
  p <- fresh ;;
  modify (set_marker_promises <[p := Pending []]>) ;;
  call (c p) ;;
  ret p.

Definition create_polyline (c : PromiseRef -> Call) : M PromiseRef :=
  p <- fresh ;;
  modify (set_polyline_promises <[p := Pending []]>) ;;
  call (c p) ;;
  ret p.

(** [target.AddListener(eventName, fn)]: the native object keeps the
    handler and calls it on every event it raises under that name. *)
Definition AddListener (target : Native) (eventName : string) (fn : Listener) : M unit :=
  call match target with
       | NativeMarker m => Marker_AddListener m eventName fn
       | NativePolyline l => Polyline_AddListener l eventName fn
       end ;;
  modify (set_listeners (fun ls => ls ++ [(target, eventName, fn)])).

(** Calling a listener: [this._zone.run(() => observer.next(e))].
    [NgZone.run] calls the function it is given at once and returns what it
    returns, so it leaves no trace of its own. *)
Definition invoke (fn : Listener) (e : JsEvent) : M unit :=
  match fn with
  | zone_run_next observer => call (Observer_next observer e)
  end.

(** [Array.isArray(p) ? p : [p]] *)
Definition as_array (w : World) (v : PolylineValue) : list Polyline :=
  match v with
  | OnePolyline l => [l]
  | PolylineArray a => default [] (arrays w !! a)
  end.

(** ** BingMarkerService *)

Module BingMarkerService.
Import MapMarkerProps.

Definition options_of (mk : MapMarkerProps.t) : IMarkerOptions.t :=
  {| IMarkerOptions.position :=
       {| ILatLong.latitude := Latitude mk; ILatLong.longitude := Longitude mk |};
     IMarkerOptions.title := Some (Title mk);
     IMarkerOptions.label := Some (Label mk);
     IMarkerOptions.draggable := Some (Draggable mk);
     IMarkerOptions.icon := Some (IconUrl mk);
     IMarkerOptions.iconInfo := IconInfo mk;
     IMarkerOptions.width := if opt_number_truthy (Width mk) then Width mk else None;
     IMarkerOptions.height := if opt_number_truthy (Height mk) then Height mk else None;
     IMarkerOptions.anchor := Anchor mk;
     IMarkerOptions.metadata := Metadata mk |}.

Definition AddMarker (marker : MapMarker) : M unit :=
  mk <- gets (fun w => marker_obj w marker) ;;
  let o := options_of mk in
  markerPromise <-
    (if InClusterLayer mk then create_marker (ClusterService_CreateMarker (LayerId mk) o)
     else if InCustomLayer mk then create_marker (LayerService_CreateMarker (LayerId mk) o)
     else create_marker (MapService_CreateMarker o)) ;;
  modify (set_markers <[marker := markerPromise]>) ;;
  match IconInfo mk with
  | Some _ => marker_then markerPromise (AddMarker_then marker o)
  | None => ret tt
  end.

(** [this._markers.get(marker).then(cb)]: a [TypeError] when the table has
    no entry, since [undefined] has no [then]. *)
Definition markers_get_then (marker : MapMarker) (cb : MarkerCallback)
    : M ReturnedPromise :=
  m <- gets (fun w => _markers w !! marker) ;;
  match m with
  | None => throw TypeError
  | Some p => marker_then p cb ;; ret (marker_then_promise p cb)
  end.

Definition DeleteMarker (marker : MapMarker) : M ReturnedPromise :=
  m <- gets (fun w => _markers w !! marker) ;;
  match m with
  | None => ret Promise_resolve
  | Some p =>
      marker_then p (DeleteMarker_then marker) ;;
      ret (marker_then_promise p (DeleteMarker_then marker))
  end.

Definition GetNativeMarker (marker : MapMarker) : M (option PromiseRef) :=
  gets (fun w => _markers w !! marker).

Definition LocationToPoint (marker : MapMarker) : M ReturnedPromise :=
  markers_get_then marker LocationToPoint_then.

Definition UpdateAnchor (marker : MapMarker) : M ReturnedPromise :=
  markers_get_then marker (UpdateAnchor_then marker).

Definition UpdateMarkerPosition (marker : MapMarker) : M ReturnedPromise :=
  markers_get_then marker (UpdateMarkerPosition_then marker).

Definition UpdateTitle (marker : MapMarker) : M ReturnedPromise :=
  markers_get_then marker (UpdateTitle_then marker).

Definition UpdateLabel (marker : MapMarker) : M ReturnedPromise :=
  markers_get_then marker (UpdateLabel_then marker).

Definition UpdateDraggable (marker : MapMarker) : M ReturnedPromise :=
  markers_get_then marker (UpdateDraggable_then marker).

Definition UpdateIcon (marker : MapMarker) : M ReturnedPromise :=
  markers_get_then marker (UpdateIcon_then marker).

(** The anchor computed once a dynamic icon exists. *)
Definition icon_anchor (info : IMarkerIconInfo.t) : IPoint.t :=
  {| IPoint.x :=
       match IMarkerIconInfo.size info, IMarkerIconInfo.markerOffsetRatio info with
       | Some size, Some ratio => PrimFloat.mul (ISize.width size) (IPoint.x ratio)
       | _, _ => 0%float
       end;
     IPoint.y :=
       match IMarkerIconInfo.size info, IMarkerIconInfo.markerOffsetRatio info with
       | Some size, Some ratio => PrimFloat.mul (ISize.height size) (IPoint.y ratio)
       | _, _ => 0%float
       end |}.

(** The body of each function passed to [then], run with the native marker
    the creation promise was fulfilled with. *)
Definition run_callback (cb : MarkerCallback) (m : Marker) : M unit :=
  match cb with
  | AddMarker_then marker o =>
      call (DynamicMarkerCreated_emit marker (IMarkerOptions.iconInfo o)) ;;
      match IMarkerOptions.iconInfo o with
      | None => throw TypeError
      | Some r =>
          info <- gets (fun w => iconinfo_obj w r) ;;
          call (Marker_SetAnchor m (Some (icon_anchor info)))
      end
  | MarkerEvent_then eventName observer =>
      AddListener (NativeMarker m) eventName (zone_run_next observer)
  | DeleteMarker_then marker =>
      call (Marker_DeleteMarker m) ;;
      modify (set_markers (delete marker))
  | LocationToPoint_then =>
      call (MapService_LocationToPoint_Location m)
  | UpdateAnchor_then marker =>
      mk <- gets (fun w => marker_obj w marker) ;;
      call (Marker_SetAnchor m (Anchor mk))
  | UpdateMarkerPosition_then marker =>
      mk <- gets (fun w => marker_obj w marker) ;;
      call (Marker_SetPosition m
              {| ILatLong.latitude := Latitude mk; ILatLong.longitude := Longitude mk |})
  | UpdateTitle_then marker =>
      mk <- gets (fun w => marker_obj w marker) ;;
      call (Marker_SetTitle m (Title mk))
  | UpdateLabel_then marker =>
      mk <- gets (fun w => marker_obj w marker) ;;
      call (Marker_SetLabel m (Label mk))
  | UpdateDraggable_then marker =>
      mk <- gets (fun w => marker_obj w marker) ;;
      call (Marker_SetDraggable m (Draggable mk))
  | UpdateIcon_then marker =>
      mk <- gets (fun w => marker_obj w marker) ;;
      match IconInfo mk with
      | Some r =>
          let x :=
            {| IMarkerOptions.position :=
                 {| ILatLong.latitude := Latitude mk; ILatLong.longitude := Longitude mk |};
               IMarkerOptions.title := None;
               IMarkerOptions.label := None;
               IMarkerOptions.draggable := None;
               IMarkerOptions.icon := None;
               IMarkerOptions.iconInfo := Some r;
               IMarkerOptions.width := None;
               IMarkerOptions.height := None;
               IMarkerOptions.anchor := None;
               IMarkerOptions.metadata := None |} in
          call (Marker_SetIcon m (TranslateMarkerOptions_icon x)) ;;
          call (DynamicMarkerCreated_emit marker (IMarkerOptions.iconInfo x))
      | None =>
          call (Marker_SetIcon m (IconUrl_arg (IconUrl mk)))
      end
  end.

Definition CreateEventObservable (eventName : string) (marker : MapMarker)
    : M Observable :=
  ret (Observable_create (MarkerEvent_subscribe eventName marker)).

(** The function given to [Observable.create]: what one subscription does. *)
Definition subscribe_fn (eventName : string) (marker : MapMarker) (observer : Observer)
    : M unit :=
  markers_get_then marker (MarkerEvent_then eventName observer) ;;
  ret tt.

Definition GetCoordinatesFromClick (e : JsEvent) : option ILatLong.t :=
  match e with
  | JsNull | JsUndefined | JsFalsy => None
  | JsObject None _ => None
  | JsObject (Some NotAPushpin) _ => None
  | JsObject (Some (Pushpin loc)) _ =>
      Some {| ILatLong.latitude := MsLocation.latitude loc;
              ILatLong.longitude := MsLocation.longitude loc |}
  end.

Section Pixels.
(** [BingConversions.TranslateLocation] and the map's [tryLocationToPixel]
    (relative to the control), both outside this service. *)
Variable TranslateLocation : ILatLong.t -> MsLocation.t.
Variable tryLocationToPixel : MsLocation.t -> option MsPoint.t.

Definition GetPixelsFromClick (e : JsEvent) : option IPoint.t :=
  match GetCoordinatesFromClick e with
  | None => None
  | Some loc =>
      let l := TranslateLocation loc in
      match tryLocationToPixel l with
      | None => None
      | Some p => Some {| IPoint.x := MsPoint.x p; IPoint.y := MsPoint.y p |}
      end
  end.
End Pixels.

End BingMarkerService.

(** ** BingPolylineService *)

(** [new Subject<T>()]: a subject with no observers yet. *)
Definition new_Subject : M SubjectRef :=
  b <- gets (fun w => next_subject w) ;;
  modify (set_next_subject S) ;;
  modify (set_subjects <[b := []]>) ;;
  ret b.

Module BingPolylineService.
Import MapPolylineProps.

Definition options_of (pl : MapPolylineProps.t) : IPolylineOptions.t :=
  {| IPolylineOptions.id := Id pl;
     IPolylineOptions.clickable := Clickable pl;
     IPolylineOptions.draggable := Draggable pl;
     IPolylineOptions.editable := Editable pl;
     IPolylineOptions.geodesic := Geodesic pl;
     IPolylineOptions.path := Path pl;
     IPolylineOptions.showTooltip := ShowTooltip pl;
     IPolylineOptions.strokeColor := StrokeColor pl;
     IPolylineOptions.strokeOpacity := StrokeOpacity pl;
     IPolylineOptions.strokeWeight := StrokeWeight pl;
     IPolylineOptions.title := Title pl;
     IPolylineOptions.visible := Visible pl;
     IPolylineOptions.zIndex := zIndex pl |}.

Definition AddPolyline (polyline : MapPolylineDirective) : M unit :=
  pl <- gets (fun w => polyline_obj w polyline) ;;
  let o := options_of pl in
  polylinePromise <-
    (if InCustomLayer pl
     then create_polyline (LayerService_CreatePolyline (LayerId pl) o)
     else create_polyline (MapService_CreatePolyline o)) ;;
  modify (set_polylines <[polyline := polylinePromise]>).

(** [this._polylines.get(polyline).then(cb)], with no guard before it. *)
Definition polylines_get_then (polyline : MapPolylineDirective) (cb : PolylineCallback)
    : M ReturnedPromise :=
  m <- gets (fun w => _polylines w !! polyline) ;;
  match m with
  | None => throw TypeError
  | Some p => polyline_then p cb ;; ret (polyline_then_promise p cb)
  end.

Definition CreateEventObservable (eventName : string) (polyline : MapPolylineDirective)
    : M Observable :=
  b <- new_Subject ;;
  if decide (eventName = "mousemove") then ret (Subject_asObservable b)
  else if decide (eventName = "rightclick") then ret (Subject_asObservable b)
  else ret (Observable_create (PolylineEvent_subscribe eventName polyline)).

Definition subscribe_fn (eventName : string) (polyline : MapPolylineDirective)
    (observer : Observer) : M unit :=
  polylines_get_then polyline (PolylineEvent_then eventName observer) ;;
  ret tt.

Definition DeletePolyline (polyline : MapPolylineDirective) : M ReturnedPromise :=
  m <- gets (fun w => _polylines w !! polyline) ;;
  match m with
  | None => ret Promise_resolve
  | Some p =>
      polyline_then p (DeletePolyline_then polyline) ;;
      ret (polyline_then_promise p (DeletePolyline_then polyline))
  end.

Definition GetCoordinatesFromClick (e : JsEvent) : option ILatLong.t :=
  match e with
  | JsNull | JsUndefined | JsFalsy => None
  | JsObject _ None => None
  | JsObject _ (Some location) =>
      Some {| ILatLong.latitude := MsLocation.latitude location;
              ILatLong.longitude := MsLocation.longitude location |}
  end.

Definition GetNativePolyline (polyline : MapPolylineDirective) : M (option PromiseRef) :=
  gets (fun w => _polylines w !! polyline).

Definition SetOptions (polyline : MapPolylineDirective) (options : IPolylineOptions.t)
    : M ReturnedPromise :=
  polylines_get_then polyline (SetOptions_then options).

Definition UpdatePolyline (polyline : MapPolylineDirective) : M ReturnedPromise :=
  m <- gets (fun w => _polylines w !! polyline) ;;
  match m with
  | None => ret Promise_resolve
  | Some p =>
      polyline_then p (UpdatePolyline_then polyline) ;;
      ret (polyline_then_promise p (UpdatePolyline_then polyline))
  end.

(** [Path.length > 0 && Array.isArray(Path[0]) ? Path : [Path]] *)
Definition normalize_path (path : PathValue) : list (list ILatLong.t) :=
  match path with
  | ComplexPath (s :: rest) => s :: rest
  | ComplexPath [] => [[]]
  | SimplePath points => [points]
  end.

(** The body of each function passed to [then], run with the value the
    creation promise was fulfilled with. *)
Definition run_callback (cb : PolylineCallback) (l : PolylineValue) : M unit :=
  match cb with
  | PolylineEvent_then eventName observer =>
      x <- gets (fun w => as_array w l) ;;
      forEach
        (fun line => AddListener (NativePolyline line) eventName (zone_run_next observer)) x
  | DeletePolyline_then polyline =>
      x <- gets (fun w => as_array w l) ;;
      forEach (fun line => call (Polyline_Delete line)) x ;;
      modify (set_polylines (delete polyline))
  | SetOptions_then options =>
      x <- gets (fun w => as_array w l) ;;
      forEach (fun line => call (Polyline_SetOptions line options)) x
  | UpdatePolyline_then polyline =>
      x <- gets (fun w => as_array w l) ;;
      pl <- gets (fun w => polyline_obj w polyline) ;;
      let p := normalize_path (Path pl) in
      forEach_from 0
        (fun line index =>
           if decide (index < length p)
           then call (Polyline_SetPath line (p !!! index))
           else ret tt) x ;;
      match l with
      | PolylineArray a =>
          if decide (length p < length x) then
            let spliced := splice (Z.of_nat (length p) - 1) x in
            modify (set_arrays <[a := spliced.2]>) ;;
            forEach (fun line => call (Polyline_Delete line)) spliced.1
          else ret tt
      | OnePolyline _ => ret tt
      end
  end.

End BingPolylineService.

(** ** Observables *)

(** [observable.subscribe(observer)]. A subject's observable adds the
    observer to the subject's list; a created one calls its function. An
    exception of that function is shown as the outcome of [subscribe]. *)
Definition subscribe (o : Observable) (observer : Observer) : M unit :=
  match o with
  | Subject_asObservable b =>
      modify (set_subjects (fun s => <[b := default [] (s !! b) ++ [observer]]> s))
  | Observable_create (MarkerEvent_subscribe eventName marker) =>
      BingMarkerService.subscribe_fn eventName marker observer
  | Observable_create (PolylineEvent_subscribe eventName polyline) =>
      BingPolylineService.subscribe_fn eventName polyline observer
  end.

(** ** The environment *)

#[global] Instance Native_eq_dec : EqDecision Native.
Proof. solve_decision. Defined.

Definition run_job (j : Job) : M unit :=
  match j with
  | MarkerJob cb m => BingMarkerService.run_callback cb m
  | PolylineJob cb v => BingPolylineService.run_callback cb v
  end.

(** The event loop takes the oldest microtask and runs it. *)
Definition run_microtask : M unit :=
  q <- gets (fun w => microtasks w) ;;
  match q with
  | [] => ret tt
  | j :: rest => modify (set_microtasks (fun _ => rest)) ;; run_job j
  end.

(** An external service settles a creation promise. Settling a promise
    that is already settled does nothing. *)
Definition fulfil_marker (p : PromiseRef) (m : Marker) : M unit :=
  st <- gets (fun w => marker_promise_state w p) ;;
  match st with
  | Pending rs =>
      modify (set_marker_promises <[p := Fulfilled m]>) ;;
      modify (set_microtasks (fun q => q ++ map (fun cb => MarkerJob cb m) rs))
  | _ => ret tt
  end.

Definition reject_marker (p : PromiseRef) : M unit :=
  st <- gets (fun w => marker_promise_state w p) ;;
  match st with
  | Pending _ => modify (set_marker_promises <[p := Rejected]>)
  | _ => ret tt
  end.

Definition fulfil_polyline (p : PromiseRef) (v : PolylineValue) : M unit :=
  st <- gets (fun w => polyline_promise_state w p) ;;
  match st with
  | Pending rs =>
      modify (set_polyline_promises <[p := Fulfilled v]>) ;;
      modify (set_microtasks (fun q => q ++ map (fun cb => PolylineJob cb v) rs))
  | _ => ret tt
  end.

Definition reject_polyline (p : PromiseRef) : M unit :=
  st <- gets (fun w => polyline_promise_state w p) ;;
  match st with
  | Pending _ => modify (set_polyline_promises <[p := Rejected]>)
  | _ => ret tt
  end.

(** A complex path is created as a new array of native polylines. *)
Definition fulfil_polyline_array (p : PromiseRef) (lines : list Polyline) : M unit :=
  a <- fresh ;;
  modify (set_arrays <[a := lines]>) ;;
  fulfil_polyline p (PolylineArray a).

(** Modelled from the spec: the event dispatch of a native object. The
    marker and polyline models and the SDK behind them are not among the
    sources; the spec has a native object as the SDK object an event is
    registered on. A native object that raises an event calls every handler
    it was given for that name, in the order of registration. *)
Definition raise (target : Native) (eventName : string) (e : JsEvent) : M unit :=
  ls <- gets (fun w => listeners w) ;;
  forEach (fun l => invoke l.2 e)
    (filter (fun l => l.1 = (target, eventName)) ls).

(** Everything that can happen to the two services: a call of one of
    their methods, a subscription to an observable they returned, or a move
    of the environment. *)
Inductive Action : Type :=
  | Do_AddMarker (marker : MapMarker)
  | Do_SubscribeMarker (eventName : string) (marker : MapMarker) (observer : Observer)
  | Do_DeleteMarker (marker : MapMarker)
  | Do_GetNativeMarker (marker : MapMarker)
  | Do_LocationToPoint (marker : MapMarker)
  | Do_UpdateAnchor (marker : MapMarker)
  | Do_UpdateMarkerPosition (marker : MapMarker)
  | Do_UpdateTitle (marker : MapMarker)
  | Do_UpdateLabel (marker : MapMarker)
  | Do_UpdateDraggable (marker : MapMarker)
  | Do_UpdateIcon (marker : MapMarker)
  | Do_AddPolyline (polyline : MapPolylineDirective)
  | Do_SubscribePolyline (eventName : string) (polyline : MapPolylineDirective)
      (observer : Observer)
  | Do_DeletePolyline (polyline : MapPolylineDirective)
  | Do_GetNativePolyline (polyline : MapPolylineDirective)
  | Do_SetOptions (polyline : MapPolylineDirective) (options : IPolylineOptions.t)
  | Do_UpdatePolyline (polyline : MapPolylineDirective)
  | Env_SetMarker (marker : MapMarker) (props : MapMarkerProps.t)
  | Env_SetPolyline (polyline : MapPolylineDirective) (props : MapPolylineProps.t)
  | Env_SetIconInfo (r : IconInfoRef) (info : IMarkerIconInfo.t)
  | Env_FulfilMarker (p : PromiseRef) (m : Marker)
  | Env_RejectMarker (p : PromiseRef)
  | Env_FulfilPolyline (p : PromiseRef) (l : Polyline)
  | Env_FulfilPolylineArray (p : PromiseRef) (lines : list Polyline)
  | Env_RejectPolyline (p : PromiseRef)
  | Env_RunMicrotask
  | Env_Raise (target : Native) (eventName : string) (e : JsEvent).

Definition perform (a : Action) : M unit :=
  match a with
  | Do_AddMarker marker => BingMarkerService.AddMarker marker
  | Do_SubscribeMarker eventName marker observer =>
      o <- BingMarkerService.CreateEventObservable eventName marker ;;
      subscribe o observer
  | Do_DeleteMarker marker => BingMarkerService.DeleteMarker marker ;; ret tt
  | Do_GetNativeMarker marker => BingMarkerService.GetNativeMarker marker ;; ret tt
  | Do_LocationToPoint marker => BingMarkerService.LocationToPoint marker ;; ret tt
  | Do_UpdateAnchor marker => BingMarkerService.UpdateAnchor marker ;; ret tt
  | Do_UpdateMarkerPosition marker =>
      BingMarkerService.UpdateMarkerPosition marker ;; ret tt
  | Do_UpdateTitle marker => BingMarkerService.UpdateTitle marker ;; ret tt
  | Do_UpdateLabel marker => BingMarkerService.UpdateLabel marker ;; ret tt
  | Do_UpdateDraggable marker => BingMarkerService.UpdateDraggable marker ;; ret tt
  | Do_UpdateIcon marker => BingMarkerService.UpdateIcon marker ;; ret tt
  | Do_AddPolyline polyline => BingPolylineService.AddPolyline polyline
  | Do_SubscribePolyline eventName polyline observer =>
      o <- BingPolylineService.CreateEventObservable eventName polyline ;;
      subscribe o observer
  | Do_DeletePolyline polyline => BingPolylineService.DeletePolyline polyline ;; ret tt
  | Do_GetNativePolyline polyline =>
      BingPolylineService.GetNativePolyline polyline ;; ret tt
  | Do_SetOptions polyline options =>
      BingPolylineService.SetOptions polyline options ;; ret tt
  | Do_UpdatePolyline polyline => BingPolylineService.UpdatePolyline polyline ;; ret tt
  | Env_SetMarker marker props =>
      modify (set_marker_obj (fun f k => if decide (k = marker) then props else f k))
  | Env_SetPolyline polyline props =>
      modify (set_polyline_obj (fun f k => if decide (k = polyline) then props else f k))
  | Env_SetIconInfo r info =>
      modify (set_iconinfo_obj (fun f k => if decide (k = r) then info else f k))
  | Env_FulfilMarker p m => fulfil_marker p m
  | Env_RejectMarker p => reject_marker p
  | Env_FulfilPolyline p l => fulfil_polyline p (OnePolyline l)
  | Env_FulfilPolylineArray p lines => fulfil_polyline_array p lines
  | Env_RejectPolyline p => reject_polyline p
  | Env_RunMicrotask => run_microtask
  | Env_Raise target eventName e => raise target eventName e
  end.

(** One step, and a run of steps. An exception ends the action that threw
    it, not the run. *)
Definition step (a : Action) (w : World) : World := exec (perform a) w.

Definition run (actions : list Action) (w : World) : World :=
  foldl (fun w a => step a w) w actions.

(** ** Sample worlds *)

Definition unset_marker : MapMarkerProps.t :=
  {| MapMarkerProps.Latitude := 0%float;
     MapMarkerProps.Longitude := 0%float;
     MapMarkerProps.Title := "";
     MapMarkerProps.Label := "";
     MapMarkerProps.Draggable := false;
     MapMarkerProps.IconUrl := "";
     MapMarkerProps.IconInfo := None;
     MapMarkerProps.Width := None;
     MapMarkerProps.Height := None;
     MapMarkerProps.Anchor := None;
     MapMarkerProps.Metadata := None;
     MapMarkerProps.InClusterLayer := false;
     MapMarkerProps.InCustomLayer := false;
     MapMarkerProps.LayerId := 0%float |}.

Definition unset_polyline : MapPolylineProps.t :=
  {| MapPolylineProps.Id := 0%float;
     MapPolylineProps.Clickable := true;
     MapPolylineProps.Draggable := false;
     MapPolylineProps.Editable := false;
     MapPolylineProps.Geodesic := false;
     MapPolylineProps.Path := SimplePath [];
     MapPolylineProps.ShowTooltip := true;
     MapPolylineProps.StrokeColor := "";
     MapPolylineProps.StrokeOpacity := 1%float;
     MapPolylineProps.StrokeWeight := 1%float;
     MapPolylineProps.Title := "";
     MapPolylineProps.Visible := true;
     MapPolylineProps.zIndex := 0%float;
     MapPolylineProps.InCustomLayer := false;
     MapPolylineProps.LayerId := 0%float |}.

(** Both services as their constructors leave them, nothing created yet. *)
Definition initial_world : World :=
  {| marker_obj := fun _ => unset_marker;
     polyline_obj := fun _ => unset_polyline;
     iconinfo_obj := fun _ =>
       {| IMarkerIconInfo.size := None; IMarkerIconInfo.markerOffsetRatio := None |};
     _markers := ∅;
     _polylines := ∅;
     marker_promises := ∅;
     polyline_promises := ∅;
     arrays := ∅;
     subjects := ∅;
     next_ref := 0;
     next_subject := 0;
     microtasks := [];
     listeners := [];
     calls := [] |}.

Definition pt (lat lng : number) : ILatLong.t :=
  {| ILatLong.latitude := lat; ILatLong.longitude := lng |}.

Definition polyline_with_path (path : PathValue) : MapPolylineProps.t :=
  {| MapPolylineProps.Id := 7%float;
     MapPolylineProps.Clickable := true;
     MapPolylineProps.Draggable := false;
     MapPolylineProps.Editable := false;
     MapPolylineProps.Geodesic := false;
     MapPolylineProps.Path := path;
     MapPolylineProps.ShowTooltip := true;
     MapPolylineProps.StrokeColor := "red";
     MapPolylineProps.StrokeOpacity := 1%float;
     MapPolylineProps.StrokeWeight := 2%float;
     MapPolylineProps.Title := "route";
     MapPolylineProps.Visible := true;
     MapPolylineProps.zIndex := 0%float;
     MapPolylineProps.InCustomLayer := false;
     MapPolylineProps.LayerId := 0%float |}.

Definition segment_a : list ILatLong.t := [pt 1%float 1%float; pt 2%float 2%float].
Definition segment_b : list ILatLong.t := [pt 3%float 3%float; pt 4%float 4%float].
Definition segment_c : list ILatLong.t := [pt 5%float 5%float; pt 6%float 6%float].

(** Polyline directive 0 is added with a path of three segments, the map
    service answers with an array of three native polylines (10, 11 and
    12), and the path is then cut down to its first two segments. *)
Definition three_lines_two_segments : World :=
  run [ Env_SetPolyline 0 (polyline_with_path (ComplexPath [segment_a; segment_b; segment_c]));
        Do_AddPolyline 0;
        Env_FulfilPolylineArray 0 [10; 11; 12];
        Env_SetPolyline 0 (polyline_with_path (ComplexPath [segment_a; segment_b])) ]
      initial_world.

(** A marker with a title, on the map itself. *)
Definition titled_marker (title : string) : MapMarkerProps.t :=
  {| MapMarkerProps.Latitude := 47.5%float;
     MapMarkerProps.Longitude := 19%float;
     MapMarkerProps.Title := title;
     MapMarkerProps.Label := "A";
     MapMarkerProps.Draggable := true;
     MapMarkerProps.IconUrl := "pin.png";
     MapMarkerProps.IconInfo := None;
     MapMarkerProps.Width := Some 24%float;
     MapMarkerProps.Height := Some 0%float;
     MapMarkerProps.Anchor := Some {| IPoint.x := 12%float; IPoint.y := 24%float |};
     MapMarkerProps.Metadata := None;
     MapMarkerProps.InClusterLayer := false;
     MapMarkerProps.InCustomLayer := false;
     MapMarkerProps.LayerId := 0%float |}.

(** Marker 0 has been added and the map service has created native
    marker 5 for it. *)
Definition one_marker_created : World :=
  run [ Env_SetMarker 0 (titled_marker "old"); Do_AddMarker 0; Env_FulfilMarker 0 5 ]
      initial_world.

(** A marker in cluster layer 3 with a dynamic icon described by icon
    object 0, and no width, height, anchor or metadata set. *)
Definition clustered_icon_marker : MapMarkerProps.t :=
  {| MapMarkerProps.Latitude := 47.5%float;
     MapMarkerProps.Longitude := 19%float;
     MapMarkerProps.Title := "depot";
     MapMarkerProps.Label := "D";
     MapMarkerProps.Draggable := false;
     MapMarkerProps.IconUrl := "";
     MapMarkerProps.IconInfo := Some 0;
     MapMarkerProps.Width := Some 0%float;
     MapMarkerProps.Height := None;
     MapMarkerProps.Anchor := None;
     MapMarkerProps.Metadata := None;
     MapMarkerProps.InClusterLayer := true;
     MapMarkerProps.InCustomLayer := true;
     MapMarkerProps.LayerId := 3%float |}.

(** An icon of 32 by 32 pixels whose tip is at the middle of its lower edge. *)
Definition pin_icon : IMarkerIconInfo.t :=
  {| IMarkerIconInfo.size := Some {| ISize.width := 32%float; ISize.height := 32%float |};
     IMarkerIconInfo.markerOffsetRatio :=
       Some {| IPoint.x := 0.5%float; IPoint.y := 1%float |} |}.

(** ** Specification vocabulary *)

(** A world with more calls in its log. *)
Definition log (cs : list Call) (w : World) : World :=
  set_calls (fun c => c ++ cs) w.

(** The options object a marker's properties call for, field by field:
    position from latitude and longitude; title, label, draggable flag,
    icon URL and icon description as they are; width and height only when
    they are numbers other than zero and NaN; anchor and metadata only when
    set. Written without reference to the service's code. *)
Definition marker_options_from (mk : MapMarkerProps.t) : IMarkerOptions.t :=
  {| IMarkerOptions.position :=
       {| ILatLong.latitude := MapMarkerProps.Latitude mk;
          ILatLong.longitude := MapMarkerProps.Longitude mk |};
     IMarkerOptions.title := Some (MapMarkerProps.Title mk);
     IMarkerOptions.label := Some (MapMarkerProps.Label mk);
     IMarkerOptions.draggable := Some (MapMarkerProps.Draggable mk);
     IMarkerOptions.icon := Some (MapMarkerProps.IconUrl mk);
     IMarkerOptions.iconInfo := MapMarkerProps.IconInfo mk;
     IMarkerOptions.width :=
       match MapMarkerProps.Width mk with
       | Some n => if number_truthy n then Some n else None
       | None => None
       end;
     IMarkerOptions.height :=
       match MapMarkerProps.Height mk with
       | Some n => if number_truthy n then Some n else None
       | None => None
       end;
     IMarkerOptions.anchor := MapMarkerProps.Anchor mk;
     IMarkerOptions.metadata := MapMarkerProps.Metadata mk |}.

(** The options object a polyline's properties call for: each of the
    thirteen options is the directive's property of the same name. *)
Definition polyline_options_from (pl : MapPolylineProps.t) : IPolylineOptions.t :=
  {| IPolylineOptions.id := MapPolylineProps.Id pl;
     IPolylineOptions.clickable := MapPolylineProps.Clickable pl;
     IPolylineOptions.draggable := MapPolylineProps.Draggable pl;
     IPolylineOptions.editable := MapPolylineProps.Editable pl;
     IPolylineOptions.geodesic := MapPolylineProps.Geodesic pl;
     IPolylineOptions.path := MapPolylineProps.Path pl;
     IPolylineOptions.showTooltip := MapPolylineProps.ShowTooltip pl;
     IPolylineOptions.strokeColor := MapPolylineProps.StrokeColor pl;
     IPolylineOptions.strokeOpacity := MapPolylineProps.StrokeOpacity pl;
     IPolylineOptions.strokeWeight := MapPolylineProps.StrokeWeight pl;
     IPolylineOptions.title := MapPolylineProps.Title pl;
     IPolylineOptions.visible := MapPolylineProps.Visible pl;
     IPolylineOptions.zIndex := MapPolylineProps.zIndex pl |}.

(** The creation call the marker's layer context selects. *)
Definition marker_creation_call (mk : MapMarkerProps.t) (p : PromiseRef) : Call :=
  let o := marker_options_from mk in
  if MapMarkerProps.InClusterLayer mk
  then ClusterService_CreateMarker (MapMarkerProps.LayerId mk) o p
  else if MapMarkerProps.InCustomLayer mk
  then LayerService_CreateMarker (MapMarkerProps.LayerId mk) o p
  else MapService_CreateMarker o p.

Definition polyline_creation_call (pl : MapPolylineProps.t) (p : PromiseRef) : Call :=
  let o := polyline_options_from pl in
  if MapPolylineProps.InCustomLayer pl
  then LayerService_CreatePolyline (MapPolylineProps.LayerId pl) o p
  else MapService_CreatePolyline o p.

(** The five property updates of a marker, with the method, the function
    it passes to [then], and the mutator call the claim names for it. *)
Inductive MarkerUpdate : Type :=
  | Anchor_update
  | Position_update
  | Title_update
  | Label_update
  | Draggable_update.

Definition update_method (u : MarkerUpdate) : MapMarker -> M ReturnedPromise :=
  match u with
  | Anchor_update => BingMarkerService.UpdateAnchor
  | Position_update => BingMarkerService.UpdateMarkerPosition
  | Title_update => BingMarkerService.UpdateTitle
  | Label_update => BingMarkerService.UpdateLabel
  | Draggable_update => BingMarkerService.UpdateDraggable
  end.

Definition update_then (u : MarkerUpdate) : MapMarker -> MarkerCallback :=
  match u with
  | Anchor_update => UpdateAnchor_then
  | Position_update => UpdateMarkerPosition_then
  | Title_update => UpdateTitle_then
  | Label_update => UpdateLabel_then
  | Draggable_update => UpdateDraggable_then
  end.

Definition mutator_call (u : MarkerUpdate) (m : Marker) (mk : MapMarkerProps.t) : Call :=
  match u with
  | Anchor_update => Marker_SetAnchor m (MapMarkerProps.Anchor mk)
  | Position_update =>
      Marker_SetPosition m
        {| ILatLong.latitude := MapMarkerProps.Latitude mk;
           ILatLong.longitude := MapMarkerProps.Longitude mk |}
  | Title_update => Marker_SetTitle m (MapMarkerProps.Title mk)
  | Label_update => Marker_SetLabel m (MapMarkerProps.Label mk)
  | Draggable_update => Marker_SetDraggable m (MapMarkerProps.Draggable mk)
  end.

(** The step that completes a [DeleteMarker] (or [DeletePolyline]) on a
    handle: the event loop runs the function that method passed to [then]. *)
Definition completes_DeleteMarker (a : Action) (w : World) (marker : MapMarker) : Prop :=
  a = Env_RunMicrotask /\
  exists m rest, microtasks w = MarkerJob (DeleteMarker_then marker) m :: rest.

Definition completes_DeletePolyline (a : Action) (w : World)
    (polyline : MapPolylineDirective) : Prop :=
  a = Env_RunMicrotask /\
  exists v rest, microtasks w = PolylineJob (DeletePolyline_then polyline) v :: rest.

(** No step of a run completes a [DeleteMarker] (a [DeletePolyline]) on
    the handle. *)
Fixpoint never_completes_DeleteMarker (marker : MapMarker) (actions : list Action)
    (w : World) : Prop :=
  match actions with
  | [] => True
  | a :: rest =>
      ~ completes_DeleteMarker a w marker /\
      never_completes_DeleteMarker marker rest (step a w)
  end.

Fixpoint never_completes_DeletePolyline (polyline : MapPolylineDirective)
    (actions : list Action) (w : World) : Prop :=
  match actions with
  | [] => True
  | a :: rest =>
      ~ completes_DeletePolyline a w polyline /\
      never_completes_DeletePolyline polyline rest (step a w)
  end.

(** What a step leaves in the two lookup tables, as the claims have it:
    only [AddMarker] writes an entry, and only the completion of a
    [DeleteMarker] removes one. *)
Definition markers_after (a : Action) (w : World) : gmap MapMarker PromiseRef :=
  match a with
  | Do_AddMarker marker => <[marker := next_ref w]> (_markers w)
  | Env_RunMicrotask =>
      match microtasks w with
      | MarkerJob (DeleteMarker_then marker) _ :: _ => delete marker (_markers w)
      | _ => _markers w
      end
  | _ => _markers w
  end.

Definition polylines_after (a : Action) (w : World)
    : gmap MapPolylineDirective PromiseRef :=
  match a with
  | Do_AddPolyline polyline => <[polyline := next_ref w]> (_polylines w)
  | Env_RunMicrotask =>
      match microtasks w with
      | PolylineJob (DeletePolyline_then polyline) _ :: _ =>
          delete polyline (_polylines w)
      | _ => _polylines w
      end
  | _ => _polylines w
  end.

(** A computation that leaves one component of the world as it found it. *)
Definition keeps {X A : Type} (f : World -> X) (c : M A) : Prop :=
  forall w, f (c w).2 = f w.

(** A computation that only ever appends to a list component of the world. *)
Definition grows {X A : Type} (f : World -> list X) (c : M A) : Prop :=
  forall w, exists more, f (c w).2 = f w ++ more.

(** The observer a listener forwards to. *)
Definition listener_observer (fn : Listener) : Observer :=
  match fn with
  | zone_run_next observer => observer
  end.

(** Two worlds that differ at most in the subjects and the counter their
    references come from. *)
Definition forget_subjects (w : World) : World :=
  set_subjects (fun _ => ∅) (set_next_subject (fun _ => 0) w).

Definition same_but_subjects (w1 w2 : World) : Prop :=
  forget_subjects w1 = forget_subjects w2.

(** A computation whose outcome and effect do not depend on the subjects. *)
Definition blind {A : Type} (c : M A) : Prop :=
  forall w1 w2,
    same_but_subjects w1 w2 ->
    (c w1).1 = (c w2).1 /\ same_but_subjects (c w1).2 (c w2).2.

Definition is_creation_call (c : Call) : bool :=
  match c with
  | ClusterService_CreateMarker _ _ _
  | LayerService_CreateMarker _ _ _
  | MapService_CreateMarker _ _
  | LayerService_CreatePolyline _ _ _
  | MapService_CreatePolyline _ _ => true
  | _ => false
  end.

(** *** Vocabulary for the properties beyond the claims *)

(** The service methods that take a handle, other than the two that create
    a native object. The click queries take an event and no handle; they
    are functions of the event and not among the actions. *)
Definition is_deferring_method (a : Action) : bool :=
  match a with
  | Do_SubscribeMarker _ _ _
  | Do_DeleteMarker _
  | Do_GetNativeMarker _
  | Do_LocationToPoint _
  | Do_UpdateAnchor _
  | Do_UpdateMarkerPosition _
  | Do_UpdateTitle _
  | Do_UpdateLabel _
  | Do_UpdateDraggable _
  | Do_UpdateIcon _
  | Do_SubscribePolyline _ _ _
  | Do_DeletePolyline _
  | Do_GetNativePolyline _
  | Do_SetOptions _ _
  | Do_UpdatePolyline _ => true
  | _ => false
  end.

(** The calls of the service on a handle, as opposed to the moves of the
    environment. *)
Definition is_service_call (a : Action) : bool :=
  match a with
  | Do_AddMarker _ | Do_AddPolyline _ => true
  | _ => is_deferring_method a
  end.

(** When a service call has no entry to work on and no guard against it. *)
Definition lacks_needed_entry (a : Action) (w : World) : Prop :=
  match a with
  | Do_SubscribeMarker _ marker _
  | Do_LocationToPoint marker
  | Do_UpdateAnchor marker
  | Do_UpdateMarkerPosition marker
  | Do_UpdateTitle marker
  | Do_UpdateLabel marker
  | Do_UpdateDraggable marker
  | Do_UpdateIcon marker => _markers w !! marker = None
  | Do_SubscribePolyline eventName polyline _ =>
      eventName <> "mousemove" /\ eventName <> "rightclick" /\
      _polylines w !! polyline = None
  | Do_SetOptions polyline _ => _polylines w !! polyline = None
  | _ => False
  end.

(** The action that calls one of the five property updates. *)
Definition update_action (u : MarkerUpdate) (marker : MapMarker) : Action :=
  match u with
  | Anchor_update => Do_UpdateAnchor marker
  | Position_update => Do_UpdateMarkerPosition marker
  | Title_update => Do_UpdateTitle marker
  | Label_update => Do_UpdateLabel marker
  | Draggable_update => Do_UpdateDraggable marker
  end.

(** A function passed to [then] that finds what it dereferences: the icon
    hook reads [o.iconInfo.size], so its options must have an icon
    description. *)
Definition callback_safe (cb : MarkerCallback) : Prop :=
  match cb with
  | AddMarker_then _ o => IMarkerOptions.iconInfo o <> None
  | _ => True
  end.

Definition job_safe (j : Job) : Prop :=
  match j with
  | MarkerJob cb _ => callback_safe cb
  | PolylineJob _ _ => True
  end.

(** Every reaction waiting on a marker promise and every queued job is safe. *)
Definition reactions_safe (w : World) : Prop :=
  (forall p rs, marker_promises w !! p = Some (Pending rs) -> Forall callback_safe rs) /\
  Forall job_safe (microtasks w).

(** A computation that keeps [reactions_safe], and one that never throws. *)
Definition keeps_safe {A : Type} (c : M A) : Prop :=
  forall w, reactions_safe w -> reactions_safe (c w).2.

Definition completes {A : Type} (c : M A) : Prop :=
  forall w, exists a, (c w).1 = Normal a.

Definition is_SetPath (c : Call) : bool :=
  match c with
  | Polyline_SetPath _ _ => true
  | _ => false
  end.

(** The options object [UpdateIcon] builds: a position and an icon
    description, nothing else. *)
Definition icon_options (mk : MapMarkerProps.t) (r : IconInfoRef) : IMarkerOptions.t :=
  {| IMarkerOptions.position :=
       {| ILatLong.latitude := MapMarkerProps.Latitude mk;
          ILatLong.longitude := MapMarkerProps.Longitude mk |};
     IMarkerOptions.title := None;
     IMarkerOptions.label := None;
     IMarkerOptions.draggable := None;
     IMarkerOptions.icon := None;
     IMarkerOptions.iconInfo := Some r;
     IMarkerOptions.width := None;
     IMarkerOptions.height := None;
     IMarkerOptions.anchor := None;
     IMarkerOptions.metadata := None |}.

(** The calls [UpdateIcon] forwards, by the marker's icon description. *)
Definition icon_calls (marker : MapMarker) (m : Marker) (mk : MapMarkerProps.t)
    : list Call :=
  match MapMarkerProps.IconInfo mk with
  | Some r =>
      [Marker_SetIcon m (TranslateMarkerOptions_icon (icon_options mk r));
       DynamicMarkerCreated_emit marker (Some r)]
  | None => [Marker_SetIcon m (IconUrl_arg (MapMarkerProps.IconUrl mk))]
  end.

(** ** Basic facts *)

Lemma log_nil (w : World) : log [] w = w.
Proof. unfold log, set_calls. cbn. rewrite app_nil_r. reflexivity. Qed.

Lemma log_app (a b : list Call) (w : World) : log b (log a w) = log (a ++ b) w.
Proof. unfold log, set_calls. cbn. rewrite app_assoc. reflexivity. Qed.

Lemma call_log (c : Call) (w : World) : call c w = (Normal tt, log [c] w).
Proof. reflexivity. Qed.

Lemma forEach_call {A : Type} (f : A -> Call) (l : list A) (w : World) :
  forEach (fun a => call (f a)) l w = (Normal tt, log (map f l) w).
Proof.
  revert w. induction l as [|a l IH]; intros w.
  - cbn. rewrite log_nil. reflexivity.
  - change (forEach (fun x => call (f x)) (a :: l) w)
      with (forEach (fun x => call (f x)) l (log [f a] w)).
    rewrite IH, log_app. reflexivity.
Qed.

(** *** Frame rules *)

Section Keeps.
Context {X : Type} (f : World -> X).

Lemma keeps_ret {A : Type} (a : A) : keeps f (ret a).
Proof. intros w. reflexivity. Qed.

Lemma keeps_throw {A : Type} (e : JsError) : keeps f (@throw A e).
Proof. intros w. reflexivity. Qed.

Lemma keeps_gets {A : Type} (g : World -> A) : keeps f (gets g).
Proof. intros w. reflexivity. Qed.

Lemma keeps_modify (g : World -> World) :
  (forall w, f (g w) = f w) -> keeps f (modify g).
Proof. intros H w. apply H. Qed.

Lemma keeps_bind {A B : Type} (c : M A) (k : A -> M B) :
  keeps f c -> (forall a, keeps f (k a)) -> keeps f (bind c k).
Proof.
  intros Hc Hk w. unfold bind. specialize (Hc w).
  destruct (c w) as [[a|e] w']; cbn in *; [rewrite Hk|]; exact Hc.
Qed.

Lemma keeps_forEach {A : Type} (g : A -> M unit) (l : list A) :
  (forall a, keeps f (g a)) -> keeps f (forEach g l).
Proof.
  intros Hg. induction l as [|a l IH]; cbn.
  - apply keeps_ret.
  - apply keeps_bind; [apply Hg | intros _; exact IH].
Qed.

Lemma keeps_forEach_from {A : Type} (g : A -> nat -> M unit) (l : list A) (i : nat) :
  (forall a j, keeps f (g a j)) -> keeps f (forEach_from i g l).
Proof.
  intros Hg. revert i. induction l as [|a l IH]; intros i; cbn.
  - apply keeps_ret.
  - apply keeps_bind; [apply Hg | intros _; apply IH].
Qed.

End Keeps.

(** Take a computation apart down to its [modify] steps; each of them must
    leave the component alone by computation. *)
Ltac keeps_head c :=
  lazymatch c with
  | ?g _ => keeps_head g
  | _ => c
  end.

Ltac keeps_step :=
  lazymatch goal with
  | |- keeps _ (ret _) => apply keeps_ret
  | |- keeps _ (throw _) => apply keeps_throw
  | |- keeps _ (gets _) => apply keeps_gets
  | |- keeps _ (bind _ _) => apply keeps_bind; [| intros ?]
  | |- keeps _ (modify _) => apply keeps_modify; intros ?; reflexivity
  | |- keeps _ (forEach _ _) => apply keeps_forEach; intros ?
  | |- keeps _ (forEach_from _ _ _) => apply keeps_forEach_from; intros ? ?
  | |- keeps _ (match ?x with _ => _ end) => destruct x
  | |- keeps _ (let _ := _ in _) => cbv zeta
  | |- keeps _ ?c => let h := keeps_head c in unfold h
  end.

Ltac keeps_all := repeat keeps_step.

(** *** Growth rules *)

Section Grows.
Context {X : Type} (f : World -> list X).

Lemma grows_ret {A : Type} (a : A) : grows f (ret a).
Proof. intros w. exists []. cbn. rewrite app_nil_r. reflexivity. Qed.

Lemma grows_throw {A : Type} (e : JsError) : grows f (@throw A e).
Proof. intros w. exists []. cbn. rewrite app_nil_r. reflexivity. Qed.

Lemma grows_gets {A : Type} (g : World -> A) : grows f (gets g).
Proof. intros w. exists []. cbn. rewrite app_nil_r. reflexivity. Qed.

Lemma grows_modify (g : World -> World) :
  (forall w, exists more, f (g w) = f w ++ more) -> grows f (modify g).
Proof. intros H w. apply H. Qed.

Lemma grows_bind {A B : Type} (c : M A) (k : A -> M B) :
  grows f c -> (forall a, grows f (k a)) -> grows f (bind c k).
Proof.
  intros Hc Hk w. unfold bind. destruct (Hc w) as [m1 H1].
  destruct (c w) as [[a|e] w']; cbn in *.
  - destruct (Hk a w') as [m2 H2]. exists (m1 ++ m2).
    rewrite H2, H1, app_assoc. reflexivity.
  - exists m1. exact H1.
Qed.

Lemma grows_forEach {A : Type} (g : A -> M unit) (l : list A) :
  (forall a, grows f (g a)) -> grows f (forEach g l).
Proof.
  intros Hg. induction l as [|a l IH]; cbn.
  - apply grows_ret.
  - apply grows_bind; [apply Hg | intros _; exact IH].
Qed.

Lemma grows_forEach_from {A : Type} (g : A -> nat -> M unit) (l : list A) (i : nat) :
  (forall a j, grows f (g a j)) -> grows f (forEach_from i g l).
Proof.
  intros Hg. revert i. induction l as [|a l IH]; intros i; cbn.
  - apply grows_ret.
  - apply grows_bind; [apply Hg | intros _; apply IH].
Qed.

End Grows.

Ltac grows_step :=
  lazymatch goal with
  | |- grows _ (ret _) => apply grows_ret
  | |- grows _ (throw _) => apply grows_throw
  | |- grows _ (gets _) => apply grows_gets
  | |- grows _ (bind _ _) => apply grows_bind; [| intros ?]
  | |- grows _ (modify _) =>
      apply grows_modify; intros ?;
      first [ exists []; cbn; rewrite app_nil_r; reflexivity
            | eexists; reflexivity ]
  | |- grows _ (forEach _ _) => apply grows_forEach; intros ?
  | |- grows _ (forEach_from _ _ _) => apply grows_forEach_from; intros ? ?
  | |- grows _ (match ?x with _ => _ end) => destruct x
  | |- grows _ (let _ := _ in _) => cbv zeta
  | |- grows _ ?c => let h := keeps_head c in unfold h
  end.

Ltac grows_all := repeat grows_step.

(** *** Independence from the subjects *)

Lemma blind_ret {A : Type} (a : A) : blind (ret a).
Proof. intros w1 w2 E. split; [reflexivity | exact E]. Qed.

Lemma blind_throw {A : Type} (e : JsError) : blind (@throw A e).
Proof. intros w1 w2 E. split; [reflexivity | exact E]. Qed.

Lemma blind_gets {A : Type} (g : World -> A) :
  (forall w1 w2, same_but_subjects w1 w2 -> g w1 = g w2) -> blind (gets g).
Proof. intros H w1 w2 E. split; [cbn; f_equal; apply H, E | exact E]. Qed.

Lemma blind_modify (g : World -> World) :
  (forall w1 w2, same_but_subjects w1 w2 -> same_but_subjects (g w1) (g w2)) ->
  blind (modify g).
Proof. intros H w1 w2 E. split; [reflexivity | apply H, E]. Qed.

Lemma blind_bind {A B : Type} (c : M A) (k : A -> M B) :
  blind c -> (forall a, blind (k a)) -> blind (bind c k).
Proof.
  intros Hc Hk w1 w2 E. destruct (Hc w1 w2 E) as [R S]. unfold bind.
  destruct (c w1) as [[a1|e1] w1'], (c w2) as [[a2|e2] w2']; cbn in *;
    inversion R; subst.
  - apply Hk, S.
  - split; [reflexivity | exact S].
Qed.

Lemma blind_forEach {A : Type} (g : A -> M unit) (l : list A) :
  (forall a, blind (g a)) -> blind (forEach g l).
Proof.
  intros Hg. induction l as [|a l IH]; cbn.
  - apply blind_ret.
  - apply blind_bind; [apply Hg | intros _; exact IH].
Qed.

Lemma blind_forEach_from {A : Type} (g : A -> nat -> M unit) (l : list A) (i : nat) :
  (forall a j, blind (g a j)) -> blind (forEach_from i g l).
Proof.
  intros Hg. revert i. induction l as [|a l IH]; intros i; cbn.
  - apply blind_ret.
  - apply blind_bind; [apply Hg | intros _; apply IH].
Qed.

Ltac blind_step :=
  lazymatch goal with
  | |- blind (ret _) => apply blind_ret
  | |- blind (throw _) => apply blind_throw
  | |- blind (gets ?g) =>
      apply (blind_gets g);
      let E := fresh "E" in intros ? ? E; exact (f_equal g E)
  | |- blind (bind _ _) => apply blind_bind; [| intros ?]
  | |- blind (modify ?g) =>
      apply (blind_modify g);
      let E := fresh "E" in intros ? ? E; first [ exact E | exact (f_equal g E) ]
  | |- blind (forEach _ _) => apply blind_forEach; intros ?
  | |- blind (forEach_from _ _ _) => apply blind_forEach_from; intros ? ?
  | |- blind (match ?x with _ => _ end) => destruct x
  | |- blind (let _ := _ in _) => cbv zeta
  | |- blind ?c => let h := keeps_head c in unfold h
  end.

Ltac blind_all := repeat blind_step.

(** [then] always completes normally. *)
Lemma marker_then_normal (p : PromiseRef) (cb : MarkerCallback) (w : World) :
  marker_then p cb w = (Normal tt, exec (marker_then p cb) w).
Proof.
  unfold exec, marker_then, bind, gets. destruct (marker_promise_state w p); reflexivity.
Qed.

Lemma polyline_then_normal (p : PromiseRef) (cb : PolylineCallback) (w : World) :
  polyline_then p cb w = (Normal tt, exec (polyline_then p cb) w).
Proof.
  unfold exec, polyline_then, bind, gets.
  destruct (polyline_promise_state w p); reflexivity.
Qed.

(** [then] never fails, calls nothing and touches neither lookup table:
    it only adds a reaction or queues a microtask. *)
Lemma marker_then_frame (p : PromiseRef) (cb : MarkerCallback) (w : World) :
  (marker_then p cb w).1 = Normal tt /\
  calls (exec (marker_then p cb) w) = calls w /\
  _markers (exec (marker_then p cb) w) = _markers w /\
  _polylines (exec (marker_then p cb) w) = _polylines w /\
  listeners (exec (marker_then p cb) w) = listeners w /\
  arrays (exec (marker_then p cb) w) = arrays w.
Proof.
  unfold exec, marker_then, bind, gets. destruct (marker_promise_state w p); repeat split.
Qed.

Lemma polyline_then_frame (p : PromiseRef) (cb : PolylineCallback) (w : World) :
  (polyline_then p cb w).1 = Normal tt /\
  calls (exec (polyline_then p cb) w) = calls w /\
  _markers (exec (polyline_then p cb) w) = _markers w /\
  _polylines (exec (polyline_then p cb) w) = _polylines w /\
  listeners (exec (polyline_then p cb) w) = listeners w /\
  arrays (exec (polyline_then p cb) w) = arrays w.
Proof.
  unfold exec, polyline_then, bind, gets. destruct (polyline_promise_state w p); repeat split.
Qed.

(** Where the reaction goes: behind the reactions of a pending promise, or
    to the back of the microtask queue when the promise is fulfilled. *)
Lemma marker_then_pending (p : PromiseRef) (cb : MarkerCallback) (w : World)
    (rs : list MarkerCallback) :
  marker_promise_state w p = Pending rs ->
  marker_promise_state (exec (marker_then p cb) w) p = Pending (rs ++ [cb]) /\
  microtasks (exec (marker_then p cb) w) = microtasks w.
Proof.
  intros H. unfold exec, marker_then, bind, gets. rewrite H. split; [|reflexivity].
  unfold marker_promise_state. cbn. rewrite lookup_insert_eq. reflexivity.
Qed.

Lemma marker_then_fulfilled (p : PromiseRef) (cb : MarkerCallback) (w : World)
    (m : Marker) :
  marker_promise_state w p = Fulfilled m ->
  microtasks (exec (marker_then p cb) w) = microtasks w ++ [MarkerJob cb m] /\
  marker_promises (exec (marker_then p cb) w) = marker_promises w.
Proof.
  intros H. unfold exec, marker_then, bind, gets. rewrite H. split; reflexivity.
Qed.

Lemma polyline_then_pending (p : PromiseRef) (cb : PolylineCallback) (w : World)
    (rs : list PolylineCallback) :
  polyline_promise_state w p = Pending rs ->
  polyline_promise_state (exec (polyline_then p cb) w) p = Pending (rs ++ [cb]) /\
  microtasks (exec (polyline_then p cb) w) = microtasks w.
Proof.
  intros H. unfold exec, polyline_then, bind, gets. rewrite H. split; [|reflexivity].
  unfold polyline_promise_state. cbn. rewrite lookup_insert_eq. reflexivity.
Qed.

Lemma polyline_then_fulfilled (p : PromiseRef) (cb : PolylineCallback) (w : World)
    (v : PolylineValue) :
  polyline_promise_state w p = Fulfilled v ->
  microtasks (exec (polyline_then p cb) w) = microtasks w ++ [PolylineJob cb v] /\
  polyline_promises (exec (polyline_then p cb) w) = polyline_promises w.
Proof.
  intros H. unfold exec, polyline_then, bind, gets. rewrite H. split; reflexivity.
Qed.

(** When the external service fulfils a pending promise, every reaction
    registered on it is queued once, in order, with the value. *)
Lemma fulfil_marker_queues (p : PromiseRef) (m : Marker) (w : World)
    (rs : list MarkerCallback) :
  marker_promise_state w p = Pending rs ->
  microtasks (exec (fulfil_marker p m) w)
    = microtasks w ++ map (fun cb => MarkerJob cb m) rs /\
  marker_promise_state (exec (fulfil_marker p m) w) p = Fulfilled m.
Proof.
  intros H. unfold exec, fulfil_marker, bind, gets. rewrite H. split; [reflexivity|].
  unfold marker_promise_state. cbn. rewrite lookup_insert_eq. reflexivity.
Qed.

Lemma fulfil_polyline_queues (p : PromiseRef) (v : PolylineValue) (w : World)
    (rs : list PolylineCallback) :
  polyline_promise_state w p = Pending rs ->
  microtasks (exec (fulfil_polyline p v) w)
    = microtasks w ++ map (fun cb => PolylineJob cb v) rs /\
  polyline_promise_state (exec (fulfil_polyline p v) w) p = Fulfilled v.
Proof.
  intros H. unfold exec, fulfil_polyline, bind, gets. rewrite H. split; [reflexivity|].
  unfold polyline_promise_state. cbn. rewrite lookup_insert_eq. reflexivity.
Qed.

(** A reaction left on a pending promise waits for it: once the promise
    is fulfilled the reaction is queued, after the ones that were there. *)
Lemma marker_then_awaits (p : PromiseRef) (cb : MarkerCallback) (m : Marker)
    (w : World) (rs : list MarkerCallback) :
  marker_promise_state w p = Pending rs ->
  microtasks (exec (fulfil_marker p m) (exec (marker_then p cb) w))
    = microtasks w ++ map (fun c => MarkerJob c m) rs ++ [MarkerJob cb m].
Proof.
  intros H. destruct (marker_then_pending p cb w rs H) as [Hs Hq].
  destruct (fulfil_marker_queues p m _ _ Hs) as [-> _].
  rewrite Hq, map_app. reflexivity.
Qed.

Lemma polyline_then_awaits (p : PromiseRef) (cb : PolylineCallback) (v : PolylineValue)
    (w : World) (rs : list PolylineCallback) :
  polyline_promise_state w p = Pending rs ->
  microtasks (exec (fulfil_polyline p v) (exec (polyline_then p cb) w))
    = microtasks w ++ map (fun c => PolylineJob c v) rs ++ [PolylineJob cb v].
Proof.
  intros H. destruct (polyline_then_pending p cb w rs H) as [Hs Hq].
  destruct (fulfil_polyline_queues p v _ _ Hs) as [-> _].
  rewrite Hq, map_app. reflexivity.
Qed.

(** The event loop runs the job at the head of the queue. *)
Lemma run_microtask_head (j : Job) (rest : list Job) (w : World) :
  microtasks w = j :: rest ->
  run_microtask w = run_job j (set_microtasks (fun _ => rest) w).
Proof. intros H. unfold run_microtask, bind, gets. rewrite H. reflexivity. Qed.

(** What a guarded and an unguarded lookup do, with and without an entry. *)

Lemma markers_get_then_absent (marker : MapMarker) (cb : MarkerCallback) (w : World) :
  _markers w !! marker = None ->
  BingMarkerService.markers_get_then marker cb w = (Throw TypeError, w).
Proof.
  intros H. unfold BingMarkerService.markers_get_then, bind, gets. rewrite H. reflexivity.
Qed.

Lemma markers_get_then_present (marker : MapMarker) (cb : MarkerCallback) (w : World)
    (p : PromiseRef) :
  _markers w !! marker = Some p ->
  BingMarkerService.markers_get_then marker cb w =
    (Normal (marker_then_promise p cb), exec (marker_then p cb) w).
Proof.
  intros H. unfold BingMarkerService.markers_get_then, bind, gets, exec. rewrite H.
  rewrite marker_then_normal. reflexivity.
Qed.

Lemma polylines_get_then_absent (polyline : MapPolylineDirective) (cb : PolylineCallback)
    (w : World) :
  _polylines w !! polyline = None ->
  BingPolylineService.polylines_get_then polyline cb w = (Throw TypeError, w).
Proof.
  intros H. unfold BingPolylineService.polylines_get_then, bind, gets. rewrite H.
  reflexivity.
Qed.

Lemma polylines_get_then_present (polyline : MapPolylineDirective) (cb : PolylineCallback)
    (w : World) (p : PromiseRef) :
  _polylines w !! polyline = Some p ->
  BingPolylineService.polylines_get_then polyline cb w =
    (Normal (polyline_then_promise p cb), exec (polyline_then p cb) w).
Proof.
  intros H. unfold BingPolylineService.polylines_get_then, bind, gets, exec. rewrite H.
  rewrite polyline_then_normal. reflexivity.
Qed.

Lemma DeleteMarker_absent (marker : MapMarker) (w : World) :
  _markers w !! marker = None ->
  BingMarkerService.DeleteMarker marker w = (Normal Promise_resolve, w).
Proof.
  intros H. unfold BingMarkerService.DeleteMarker, bind, gets. rewrite H. reflexivity.
Qed.

Lemma DeleteMarker_present (marker : MapMarker) (w : World) (p : PromiseRef) :
  _markers w !! marker = Some p ->
  BingMarkerService.DeleteMarker marker w =
    (Normal (marker_then_promise p (DeleteMarker_then marker)),
     exec (marker_then p (DeleteMarker_then marker)) w).
Proof.
  intros H. unfold BingMarkerService.DeleteMarker, bind, gets, exec. rewrite H.
  rewrite marker_then_normal. reflexivity.
Qed.

Lemma DeletePolyline_absent (polyline : MapPolylineDirective) (w : World) :
  _polylines w !! polyline = None ->
  BingPolylineService.DeletePolyline polyline w = (Normal Promise_resolve, w).
Proof.
  intros H. unfold BingPolylineService.DeletePolyline, bind, gets. rewrite H. reflexivity.
Qed.

Lemma DeletePolyline_present (polyline : MapPolylineDirective) (w : World) (p : PromiseRef) :
  _polylines w !! polyline = Some p ->
  BingPolylineService.DeletePolyline polyline w =
    (Normal (polyline_then_promise p (DeletePolyline_then polyline)),
     exec (polyline_then p (DeletePolyline_then polyline)) w).
Proof.
  intros H. unfold BingPolylineService.DeletePolyline, bind, gets, exec. rewrite H.
  rewrite polyline_then_normal. reflexivity.
Qed.

Lemma UpdatePolyline_absent (polyline : MapPolylineDirective) (w : World) :
  _polylines w !! polyline = None ->
  BingPolylineService.UpdatePolyline polyline w = (Normal Promise_resolve, w).
Proof.
  intros H. unfold BingPolylineService.UpdatePolyline, bind, gets. rewrite H. reflexivity.
Qed.

Lemma UpdatePolyline_present (polyline : MapPolylineDirective) (w : World) (p : PromiseRef) :
  _polylines w !! polyline = Some p ->
  BingPolylineService.UpdatePolyline polyline w =
    (Normal (polyline_then_promise p (UpdatePolyline_then polyline)),
     exec (polyline_then p (UpdatePolyline_then polyline)) w).
Proof.
  intros H. unfold BingPolylineService.UpdatePolyline, bind, gets, exec. rewrite H.
  rewrite polyline_then_normal. reflexivity.
Qed.

(** The options the services build are the ones the properties call for. *)
Lemma marker_options_agree (mk : MapMarkerProps.t) :
  BingMarkerService.options_of mk = marker_options_from mk.
Proof.
  unfold BingMarkerService.options_of, marker_options_from.
  destruct (MapMarkerProps.Width mk) as [x|], (MapMarkerProps.Height mk) as [y|];
    cbn [opt_number_truthy];
    try destruct (number_truthy x); try destruct (number_truthy y); reflexivity.
Qed.

Lemma polyline_options_agree (pl : MapPolylineProps.t) :
  BingPolylineService.options_of pl = polyline_options_from pl.
Proof. reflexivity. Qed.

(** What [AddMarker] and [AddPolyline] do to the log and to the tables. *)
Lemma AddMarker_effect (w : World) (marker : MapMarker) :
  (BingMarkerService.AddMarker marker w).1 = Normal tt /\
  calls (exec (BingMarkerService.AddMarker marker) w)
    = calls w ++ [marker_creation_call (marker_obj w marker) (next_ref w)] /\
  _markers (exec (BingMarkerService.AddMarker marker) w)
    = <[marker := next_ref w]> (_markers w) /\
  _polylines (exec (BingMarkerService.AddMarker marker) w) = _polylines w.
Proof.
  unfold marker_creation_call. rewrite <- marker_options_agree.
  unfold exec, BingMarkerService.AddMarker, bind, gets.
  destruct (MapMarkerProps.InClusterLayer (marker_obj w marker)),
    (MapMarkerProps.InCustomLayer (marker_obj w marker)),
    (MapMarkerProps.IconInfo (marker_obj w marker)); cbn -[marker_then];
    repeat match goal with
    | |- context [marker_then ?p ?cb ?w0] =>
        let F := fresh "F" in
        pose proof (marker_then_frame p cb w0) as F; unfold exec in F;
        destruct F as (-> & -> & -> & -> & _)
    end; repeat split.
Qed.

Lemma AddPolyline_effect (w : World) (polyline : MapPolylineDirective) :
  (BingPolylineService.AddPolyline polyline w).1 = Normal tt /\
  calls (exec (BingPolylineService.AddPolyline polyline) w)
    = calls w ++ [polyline_creation_call (polyline_obj w polyline) (next_ref w)] /\
  _polylines (exec (BingPolylineService.AddPolyline polyline) w)
    = <[polyline := next_ref w]> (_polylines w) /\
  _markers (exec (BingPolylineService.AddPolyline polyline) w) = _markers w.
Proof.
  unfold polyline_creation_call. rewrite <- polyline_options_agree.
  unfold exec, BingPolylineService.AddPolyline, bind, gets.
  destruct (MapPolylineProps.InCustomLayer (polyline_obj w polyline)); cbn;
    repeat split.
Qed.

(** What each function passed to [then] does when it is run. *)
Lemma run_update_then (u : MarkerUpdate) (marker : MapMarker) (m : Marker) (w : World) :
  BingMarkerService.run_callback (update_then u marker) m w
    = (Normal tt, log [mutator_call u m (marker_obj w marker)] w).
Proof. destruct u; reflexivity. Qed.


Lemma run_DeletePolyline_then (polyline : MapPolylineDirective) (v : PolylineValue)
    (w : World) :
  BingPolylineService.run_callback (DeletePolyline_then polyline) v w
    = (Normal tt,
       set_polylines (delete polyline) (log (map Polyline_Delete (as_array w v)) w)).
Proof.
  unfold BingPolylineService.run_callback, bind at 1, gets at 1.
  unfold bind. rewrite forEach_call. reflexivity.
Qed.


(** *** The lookup tables along a run *)

Lemma marker_callbacks_keep_markers (cb : MarkerCallback) (m : Marker) :
  (forall marker, cb <> DeleteMarker_then marker) ->
  keeps (fun w => _markers w) (BingMarkerService.run_callback cb m).
Proof.
  intros H. destruct cb; try (exfalso; eapply H; reflexivity); keeps_all.
Qed.

Lemma polyline_callbacks_keep_markers (cb : PolylineCallback) (v : PolylineValue) :
  keeps (fun w => _markers w) (BingPolylineService.run_callback cb v).
Proof. destruct cb; keeps_all. Qed.

Lemma marker_callbacks_keep_polylines (cb : MarkerCallback) (m : Marker) :
  keeps (fun w => _polylines w) (BingMarkerService.run_callback cb m).
Proof. destruct cb; keeps_all. Qed.

Lemma polyline_callbacks_keep_polylines (cb : PolylineCallback) (v : PolylineValue) :
  (forall polyline, cb <> DeletePolyline_then polyline) ->
  keeps (fun w => _polylines w) (BingPolylineService.run_callback cb v).
Proof.
  intros H. destruct cb; try (exfalso; eapply H; reflexivity); keeps_all.
Qed.

Lemma step_markers (a : Action) (w : World) :
  _markers (step a w) = markers_after a w.
Proof.
  unfold step, exec.
  destruct a;
    try (refine ((_ : keeps (fun w => _markers w) (perform _)) w);
         cbn [perform]; solve [keeps_all]).
  - apply AddMarker_effect.
  - cbn [perform markers_after].
    destruct (microtasks w) as [|[cb m|cb v] rest] eqn:Hq.
    + unfold run_microtask, bind, gets. rewrite Hq. reflexivity.
    + rewrite (run_microtask_head _ _ _ Hq). cbn [run_job].
      destruct cb;
        try (refine (marker_callbacks_keep_markers _ m _
                       (set_microtasks (fun _ => rest) w));
             intros ?; discriminate).
      reflexivity.
    + rewrite (run_microtask_head _ _ _ Hq). cbn [run_job].
      exact (polyline_callbacks_keep_markers cb v (set_microtasks (fun _ => rest) w)).
Qed.

Lemma step_polylines (a : Action) (w : World) :
  _polylines (step a w) = polylines_after a w.
Proof.
  unfold step, exec.
  destruct a;
    try (refine ((_ : keeps (fun w => _polylines w) (perform _)) w);
         cbn [perform]; solve [keeps_all]).
  - apply AddPolyline_effect.
  - cbn [perform polylines_after].
    destruct (microtasks w) as [|[cb m|cb v] rest] eqn:Hq.
    + unfold run_microtask, bind, gets. rewrite Hq. reflexivity.
    + rewrite (run_microtask_head _ _ _ Hq). cbn [run_job].
      exact (marker_callbacks_keep_polylines cb m (set_microtasks (fun _ => rest) w)).
    + rewrite (run_microtask_head _ _ _ Hq). cbn [run_job].
      destruct cb;
        try (refine (polyline_callbacks_keep_polylines _ v _
                       (set_microtasks (fun _ => rest) w));
             intros ?; discriminate).
      rewrite run_DeletePolyline_then. reflexivity.
Qed.

Lemma step_markers_lookup (a : Action) (w : World) (marker : MapMarker) :
  a <> Do_AddMarker marker ->
  _markers (step a w) !! marker = _markers w !! marker \/
  (completes_DeleteMarker a w marker /\ _markers (step a w) !! marker = None).
Proof.
  intros Ha. rewrite step_markers.
  destruct a; cbn [markers_after]; try (left; reflexivity).
  - left. apply lookup_insert_ne. congruence.
  - destruct (microtasks w) as [|[cb m|cb v] rest] eqn:Hq; try (left; reflexivity).
    destruct cb; try (left; reflexivity).
    destruct (decide (marker0 = marker)) as [->|Hne].
    + right. split; [|apply lookup_delete_eq].
      split; [reflexivity | eauto].
    + left. apply lookup_delete_ne, Hne.
Qed.

Lemma step_polylines_lookup (a : Action) (w : World) (polyline : MapPolylineDirective) :
  a <> Do_AddPolyline polyline ->
  _polylines (step a w) !! polyline = _polylines w !! polyline \/
  (completes_DeletePolyline a w polyline /\ _polylines (step a w) !! polyline = None).
Proof.
  intros Ha. rewrite step_polylines.
  destruct a; cbn [polylines_after]; try (left; reflexivity).
  - left. apply lookup_insert_ne. congruence.
  - destruct (microtasks w) as [|[cb m|cb v] rest] eqn:Hq; try (left; reflexivity).
    destruct cb; try (left; reflexivity).
    destruct (decide (polyline0 = polyline)) as [->|Hne].
    + right. split; [|apply lookup_delete_eq].
      split; [reflexivity | eauto].
    + left. apply lookup_delete_ne, Hne.
Qed.

Lemma step_AddMarker_lookup (w : World) (marker : MapMarker) :
  _markers (step (Do_AddMarker marker) w) !! marker = Some (next_ref w).
Proof. rewrite step_markers. apply lookup_insert_eq. Qed.

Lemma step_AddPolyline_lookup (w : World) (polyline : MapPolylineDirective) :
  _polylines (step (Do_AddPolyline polyline) w) !! polyline = Some (next_ref w).
Proof. rewrite step_polylines. apply lookup_insert_eq. Qed.

(** One step keeps an entry unless it completes a deletion of it. *)
Lemma step_markers_persist (a : Action) (w : World) (marker : MapMarker) :
  is_Some (_markers w !! marker) ->
  ~ completes_DeleteMarker a w marker ->
  is_Some (_markers (step a w) !! marker).
Proof.
  intros Hs Hn. rewrite step_markers.
  destruct a; cbn [markers_after]; try exact Hs.
  - rewrite lookup_insert. case_decide; [eauto | exact Hs].
  - destruct (microtasks w) as [|[cb m|cb v] rest] eqn:Hq; try exact Hs.
    destruct cb; try exact Hs.
    rewrite lookup_delete. case_decide as E; [|exact Hs].
    subst. exfalso. apply Hn. split; [reflexivity | eauto].
Qed.

Lemma step_polylines_persist (a : Action) (w : World) (polyline : MapPolylineDirective) :
  is_Some (_polylines w !! polyline) ->
  ~ completes_DeletePolyline a w polyline ->
  is_Some (_polylines (step a w) !! polyline).
Proof.
  intros Hs Hn. rewrite step_polylines.
  destruct a; cbn [polylines_after]; try exact Hs.
  - rewrite lookup_insert. case_decide; [eauto | exact Hs].
  - destruct (microtasks w) as [|[cb m|cb v] rest] eqn:Hq; try exact Hs.
    destruct cb; try exact Hs.
    rewrite lookup_delete. case_decide as E; [|exact Hs].
    subst. exfalso. apply Hn. split; [reflexivity | eauto].
Qed.

(** An entry that was not there and now is was written by [AddMarker]. *)
Lemma step_markers_added (a : Action) (w : World) (marker : MapMarker) :
  _markers w !! marker = None ->
  is_Some (_markers (step a w) !! marker) ->
  a = Do_AddMarker marker.
Proof.
  intros Hn. rewrite step_markers.
  destruct a; cbn [markers_after];
    try (rewrite Hn; intros [? ?]; discriminate).
  - rewrite lookup_insert. case_decide as E; [intros _; congruence|].
    rewrite Hn. intros [? ?]; discriminate.
  - destruct (microtasks w) as [|[cb m|cb v] rest];
      try (rewrite Hn; intros [? ?]; discriminate).
    destruct cb; try (rewrite Hn; intros [? ?]; discriminate).
    rewrite lookup_delete. case_decide; [|rewrite Hn]; intros [? ?]; discriminate.
Qed.

Lemma step_polylines_added (a : Action) (w : World) (polyline : MapPolylineDirective) :
  _polylines w !! polyline = None ->
  is_Some (_polylines (step a w) !! polyline) ->
  a = Do_AddPolyline polyline.
Proof.
  intros Hn. rewrite step_polylines.
  destruct a; cbn [polylines_after];
    try (rewrite Hn; intros [? ?]; discriminate).
  - rewrite lookup_insert. case_decide as E; [intros _; congruence|].
    rewrite Hn. intros [? ?]; discriminate.
  - destruct (microtasks w) as [|[cb m|cb v] rest];
      try (rewrite Hn; intros [? ?]; discriminate).
    destruct cb; try (rewrite Hn; intros [? ?]; discriminate).
    rewrite lookup_delete. case_decide; [|rewrite Hn]; intros [? ?]; discriminate.
Qed.

(** An entry that was there and now is not was removed by the completion
    of a [DeleteMarker] on its handle. *)
Lemma step_markers_removed (a : Action) (w : World) (marker : MapMarker) :
  is_Some (_markers w !! marker) ->
  _markers (step a w) !! marker = None ->
  completes_DeleteMarker a w marker.
Proof.
  intros [p Hs]. rewrite step_markers.
  destruct a; cbn [markers_after]; try (rewrite Hs; discriminate).
  - rewrite lookup_insert. case_decide; [|rewrite Hs]; discriminate.
  - destruct (microtasks w) as [|[cb m|cb v] rest] eqn:Hq;
      try (rewrite Hs; discriminate).
    destruct cb; try (rewrite Hs; discriminate).
    rewrite lookup_delete. case_decide as E; [|rewrite Hs; discriminate].
    subst. intros _. split; [reflexivity | eauto].
Qed.

Lemma step_polylines_removed (a : Action) (w : World) (polyline : MapPolylineDirective) :
  is_Some (_polylines w !! polyline) ->
  _polylines (step a w) !! polyline = None ->
  completes_DeletePolyline a w polyline.
Proof.
  intros [p Hs]. rewrite step_polylines.
  destruct a; cbn [polylines_after]; try (rewrite Hs; discriminate).
  - rewrite lookup_insert. case_decide; [|rewrite Hs]; discriminate.
  - destruct (microtasks w) as [|[cb m|cb v] rest] eqn:Hq;
      try (rewrite Hs; discriminate).
    destruct cb; try (rewrite Hs; discriminate).
    rewrite lookup_delete. case_decide as E; [|rewrite Hs; discriminate].
    subst. intros _. split; [reflexivity | eauto].
Qed.

(** Along a run without [AddMarker] on the handle, its entry is the one
    the run started with, or gone. *)
Lemma run_markers_lookup (post : list Action) (w : World) (marker : MapMarker) :
  Forall (fun a => a <> Do_AddMarker marker) post ->
  _markers (run post w) !! marker = _markers w !! marker \/
  _markers (run post w) !! marker = None.
Proof.
  intros H. revert w. induction H as [|a post Ha _ IH]; intros w.
  - left. reflexivity.
  - change (run (a :: post) w) with (run post (step a w)).
    destruct (IH (step a w)) as [E|E]; [|right; exact E].
    destruct (step_markers_lookup a w marker Ha) as [E'|[_ E']].
    + left. congruence.
    + right. congruence.
Qed.

Lemma run_polylines_lookup (post : list Action) (w : World)
    (polyline : MapPolylineDirective) :
  Forall (fun a => a <> Do_AddPolyline polyline) post ->
  _polylines (run post w) !! polyline = _polylines w !! polyline \/
  _polylines (run post w) !! polyline = None.
Proof.
  intros H. revert w. induction H as [|a post Ha _ IH]; intros w.
  - left. reflexivity.
  - change (run (a :: post) w) with (run post (step a w)).
    destruct (IH (step a w)) as [E|E]; [|right; exact E].
    destruct (step_polylines_lookup a w polyline Ha) as [E'|[_ E']].
    + left. congruence.
    + right. congruence.
Qed.

(** An entry outlives every run in which no deletion of it completes. *)
Lemma run_markers_persist (post : list Action) (w : World) (marker : MapMarker) :
  is_Some (_markers w !! marker) ->
  never_completes_DeleteMarker marker post w ->
  is_Some (_markers (run post w) !! marker).
Proof.
  revert w. induction post as [|a post IH]; intros w Hs Hn; [exact Hs|].
  destruct Hn as [Hn1 Hn2].
  change (run (a :: post) w) with (run post (step a w)).
  apply IH; [|exact Hn2].
  apply step_markers_persist; assumption.
Qed.

Lemma run_polylines_persist (post : list Action) (w : World)
    (polyline : MapPolylineDirective) :
  is_Some (_polylines w !! polyline) ->
  never_completes_DeletePolyline polyline post w ->
  is_Some (_polylines (run post w) !! polyline).
Proof.
  revert w. induction post as [|a post IH]; intros w Hs Hn; [exact Hs|].
  destruct Hn as [Hn1 Hn2].
  change (run (a :: post) w) with (run post (step a w)).
  apply IH; [|exact Hn2].
  apply step_polylines_persist; assumption.
Qed.

(** *** Listeners *)

(** No step takes a handler away from a native object. *)
Lemma perform_grows_listeners (a : Action) : grows (fun w => listeners w) (perform a).
Proof. destruct a; cbn [perform]; grows_all. Qed.

Lemma run_keeps_listeners (post : list Action) (w : World)
    (l : Native * string * Listener) :
  l ∈ listeners w -> l ∈ listeners (run post w).
Proof.
  revert w. induction post as [|a post IH]; intros w H; [exact H|].
  change (run (a :: post) w) with (run post (step a w)). apply IH.
  destruct (perform_grows_listeners a w) as [more E].
  unfold step, exec. rewrite E. apply elem_of_app. left. exact H.
Qed.

Lemma forEach_invoke (e : JsEvent) (ls : list (Native * string * Listener)) (w : World) :
  forEach (fun l => invoke l.2 e) ls w
    = (Normal tt, log (map (fun l => Observer_next (listener_observer l.2) e) ls) w).
Proof.
  revert w. induction ls as [|[tn [observer]] ls IH]; intros w.
  - cbn. rewrite log_nil. reflexivity.
  - change (forEach (fun l => invoke l.2 e) ((tn, zone_run_next observer) :: ls) w)
      with (forEach (fun l => invoke l.2 e) ls (log [Observer_next observer e] w)).
    rewrite IH, log_app. reflexivity.
Qed.

(** When a native object raises an event, the observer behind every
    handler it holds for that name gets the event. *)
Lemma raise_effect (target : Native) (eventName : string) (e : JsEvent) (w : World) :
  raise target eventName e w
    = (Normal tt,
       log (map (fun l => Observer_next (listener_observer l.2) e)
              (filter (fun l => l.1 = (target, eventName)) (listeners w))) w).
Proof. unfold raise, bind, gets. apply forEach_invoke. Qed.

Lemma raise_reaches (target : Native) (eventName : string) (e : JsEvent) (w : World)
    (observer : Observer) :
  (target, eventName, zone_run_next observer) ∈ listeners w ->
  exists cs,
    calls (step (Env_Raise target eventName e) w) = calls w ++ cs /\
    Observer_next observer e ∈ cs.
Proof.
  intros H. unfold step, exec. cbn [perform]. rewrite raise_effect.
  eexists. split; [reflexivity|].
  apply (list_elem_of_fmap_2 (fun l => Observer_next (listener_observer l.2) e)
           _ (target, eventName, zone_run_next observer)).
  apply list_elem_of_filter. split; [reflexivity | exact H].
Qed.

(** *** Updating a path *)

Lemma normalize_path_nonempty (path : PathValue) :
  1 <= length (BingPolylineService.normalize_path path).
Proof. destruct path as [pts|[|s rest]]; cbn; lia. Qed.

Lemma splice_inside {A : Type} (start : nat) (l : list A) :
  start <= length l ->
  splice (Z.of_nat start) l = (drop start l, take start l).
Proof.
  intros H. unfold splice.
  destruct (Z.ltb_spec (Z.of_nat start) 0) as [Hneg|_]; [lia|].
  rewrite Z.min_l by lia. rewrite Nat2Z.id. reflexivity.
Qed.

(** The loop over the native polylines: the line at index [i] gets
    segment [i], as long as there is one. *)
Lemma forEach_from_SetPath (p : list (list ILatLong.t)) (x : list Polyline) (i : nat)
    (w : World) :
  forEach_from i
    (fun line index =>
       if decide (index < length p)
       then call (Polyline_SetPath line (p !!! index))
       else ret tt) x w
  = (Normal tt, log (zip_with Polyline_SetPath x (drop i p)) w).
Proof.
  revert i w. induction x as [|line x IH]; intros i w.
  - cbn. rewrite log_nil. reflexivity.
  - cbn [forEach_from]. unfold bind at 1.
    destruct (decide (i < length p)) as [Hlt|Hge].
    + rewrite call_log, IH, log_app.
      rewrite (drop_S p (p !!! i) i) by (apply list_lookup_lookup_total_lt, Hlt).
      reflexivity.
    + cbn. rewrite IH. rewrite !drop_ge by lia.
      destruct x; cbn; rewrite log_nil; reflexivity.
Qed.

(** What the function [UpdatePolyline] passes to [then] does. *)
Lemma run_UpdatePolyline_then_one (polyline : MapPolylineDirective) (l : Polyline)
    (w : World) :
  BingPolylineService.run_callback (UpdatePolyline_then polyline) (OnePolyline l) w
  = (Normal tt,
     log (zip_with Polyline_SetPath [l]
            (BingPolylineService.normalize_path
               (MapPolylineProps.Path (polyline_obj w polyline)))) w).
Proof.
  unfold BingPolylineService.run_callback, bind, gets. cbv zeta.
  rewrite forEach_from_SetPath. reflexivity.
Qed.

Lemma run_UpdatePolyline_then_array (polyline : MapPolylineDirective) (a : ArrayRef)
    (arr : list Polyline) (w : World) :
  arrays w !! a = Some arr ->
  let p := BingPolylineService.normalize_path
             (MapPolylineProps.Path (polyline_obj w polyline)) in
  BingPolylineService.run_callback (UpdatePolyline_then polyline) (PolylineArray a) w
  = (Normal tt,
     if decide (length p < length arr)
     then log (map Polyline_Delete (drop (length p - 1) arr))
            (set_arrays <[a := take (length p - 1) arr]>
               (log (zip_with Polyline_SetPath arr p) w))
     else log (zip_with Polyline_SetPath arr p) w).
Proof.
  intros Ha p.
  pose proof (normalize_path_nonempty (MapPolylineProps.Path (polyline_obj w polyline)))
    as Hp. fold p in Hp.
  unfold BingPolylineService.run_callback, bind, gets. cbv zeta. fold p.
  unfold as_array. rewrite Ha. change (default [] (Some arr)) with arr.
  rewrite forEach_from_SetPath. cbn [drop].
  destruct (decide (length p < length arr)) as [Hlt|Hge]; [|reflexivity].
  replace (Z.of_nat (length p) - 1)%Z with (Z.of_nat (length p - 1)) by lia.
  rewrite splice_inside by lia. cbn [fst snd].
  unfold modify. rewrite forEach_call. reflexivity.
Qed.

(** *** Subscriptions to polyline events *)

Lemma polyline_subscribe_fn_blind (eventName : string) (polyline : MapPolylineDirective)
    (observer : Observer) :
  blind (BingPolylineService.subscribe_fn eventName polyline observer).
Proof. blind_all. Qed.

(** What one subscription to a polyline observable comes to: a subject is
    made; for the two unsupported names the observer joins it and nothing
    else happens, for any other name the function given to
    [Observable.create] runs. *)
Lemma perform_SubscribePolyline (eventName : string) (polyline : MapPolylineDirective)
    (observer : Observer) (w : World) :
  let b := next_subject w in
  let w0 := set_subjects <[b := []]> (set_next_subject S w) in
  perform (Do_SubscribePolyline eventName polyline observer) w =
    if decide (eventName = "mousemove" \/ eventName = "rightclick")
    then (Normal tt,
          set_subjects (fun s => <[b := default [] (s !! b) ++ [observer]]> s) w0)
    else BingPolylineService.subscribe_fn eventName polyline observer w0.
Proof.
  cbn [perform]. unfold BingPolylineService.CreateEventObservable, new_Subject.
  unfold bind at 1 2 3 4 5, gets at 1, modify at 1 2, ret at 1. cbn [fst snd].
  destruct (decide (eventName = "mousemove")) as [E1|N1].
  - rewrite decide_True by (left; exact E1). reflexivity.
  - destruct (decide (eventName = "rightclick")) as [E2|N2].
    + rewrite decide_True by (right; exact E2). reflexivity.
    + rewrite decide_False by (intros [?|?]; contradiction). reflexivity.
Qed.

Lemma perform_blind (a : Action) : blind (perform a).
Proof.
  destruct a; try (cbn [perform]; solve [blind_all]).
  intros w1 w2 E. rewrite !perform_SubscribePolyline. cbv zeta.
  destruct (decide (eventName = "mousemove" \/ eventName = "rightclick")).
  - split; [reflexivity | exact E].
  - apply polyline_subscribe_fn_blind. exact E.
Qed.

Lemma run_blind (post : list Action) (w1 w2 : World) :
  same_but_subjects w1 w2 -> same_but_subjects (run post w1) (run post w2).
Proof.
  revert w1 w2. induction post as [|a post IH]; intros w1 w2 E; [exact E|].
  change (same_but_subjects (run post (step a w1)) (run post (step a w2))).
  apply IH. apply perform_blind, E.
Qed.

(** The registration loop: one [AddListener] per native polyline. *)
Lemma forEach_AddListener (eventName : string) (fn : Listener) (x : list Polyline)
    (w : World) :
  forEach (fun line => AddListener (NativePolyline line) eventName fn) x w
  = (Normal tt,
     set_listeners
       (fun ls => ls ++ map (fun line => (NativePolyline line, eventName, fn)) x)
       (log (map (fun line => Polyline_AddListener line eventName fn) x) w)).
Proof.
  revert w. induction x as [|line x IH]; intros w.
  - cbn. unfold set_listeners, log, set_calls. cbn. rewrite !app_nil_r. reflexivity.
  - change (forEach (fun line => AddListener (NativePolyline line) eventName fn)
              (line :: x) w)
      with (forEach (fun line => AddListener (NativePolyline line) eventName fn) x
              (set_listeners (fun ls => ls ++ [(NativePolyline line, eventName, fn)])
                 (log [Polyline_AddListener line eventName fn] w))).
    rewrite IH. unfold set_listeners, log, set_calls. cbn. rewrite <- !app_assoc.
    reflexivity.
Qed.

Lemma run_PolylineEvent_then (eventName : string) (observer : Observer)
    (v : PolylineValue) (w : World) :
  BingPolylineService.run_callback (PolylineEvent_then eventName observer) v w
  = (Normal tt,
     set_listeners
       (fun ls => ls ++ map (fun line => (NativePolyline line, eventName,
                                           zone_run_next observer)) (as_array w v))
       (log (map (fun line => Polyline_AddListener line eventName
                                (zone_run_next observer)) (as_array w v)) w)).
Proof.
  unfold BingPolylineService.run_callback, bind, gets. apply forEach_AddListener.
Qed.

(** ** Worked runs *)

Example number_truthy_values :
  number_truthy 24%float = true /\
  number_truthy 0%float = false /\
  number_truthy (-0)%float = false /\
  number_truthy PrimFloat.nan = false.
Proof. repeat split. Qed.

(** A clustered marker with a dynamic icon: the creation call goes to the
    cluster service although the marker is in a custom layer too; a zero
    width is not copied into the options; once the native marker exists the
    icon hook fires and the marker is anchored at (32 * 0.5, 32 * 1). *)
Example add_clustered_icon_marker :
  calls (run [ Env_SetMarker 0 clustered_icon_marker; Env_SetIconInfo 0 pin_icon;
               Do_AddMarker 0; Env_FulfilMarker 0 5; Env_RunMicrotask ]
           initial_world)
  = [ ClusterService_CreateMarker 3%float
        {| IMarkerOptions.position := pt 47.5%float 19%float;
           IMarkerOptions.title := Some "depot";
           IMarkerOptions.label := Some "D";
           IMarkerOptions.draggable := Some false;
           IMarkerOptions.icon := Some "";
           IMarkerOptions.iconInfo := Some 0;
           IMarkerOptions.width := None;
           IMarkerOptions.height := None;
           IMarkerOptions.anchor := None;
           IMarkerOptions.metadata := None |} 0;
      DynamicMarkerCreated_emit 0 (Some 0);
      Marker_SetAnchor 5 (Some {| IPoint.x := 16%float; IPoint.y := 32%float |}) ].
Proof. vm_compute. reflexivity. Qed.

(** Deleting a polyline made of three native polylines. *)
Example delete_polyline_array :
  let w := run [Do_DeletePolyline 0; Env_RunMicrotask] three_lines_two_segments in
  calls w = calls three_lines_two_segments ++
            [Polyline_Delete 10; Polyline_Delete 11; Polyline_Delete 12] /\
  _polylines w !! 0 = None.
Proof. vm_compute. split; reflexivity. Qed.

(** A deletion asked for before the marker was created completes when the
    creation promise is fulfilled, whatever was added in between: here
    marker 0 is added, deleted and added again before the first creation
    promise is fulfilled, and the entry written by the second [AddMarker] is
    the one the deletion removes. *)
Example late_delete_removes_newer_entry :
  let w1 := run [Do_AddMarker 0; Do_DeleteMarker 0; Do_AddMarker 0] initial_world in
  let w2 := run [Env_FulfilMarker 0 5; Env_RunMicrotask] w1 in
  _markers w1 !! 0 = Some 1 /\ _markers w2 !! 0 = None.
Proof. vm_compute. split; reflexivity. Qed.

(** ** The claims *)

(** C1 (the code departs from the claim). On a handle that has no lookup
    entry, [DeleteMarker], [DeletePolyline] and [UpdatePolyline] return an
    already resolved promise and leave the world as it was. The six marker
    updates and [SetOptions] leave the world as it was too, but they do not
    complete: each ends by throwing a [TypeError], because it calls [then]
    on the [undefined] that the lookup gave. *)
Theorem C1_absent_handle (w : World) (marker : MapMarker)
    (polyline : MapPolylineDirective) (options : IPolylineOptions.t) :
  _markers w !! marker = None ->
  _polylines w !! polyline = None ->
  (BingMarkerService.DeleteMarker marker w = (Normal Promise_resolve, w) /\
   BingPolylineService.DeletePolyline polyline w = (Normal Promise_resolve, w) /\
   BingPolylineService.UpdatePolyline polyline w = (Normal Promise_resolve, w)) /\
  (BingMarkerService.UpdateAnchor marker w = (Throw TypeError, w) /\
   BingMarkerService.UpdateMarkerPosition marker w = (Throw TypeError, w) /\
   BingMarkerService.UpdateTitle marker w = (Throw TypeError, w) /\
   BingMarkerService.UpdateLabel marker w = (Throw TypeError, w) /\
   BingMarkerService.UpdateDraggable marker w = (Throw TypeError, w) /\
   BingMarkerService.UpdateIcon marker w = (Throw TypeError, w) /\
   BingPolylineService.SetOptions polyline options w = (Throw TypeError, w)).
Proof.
  intros Hm Hp. split.
  - auto using DeleteMarker_absent, DeletePolyline_absent, UpdatePolyline_absent.
  - repeat split;
      first [ apply markers_get_then_absent, Hm | apply polylines_get_then_absent, Hp ].
Qed.

(** On the services as constructed, with nothing added: [UpdateTitle] on
    marker 0 throws, as do the other updates and [SetOptions]. *)
Lemma C1_absent_handle_witness :
  (_markers initial_world !! 0 = None /\ _polylines initial_world !! 0 = None) /\
  (BingMarkerService.DeleteMarker 0 initial_world = (Normal Promise_resolve, initial_world) /\
   BingPolylineService.DeletePolyline 0 initial_world
     = (Normal Promise_resolve, initial_world) /\
   BingPolylineService.UpdatePolyline 0 initial_world
     = (Normal Promise_resolve, initial_world)) /\
  (BingMarkerService.UpdateAnchor 0 initial_world = (Throw TypeError, initial_world) /\
   BingMarkerService.UpdateMarkerPosition 0 initial_world
     = (Throw TypeError, initial_world) /\
   BingMarkerService.UpdateTitle 0 initial_world = (Throw TypeError, initial_world) /\
   BingMarkerService.UpdateLabel 0 initial_world = (Throw TypeError, initial_world) /\
   BingMarkerService.UpdateDraggable 0 initial_world = (Throw TypeError, initial_world) /\
   BingMarkerService.UpdateIcon 0 initial_world = (Throw TypeError, initial_world) /\
   BingPolylineService.SetOptions 0 (BingPolylineService.options_of unset_polyline)
     initial_world = (Throw TypeError, initial_world)).
Proof.
  split.
  - split; reflexivity.
  - apply (C1_absent_handle initial_world 0 0
             (BingPolylineService.options_of unset_polyline)); reflexivity.
Defined.

(** C2. After [AddMarker] (or [AddPolyline]) the lookup table has an entry
    for the handle; the entry outlives every run of service calls and
    environment moves in which no [DeleteMarker] (or [DeletePolyline]) on
    that handle completes; a step that makes an entry appear is an
    [AddMarker] (or [AddPolyline]) on its handle, and a step that makes an
    entry disappear is the completion of a [DeleteMarker] (or
    [DeletePolyline]) on its handle. *)
Theorem C2_lookup_entry_lifetime :
  (forall w marker, is_Some (_markers (step (Do_AddMarker marker) w) !! marker)) /\
  (forall w polyline,
     is_Some (_polylines (step (Do_AddPolyline polyline) w) !! polyline)) /\
  (forall post w marker,
     is_Some (_markers w !! marker) ->
     never_completes_DeleteMarker marker post w ->
     is_Some (_markers (run post w) !! marker)) /\
  (forall post w polyline,
     is_Some (_polylines w !! polyline) ->
     never_completes_DeletePolyline polyline post w ->
     is_Some (_polylines (run post w) !! polyline)) /\
  (forall a w marker,
     _markers w !! marker = None ->
     is_Some (_markers (step a w) !! marker) ->
     a = Do_AddMarker marker) /\
  (forall a w polyline,
     _polylines w !! polyline = None ->
     is_Some (_polylines (step a w) !! polyline) ->
     a = Do_AddPolyline polyline) /\
  (forall a w marker,
     is_Some (_markers w !! marker) ->
     _markers (step a w) !! marker = None ->
     completes_DeleteMarker a w marker) /\
  (forall a w polyline,
     is_Some (_polylines w !! polyline) ->
     _polylines (step a w) !! polyline = None ->
     completes_DeletePolyline a w polyline).
Proof.
  split; [|split; [|split; [|split; [|split; [|split; [|split]]]]]].
  - intros w marker. rewrite step_AddMarker_lookup. eauto.
  - intros w polyline. rewrite step_AddPolyline_lookup. eauto.
  - apply run_markers_persist.
  - apply run_polylines_persist.
  - apply step_markers_added.
  - apply step_polylines_added.
  - apply step_markers_removed.
  - apply step_polylines_removed.
Qed.

(** Marker 0 has its entry; its title is updated, the update runs, and a
    [DeleteMarker] is called but has not completed: the entry is still there. *)
Lemma C2_lookup_entry_lifetime_witness :
  is_Some (_markers one_marker_created !! 0) /\
  never_completes_DeleteMarker 0
    [Do_UpdateTitle 0; Env_RunMicrotask; Do_DeleteMarker 0] one_marker_created /\
  is_Some (_markers
    (run [Do_UpdateTitle 0; Env_RunMicrotask; Do_DeleteMarker 0] one_marker_created) !! 0).
Proof.
  assert (Hs : is_Some (_markers one_marker_created !! 0)) by (exists 0; reflexivity).
  assert (Hn : never_completes_DeleteMarker 0
                 [Do_UpdateTitle 0; Env_RunMicrotask; Do_DeleteMarker 0]
                 one_marker_created).
  { cbn [never_completes_DeleteMarker]. repeat split.
    - intros [E _]. discriminate E.
    - intros [_ (m & rest & E)]. vm_compute in E. discriminate E.
    - intros [E _]. discriminate E. }
  split; [exact Hs|]. split; [exact Hn|].
  exact (proj1 (proj2 (proj2 C2_lookup_entry_lifetime)) _ _ _ Hs Hn).
Defined.

(** C3. [AddMarker] never throws; it adds exactly one call to the log, the
    creation call chosen by the marker's layer context (cluster service,
    then layer service, then map service), carrying the options object built
    from the marker's properties as they are at the call (the object
    [marker_options_from] spells out field by field); and the promise
    that call returned is what the lookup table holds for the marker
    afterwards. [AddPolyline] does the same with the layer service or the
    map service and the options of [polyline_options_from]. The function
    [AddMarker] passes to [then] for a dynamic icon makes no creation call
    when it runs later. *)
Theorem C3_add_makes_one_creation_call :
  (forall (w : World) (marker : MapMarker),
     let mk := marker_obj w marker in
     let p := next_ref w in
     let w' := exec (BingMarkerService.AddMarker marker) w in
     (BingMarkerService.AddMarker marker w).1 = Normal tt /\
     calls w' = calls w ++ [marker_creation_call mk p] /\
     _markers w' = <[marker := p]> (_markers w)) /\
  (forall (w : World) (polyline : MapPolylineDirective),
     let pl := polyline_obj w polyline in
     let p := next_ref w in
     let w' := exec (BingPolylineService.AddPolyline polyline) w in
     (BingPolylineService.AddPolyline polyline w).1 = Normal tt /\
     calls w' = calls w ++ [polyline_creation_call pl p] /\
     _polylines w' = <[polyline := p]> (_polylines w)) /\
  (forall (w : World) (marker : MapMarker) (o : IMarkerOptions.t) (m : Marker),
     exists cs,
       calls (exec (run_job (MarkerJob (AddMarker_then marker o) m)) w) = calls w ++ cs /\
       forallb (fun c => negb (is_creation_call c)) cs = true).
Proof.
  split; [|split].
  - intros w marker mk p w'.
    destruct (AddMarker_effect w marker) as (H1 & _ & H3 & _).
    split; [exact H1|]. split; [|exact H3]. subst mk p w'.
    unfold marker_creation_call, marker_options_from.
    unfold exec, BingMarkerService.AddMarker, BingMarkerService.options_of, bind, gets.
    destruct (MapMarkerProps.InClusterLayer (marker_obj w marker)),
      (MapMarkerProps.InCustomLayer (marker_obj w marker)),
      (MapMarkerProps.IconInfo (marker_obj w marker)),
      (MapMarkerProps.Width (marker_obj w marker)) as [x|],
      (MapMarkerProps.Height (marker_obj w marker)) as [y|];
      cbn -[marker_then number_truthy];
      try destruct (number_truthy x); try destruct (number_truthy y);
      repeat match goal with
      | |- context [marker_then ?p ?cb ?w0] =>
          let F := fresh "F" in
          pose proof (marker_then_frame p cb w0) as F; unfold exec in F;
          destruct F as (_ & -> & _)
      end; reflexivity.
  - intros w polyline pl p w'.
    destruct (AddPolyline_effect w polyline) as (H1 & _ & H3 & _).
    split; [exact H1|]. split; [|exact H3]. subst pl p w'.
    unfold polyline_creation_call, polyline_options_from.
    unfold exec, BingPolylineService.AddPolyline, BingPolylineService.options_of,
      bind, gets.
    destruct (MapPolylineProps.InCustomLayer (polyline_obj w polyline)); reflexivity.
  - intros w marker o m. unfold exec. cbn [run_job BingMarkerService.run_callback].
    destruct (IMarkerOptions.iconInfo o) as [r|].
    + eexists [_; _]. split; [cbn; rewrite <- app_assoc; reflexivity | reflexivity].
    + eexists [_]. split; [reflexivity | reflexivity].
Qed.

(** A red route of two segments, on the map itself: one call to the map
    service, with every option taken from the directive. And a marker of
    cluster layer 3 whose width is zero: one call to the cluster service,
    with every option taken from the marker and no width. *)
Lemma C3_add_makes_one_creation_call_witness :
  calls (exec (BingPolylineService.AddPolyline 0)
           (run [Env_SetPolyline 0
                   (polyline_with_path (ComplexPath [segment_a; segment_b]))]
              initial_world))
  = [MapService_CreatePolyline
       {| IPolylineOptions.id := 7%float;
          IPolylineOptions.clickable := true;
          IPolylineOptions.draggable := false;
          IPolylineOptions.editable := false;
          IPolylineOptions.geodesic := false;
          IPolylineOptions.path := ComplexPath [segment_a; segment_b];
          IPolylineOptions.showTooltip := true;
          IPolylineOptions.strokeColor := "red";
          IPolylineOptions.strokeOpacity := 1%float;
          IPolylineOptions.strokeWeight := 2%float;
          IPolylineOptions.title := "route";
          IPolylineOptions.visible := true;
          IPolylineOptions.zIndex := 0%float |} 0] /\
  calls (exec (BingMarkerService.AddMarker 0)
           (run [Env_SetMarker 0 clustered_icon_marker] initial_world))
  = [ClusterService_CreateMarker 3%float
       {| IMarkerOptions.position :=
            {| ILatLong.latitude := 47.5%float; ILatLong.longitude := 19%float |};
          IMarkerOptions.title := Some "depot";
          IMarkerOptions.label := Some "D";
          IMarkerOptions.draggable := Some false;
          IMarkerOptions.icon := Some "";
          IMarkerOptions.iconInfo := Some 0;
          IMarkerOptions.width := None;
          IMarkerOptions.height := None;
          IMarkerOptions.anchor := None;
          IMarkerOptions.metadata := None |} 0].
Proof.
  split.
  - exact (proj1 (proj2 (proj1 (proj2 C3_add_makes_one_creation_call)
                           (run [Env_SetPolyline 0
                                   (polyline_with_path
                                      (ComplexPath [segment_a; segment_b]))]
                              initial_world) 0))).
  - exact (proj1 (proj2 (proj1 C3_add_makes_one_creation_call
                           (run [Env_SetMarker 0 clustered_icon_marker] initial_world)
                           0))).
Defined.

(** C4. On a marker with a lookup entry, each of [UpdateAnchor],
    [UpdateMarkerPosition], [UpdateTitle], [UpdateLabel] and
    [UpdateDraggable] completes normally, makes no call yet, and leaves one
    reaction on the stored creation promise: behind the reactions already
    there while the promise is pending, or as a microtask when it is
    fulfilled. Whenever that reaction runs, with the native marker the
    promise was fulfilled with, it makes exactly one call: the mutator of
    the update, with the property as the marker holds it at that moment. *)
Theorem C4_update_forwards_one_mutator (u : MarkerUpdate) (w : World)
    (marker : MapMarker) (p : PromiseRef) :
  _markers w !! marker = Some p ->
  let cb := update_then u marker in
  let w' := exec (marker_then p cb) w in
  update_method u marker w = (Normal (marker_then_promise p cb), w') /\
  calls w' = calls w /\
  (forall rs,
     marker_promise_state w p = Pending rs ->
     marker_promise_state w' p = Pending (rs ++ [cb]) /\ microtasks w' = microtasks w) /\
  (forall m,
     marker_promise_state w p = Fulfilled m ->
     microtasks w' = microtasks w ++ [MarkerJob cb m]) /\
  (forall (w0 : World) (m : Marker),
     run_job (MarkerJob cb m) w0
       = (Normal tt, log [mutator_call u m (marker_obj w0 marker)] w0)).
Proof.
  intros H cb w'. subst cb w'. split; [|split; [|split; [|split]]].
  - destruct u; apply markers_get_then_present, H.
  - apply marker_then_frame.
  - intros rs. apply marker_then_pending.
  - intros m Hm. apply (marker_then_fulfilled _ _ _ _ Hm).
  - intros w0 m. apply run_update_then.
Qed.

(** Marker 0 was created as native marker 5 with the title "old".
    [UpdateTitle] queues one microtask; the title changes to "new" before
    the microtask runs; the one call made is [SetTitle] with "new". *)
Lemma C4_update_forwards_one_mutator_witness :
  _markers one_marker_created !! 0 = Some 0 /\
  calls (run [Do_UpdateTitle 0] one_marker_created) = calls one_marker_created /\
  microtasks (run [Do_UpdateTitle 0] one_marker_created)
    = [MarkerJob (UpdateTitle_then 0) 5] /\
  run_job (MarkerJob (UpdateTitle_then 0) 5)
      (run [Do_UpdateTitle 0; Env_SetMarker 0 (titled_marker "new")] one_marker_created)
    = (Normal tt,
       log [Marker_SetTitle 5 "new"]
         (run [Do_UpdateTitle 0; Env_SetMarker 0 (titled_marker "new")]
            one_marker_created)).
Proof.
  assert (H : _markers one_marker_created !! 0 = Some 0) by reflexivity.
  destruct (C4_update_forwards_one_mutator Title_update one_marker_created 0 0 H)
    as (E & Hc & _ & Hq & Hr).
  split; [exact H|]. split; [|split].
  - unfold run, foldl, step, exec. cbn [perform]. unfold bind at 1.
    cbn [update_method] in E. rewrite E. exact Hc.
  - unfold run, foldl, step, exec. cbn [perform]. unfold bind at 1.
    cbn [update_method] in E. rewrite E. exact (Hq 5 eq_refl).
  - exact (Hr _ 5).
Defined.



(** C6. [GetNativeMarker] and [GetNativePolyline] return what the lookup
    table holds for the handle and leave the world as it was. [AddMarker]
    (or [AddPolyline]) ends with the creation call whose returned promise it
    stores; and after any run of service calls and environment moves with no
    later [AddMarker] (or [AddPolyline]) on the handle, if the handle still
    has an entry, what is returned is that very promise. *)
Theorem C6_get_native_returns_stored_promise :
  (forall w marker,
     BingMarkerService.GetNativeMarker marker w = (Normal (_markers w !! marker), w)) /\
  (forall w polyline,
     BingPolylineService.GetNativePolyline polyline w
       = (Normal (_polylines w !! polyline), w)) /\
  (forall w marker post,
     Forall (fun a => a <> Do_AddMarker marker) post ->
     let w1 := step (Do_AddMarker marker) w in
     let w2 := run post w1 in
     last (calls w1) = Some (marker_creation_call (marker_obj w marker) (next_ref w)) /\
     (is_Some (_markers w2 !! marker) ->
      BingMarkerService.GetNativeMarker marker w2 = (Normal (Some (next_ref w)), w2))) /\
  (forall w polyline post,
     Forall (fun a => a <> Do_AddPolyline polyline) post ->
     let w1 := step (Do_AddPolyline polyline) w in
     let w2 := run post w1 in
     last (calls w1)
       = Some (polyline_creation_call (polyline_obj w polyline) (next_ref w)) /\
     (is_Some (_polylines w2 !! polyline) ->
      BingPolylineService.GetNativePolyline polyline w2
        = (Normal (Some (next_ref w)), w2))).
Proof.
  split; [|split; [|split]].
  - reflexivity.
  - reflexivity.
  - intros w marker post Hpost w1 w2. split.
    + subst w1. unfold step. cbn [perform].
      destruct (AddMarker_effect w marker) as (_ & -> & _). apply last_snoc.
    + intros [q Hq]. unfold BingMarkerService.GetNativeMarker, gets.
      destruct (run_markers_lookup post w1 marker Hpost) as [E|E]; fold w2 in E.
      * subst w1. rewrite step_AddMarker_lookup in E. rewrite E. reflexivity.
      * congruence.
  - intros w polyline post Hpost w1 w2. split.
    + subst w1. unfold step. cbn [perform].
      destruct (AddPolyline_effect w polyline) as (_ & -> & _). apply last_snoc.
    + intros [q Hq]. unfold BingPolylineService.GetNativePolyline, gets.
      destruct (run_polylines_lookup post w1 polyline Hpost) as [E|E]; fold w2 in E.
      * subst w1. rewrite step_AddPolyline_lookup in E. rewrite E. reflexivity.
      * congruence.
Qed.

(** Marker 0 is added; its promise is fulfilled, its title updated, and
    another marker added and deleted: [GetNativeMarker] still returns
    promise 0, the one the creation call for marker 0 returned. *)
Lemma C6_get_native_returns_stored_promise_witness :
  Forall (fun a => a <> Do_AddMarker 0)
    [Env_FulfilMarker 0 5; Do_UpdateTitle 0; Env_RunMicrotask; Do_AddMarker 1;
     Do_DeleteMarker 1] /\
  BingMarkerService.GetNativeMarker 0
      (run [Env_FulfilMarker 0 5; Do_UpdateTitle 0; Env_RunMicrotask; Do_AddMarker 1;
            Do_DeleteMarker 1]
         (step (Do_AddMarker 0) initial_world))
    = (Normal (Some 0),
       run [Env_FulfilMarker 0 5; Do_UpdateTitle 0; Env_RunMicrotask; Do_AddMarker 1;
            Do_DeleteMarker 1]
         (step (Do_AddMarker 0) initial_world)).
Proof.
  assert (H : Forall (fun a => a <> Do_AddMarker 0)
                [Env_FulfilMarker 0 5; Do_UpdateTitle 0; Env_RunMicrotask;
                 Do_AddMarker 1; Do_DeleteMarker 1])
    by (repeat constructor; discriminate).
  split; [exact H|].
  apply (proj1 (proj2 (proj2 C6_get_native_returns_stored_promise)) initial_world 0 _ H).
  exists 0. reflexivity.
Defined.

(** C7. On a marker with a lookup entry, one subscription to the
    observable of [CreateEventObservable] leaves one reaction on the stored
    creation promise and calls nothing yet. When the reaction runs with the
    native marker, it makes exactly one call, [AddListener] with the event
    name, and the native marker holds the handler from then on; whenever
    the native marker later raises an event under that name, after any run
    of service calls and environment moves, the subscriber's observer gets
    that event. *)
Theorem C7_marker_event_subscription (w : World) (eventName : string)
    (marker : MapMarker) (observer : Observer) (p : PromiseRef) :
  _markers w !! marker = Some p ->
  let cb := MarkerEvent_then eventName observer in
  let fn := zone_run_next observer in
  let w' := exec (marker_then p cb) w in
  perform (Do_SubscribeMarker eventName marker observer) w = (Normal tt, w') /\
  calls w' = calls w /\
  listeners w' = listeners w /\
  (forall rs,
     marker_promise_state w p = Pending rs ->
     marker_promise_state w' p = Pending (rs ++ [cb]) /\ microtasks w' = microtasks w) /\
  (forall m,
     marker_promise_state w p = Fulfilled m ->
     microtasks w' = microtasks w ++ [MarkerJob cb m]) /\
  (forall w0 m,
     let w1 := exec (run_job (MarkerJob cb m)) w0 in
     (run_job (MarkerJob cb m) w0).1 = Normal tt /\
     calls w1 = calls w0 ++ [Marker_AddListener m eventName fn] /\
     listeners w1 = listeners w0 ++ [(NativeMarker m, eventName, fn)] /\
     forall post e,
       exists cs,
         calls (step (Env_Raise (NativeMarker m) eventName e) (run post w1))
           = calls (run post w1) ++ cs /\
         Observer_next observer e ∈ cs).
Proof.
  intros H cb fn w'. subst cb fn w'.
  split; [|split; [|split; [|split; [|split]]]].
  - cbn [perform]. unfold BingMarkerService.CreateEventObservable, bind at 1, ret at 1.
    cbn [subscribe]. unfold BingMarkerService.subscribe_fn, bind.
    rewrite (markers_get_then_present _ _ _ _ H). reflexivity.
  - apply marker_then_frame.
  - apply marker_then_frame.
  - intros rs. apply marker_then_pending.
  - intros m Hm. apply (marker_then_fulfilled _ _ _ _ Hm).
  - intros w0 m w1. subst w1.
    split; [reflexivity|]. split; [reflexivity|]. split; [reflexivity|].
    intros post e. apply raise_reaches, run_keeps_listeners.
    unfold exec. cbn. apply elem_of_app. right. apply list_elem_of_singleton.
    reflexivity.
Qed.

(** A subscriber to "click" on marker 0, which exists as native marker 5. *)
Lemma C7_marker_event_subscription_witness :
  _markers one_marker_created !! 0 = Some 0 /\
  perform (Do_SubscribeMarker "click" 0 9) one_marker_created
    = (Normal tt, exec (marker_then 0 (MarkerEvent_then "click" 9)) one_marker_created) /\
  microtasks (exec (marker_then 0 (MarkerEvent_then "click" 9)) one_marker_created)
    = [MarkerJob (MarkerEvent_then "click" 9) 5].
Proof.
  assert (H : _markers one_marker_created !! 0 = Some 0) by reflexivity.
  destruct (C7_marker_event_subscription one_marker_created "click" 0 9 0 H)
    as (E & _ & _ & _ & Hq & _).
  split; [exact H|]. split; [exact E|]. exact (Hq 5 eq_refl).
Defined.

(** The same subscription from end to end: one [AddListener], and the
    click the native marker raises afterwards reaches observer 9. *)
Example marker_click_reaches_subscriber :
  calls (run [Do_SubscribeMarker "click" 0 9; Env_RunMicrotask;
              Env_Raise (NativeMarker 5) "click" (JsObject None None)]
           one_marker_created)
  = calls one_marker_created ++
    [Marker_AddListener 5 "click" (zone_run_next 9);
     Observer_next 9 (JsObject None None)].
Proof. vm_compute. reflexivity. Qed.

(** C8 (the code departs from the claim). When the function of
    [UpdatePolyline] runs on an array of native polylines that is longer
    than the list [p] of path segments, every native polyline at an index
    below the length of [p] gets [SetPath] with its segment, as the claim
    says; but the polylines then deleted and taken out of the stored array
    are those from index [length p - 1] on, not from [length p] on: the
    last polyline that was just given a path is deleted with the surplus. *)
Theorem C8_UpdatePolyline_splices_one_early (w : World)
    (polyline : MapPolylineDirective) (a : ArrayRef) (arr : list Polyline) :
  arrays w !! a = Some arr ->
  let p := BingPolylineService.normalize_path
             (MapPolylineProps.Path (polyline_obj w polyline)) in
  length p < length arr ->
  let w' :=
    exec (run_job (PolylineJob (UpdatePolyline_then polyline) (PolylineArray a))) w in
  calls w' = calls w ++ zip_with Polyline_SetPath arr p
                     ++ map Polyline_Delete (drop (length p - 1) arr) /\
  arrays w' !! a = Some (take (length p - 1) arr).
Proof.
  intros Ha p Hlt w'. subst w'. unfold exec. cbn [run_job].
  rewrite (run_UpdatePolyline_then_array polyline a arr w Ha). fold p.
  destruct (decide (length p < length arr)) as [_|Hge]; [|contradiction].
  cbn. rewrite <- app_assoc. split; [reflexivity|]. apply lookup_insert_eq.
Qed.

(** Three native polylines (10, 11, 12) and a path of two segments: 10
    and 11 get their segments, then 11 and 12 are deleted, and the stored
    array is left with 10 alone. The claim has only 12 deleted, and 10 and
    11 left in the array. *)
Lemma C8_UpdatePolyline_splices_one_early_witness :
  arrays three_lines_two_segments !! 1 = Some [10; 11; 12] /\
  BingPolylineService.normalize_path
    (MapPolylineProps.Path (polyline_obj three_lines_two_segments 0))
    = [segment_a; segment_b] /\
  calls (exec (run_job (PolylineJob (UpdatePolyline_then 0) (PolylineArray 1)))
           three_lines_two_segments)
    = calls three_lines_two_segments ++
      [Polyline_SetPath 10 segment_a; Polyline_SetPath 11 segment_b;
       Polyline_Delete 11; Polyline_Delete 12] /\
  arrays (exec (run_job (PolylineJob (UpdatePolyline_then 0) (PolylineArray 1)))
            three_lines_two_segments) !! 1
    = Some [10].
Proof.
  assert (Ha : arrays three_lines_two_segments !! 1 = Some [10; 11; 12]) by reflexivity.
  assert (Hlt : length (BingPolylineService.normalize_path
                          (MapPolylineProps.Path
                             (polyline_obj three_lines_two_segments 0))) < 3)
    by (vm_compute; lia).
  split; [exact Ha|]. split; [reflexivity|].
  exact (C8_UpdatePolyline_splices_one_early three_lines_two_segments 0 1 [10; 11; 12]
           Ha Hlt).
Defined.

(** The same through the service: [UpdatePolyline] on polyline 0, then
    one turn of the event loop. *)
Example update_polyline_deletes_a_kept_line :
  let w := run [Do_UpdatePolyline 0; Env_RunMicrotask] three_lines_two_segments in
  calls w = calls three_lines_two_segments ++
            [Polyline_SetPath 10 segment_a; Polyline_SetPath 11 segment_b;
             Polyline_Delete 11; Polyline_Delete 12] /\
  arrays w !! 1 = Some [10].
Proof. vm_compute. split; reflexivity. Qed.

(** C9. For "mousemove" and "rightclick" the polyline service returns the
    observable of a subject it has just made and never feeds. Subscribing to
    it completes normally and changes neither the handlers held by native
    objects, nor the log of calls, nor the microtask queue, nor any promise;
    and whatever run follows, the log of calls (every [next] on an observer
    included) and the handlers are what they would have been had nobody
    subscribed. For any other event name and a polyline with a lookup entry,
    a subscription leaves one reaction on the stored creation promise; when
    it runs it calls [AddListener] with the event name once on each native
    polyline (the one polyline, or every element of the array), and each of
    them holds the handler from then on. *)
Theorem C9_polyline_event_subscription :
  (forall (w : World) (eventName : string) (polyline : MapPolylineDirective)
          (observer : Observer),
     eventName = "mousemove" \/ eventName = "rightclick" ->
     let w' := step (Do_SubscribePolyline eventName polyline observer) w in
     (BingPolylineService.CreateEventObservable eventName polyline w).1
       = Normal (Subject_asObservable (next_subject w)) /\
     (perform (Do_SubscribePolyline eventName polyline observer) w).1 = Normal tt /\
     listeners w' = listeners w /\
     calls w' = calls w /\
     microtasks w' = microtasks w /\
     polyline_promises w' = polyline_promises w /\
     marker_promises w' = marker_promises w /\
     forall post,
       calls (run post w') = calls (run post w) /\
       listeners (run post w') = listeners (run post w)) /\
  (forall (w : World) (eventName : string) (polyline : MapPolylineDirective)
          (observer : Observer) (p : PromiseRef),
     eventName <> "mousemove" ->
     eventName <> "rightclick" ->
     _polylines w !! polyline = Some p ->
     let cb := PolylineEvent_then eventName observer in
     let fn := zone_run_next observer in
     let w' := step (Do_SubscribePolyline eventName polyline observer) w in
     (perform (Do_SubscribePolyline eventName polyline observer) w).1 = Normal tt /\
     calls w' = calls w /\
     listeners w' = listeners w /\
     (forall rs,
        polyline_promise_state w p = Pending rs ->
        polyline_promise_state w' p = Pending (rs ++ [cb]) /\
        microtasks w' = microtasks w) /\
     (forall v,
        polyline_promise_state w p = Fulfilled v ->
        microtasks w' = microtasks w ++ [PolylineJob cb v]) /\
     (forall w0 l,
        let w1 := exec (run_job (PolylineJob cb (OnePolyline l))) w0 in
        (run_job (PolylineJob cb (OnePolyline l)) w0).1 = Normal tt /\
        calls w1 = calls w0 ++ [Polyline_AddListener l eventName fn] /\
        listeners w1 = listeners w0 ++ [(NativePolyline l, eventName, fn)]) /\
     (forall w0 a arr,
        arrays w0 !! a = Some arr ->
        let w1 := exec (run_job (PolylineJob cb (PolylineArray a))) w0 in
        (run_job (PolylineJob cb (PolylineArray a)) w0).1 = Normal tt /\
        calls w1 = calls w0 ++
          map (fun line => Polyline_AddListener line eventName fn) arr /\
        listeners w1 = listeners w0 ++
          map (fun line => (NativePolyline line, eventName, fn)) arr)).
Proof.
  split.
  - intros w eventName polyline observer Hname w'. subst w'. unfold step, exec.
    rewrite perform_SubscribePolyline. cbv zeta.
    rewrite decide_True by exact Hname. cbn [fst snd].
    split.
    { unfold BingPolylineService.CreateEventObservable, new_Subject.
      unfold bind, gets, modify, ret. cbn [fst snd].
      destruct Hname as [->| ->]; reflexivity. }
    repeat (split; [reflexivity|]).
    intros post.
    match goal with
    | |- calls (run post ?w1) = _ /\ _ =>
        assert (S : same_but_subjects (run post w1) (run post w))
          by (apply run_blind; reflexivity)
    end.
    split.
    + exact (f_equal (fun x => calls x) S).
    + exact (f_equal (fun x => listeners x) S).
  - intros w eventName polyline observer p N1 N2 H cb fn w'. subst cb fn w'.
    unfold step, exec. rewrite perform_SubscribePolyline. cbv zeta.
    rewrite decide_False by (intros [?|?]; contradiction).
    unfold BingPolylineService.subscribe_fn, bind.
    rewrite (polylines_get_then_present polyline _ _ p) by exact H.
    cbn [fst snd ret].
    set (ws := set_subjects <[next_subject w := []]> (set_next_subject S w)).
    destruct (polyline_then_frame p (PolylineEvent_then eventName observer) ws)
      as (_ & Fc & _ & _ & Fl & _).
    split; [reflexivity|].
    split; [exact Fc|].
    split; [exact Fl|].
    split; [intros rs Hrs; exact (polyline_then_pending p _ ws rs Hrs)|].
    split; [intros v Hv; exact (proj1 (polyline_then_fulfilled p _ ws v Hv))|].
    split.
    + intros w0 l. cbn [run_job]. rewrite run_PolylineEvent_then. repeat split.
    + intros w0 a arr Ha. cbn [run_job]. rewrite run_PolylineEvent_then.
      unfold as_array. rewrite Ha. repeat split.
Qed.

(** Polyline 0 is an array of three native polylines. A subscriber to
    "mousemove" gets no listener anywhere; a subscriber to "click" gets one
    on each of the three. *)
Lemma C9_polyline_event_subscription_witness :
  listeners (step (Do_SubscribePolyline "mousemove" 0 9) three_lines_two_segments)
    = listeners three_lines_two_segments /\
  calls (run [Env_RunMicrotask; Env_Raise (NativePolyline 10) "mousemove" JsNull]
           (step (Do_SubscribePolyline "mousemove" 0 9) three_lines_two_segments))
    = calls (run [Env_RunMicrotask; Env_Raise (NativePolyline 10) "mousemove" JsNull]
               three_lines_two_segments) /\
  microtasks (step (Do_SubscribePolyline "click" 0 9) three_lines_two_segments)
    = microtasks three_lines_two_segments ++
      [PolylineJob (PolylineEvent_then "click" 9) (PolylineArray 1)] /\
  calls (exec (run_job (PolylineJob (PolylineEvent_then "click" 9) (PolylineArray 1)))
           three_lines_two_segments)
    = calls three_lines_two_segments ++
      [Polyline_AddListener 10 "click" (zone_run_next 9);
       Polyline_AddListener 11 "click" (zone_run_next 9);
       Polyline_AddListener 12 "click" (zone_run_next 9)] /\
  listeners (exec (run_job (PolylineJob (PolylineEvent_then "click" 9) (OnePolyline 10)))
               three_lines_two_segments)
    = listeners three_lines_two_segments ++
      [(NativePolyline 10, "click", zone_run_next 9)].
Proof.
  destruct C9_polyline_event_subscription as [A B].
  destruct (A three_lines_two_segments "mousemove" 0 9 (or_introl eq_refl))
    as (_ & _ & Hl & _ & _ & _ & _ & Hpost).
  assert (N1 : "click" <> "mousemove") by discriminate.
  assert (N2 : "click" <> "rightclick") by discriminate.
  assert (H : _polylines three_lines_two_segments !! 0 = Some 0) by reflexivity.
  destruct (B three_lines_two_segments "click" 0 9 0 N1 N2 H)
    as (_ & _ & _ & _ & Hq & Hone & Harr).
  split; [exact Hl|]. split; [apply Hpost|].
  split; [exact (Hq (PolylineArray 1) eq_refl)|]. split.
  - exact (proj1 (proj2 (Harr three_lines_two_segments 1 [10; 11; 12] eq_refl))).
  - exact (proj2 (proj2 (Hone three_lines_two_segments 10))).
Defined.

(** The "click" subscription from end to end on the three native polylines. *)
Example polyline_click_registers_on_each_line :
  calls (run [Do_SubscribePolyline "click" 0 9; Env_RunMicrotask]
           three_lines_two_segments)
  = calls three_lines_two_segments ++
    [Polyline_AddListener 10 "click" (zone_run_next 9);
     Polyline_AddListener 11 "click" (zone_run_next 9);
     Polyline_AddListener 12 "click" (zone_run_next 9)].
Proof. vm_compute. reflexivity. Qed.

(** C10. The marker service's [GetCoordinatesFromClick] returns null when
    the event is null, undefined or otherwise falsy, when it has no
    primitive, and when its primitive is not a pushpin; on an event whose
    primitive is a pushpin it returns the latitude and longitude of the
    pushpin's location. The polyline service's returns null when the event
    is null, undefined or otherwise falsy and when it has no location, and
    the latitude and longitude of the location otherwise. [GetPixelsFromClick]
    returns null whenever [GetCoordinatesFromClick] does for the same event,
    and whenever the map's translation of the location to a pixel returns
    null; otherwise it returns the translated point. *)
Theorem C10_click_coordinates :
  (forall e,
     e = JsNull \/ e = JsUndefined \/ e = JsFalsy \/
     (exists l, e = JsObject None l) \/ (exists l, e = JsObject (Some NotAPushpin) l) ->
     BingMarkerService.GetCoordinatesFromClick e = None) /\
  (forall loc l,
     BingMarkerService.GetCoordinatesFromClick (JsObject (Some (Pushpin loc)) l)
       = Some {| ILatLong.latitude := MsLocation.latitude loc;
                 ILatLong.longitude := MsLocation.longitude loc |}) /\
  (forall e,
     e = JsNull \/ e = JsUndefined \/ e = JsFalsy \/ (exists pr, e = JsObject pr None) ->
     BingPolylineService.GetCoordinatesFromClick e = None) /\
  (forall pr loc,
     BingPolylineService.GetCoordinatesFromClick (JsObject pr (Some loc))
       = Some {| ILatLong.latitude := MsLocation.latitude loc;
                 ILatLong.longitude := MsLocation.longitude loc |}) /\
  (forall TranslateLocation tryLocationToPixel e,
     BingMarkerService.GetCoordinatesFromClick e = None ->
     BingMarkerService.GetPixelsFromClick TranslateLocation tryLocationToPixel e = None) /\
  (forall TranslateLocation tryLocationToPixel e loc,
     BingMarkerService.GetCoordinatesFromClick e = Some loc ->
     tryLocationToPixel (TranslateLocation loc) = None ->
     BingMarkerService.GetPixelsFromClick TranslateLocation tryLocationToPixel e = None) /\
  (forall TranslateLocation tryLocationToPixel e loc p,
     BingMarkerService.GetCoordinatesFromClick e = Some loc ->
     tryLocationToPixel (TranslateLocation loc) = Some p ->
     BingMarkerService.GetPixelsFromClick TranslateLocation tryLocationToPixel e
       = Some {| IPoint.x := MsPoint.x p; IPoint.y := MsPoint.y p |}).
Proof.
  split; [|split; [|split; [|split; [|split; [|split]]]]].
  - intros e [->|[->|[->|[[l ->]|[l ->]]]]]; reflexivity.
  - reflexivity.
  - intros e [->|[->|[->|[pr ->]]]]; reflexivity.
  - reflexivity.
  - intros T tr e H. unfold BingMarkerService.GetPixelsFromClick. rewrite H. reflexivity.
  - intros T tr e loc H1 H2. unfold BingMarkerService.GetPixelsFromClick.
    rewrite H1, H2. reflexivity.
  - intros T tr e loc p H1 H2. unfold BingMarkerService.GetPixelsFromClick.
    rewrite H1, H2. reflexivity.
Qed.

(** A click on a polygon, which is a primitive but no pushpin: no
    coordinates, hence no pixels, whatever the map would translate. *)
Lemma C10_click_coordinates_witness :
  BingMarkerService.GetCoordinatesFromClick (JsObject (Some NotAPushpin) None) = None /\
  BingMarkerService.GetPixelsFromClick
    (fun l => {| MsLocation.latitude := ILatLong.latitude l;
                 MsLocation.longitude := ILatLong.longitude l |})
    (fun l => Some {| MsPoint.x := MsLocation.longitude l;
                      MsPoint.y := MsLocation.latitude l |})
    (JsObject (Some NotAPushpin) None) = None.
Proof.
  destruct C10_click_coordinates as (A & _ & _ & _ & B & _).
  assert (H : BingMarkerService.GetCoordinatesFromClick (JsObject (Some NotAPushpin) None)
              = None).
  { apply A. right. right. right. right. exists None. reflexivity. }
  split; [exact H|]. apply B. exact H.
Defined.


(** ** Properties beyond the claims *)

(** X1. Apart from [AddMarker] and [AddPolyline], no method of the two
    services that takes a marker or polyline handle calls anything on an
    external collaborator while it runs, even when the creation promise is
    already fulfilled: the log of calls, the handlers held by native objects
    and the stored arrays are as before when the method returns or throws.
    Whatever the method forwards is forwarded later, from a microtask. The
    methods are [DeleteMarker], [GetNativeMarker], [LocationToPoint], the
    five property updates, [UpdateIcon], [DeletePolyline],
    [GetNativePolyline], [SetOptions], [UpdatePolyline] and a subscription
    to an observable of either [CreateEventObservable]. The click queries
    take an event and no handle and are not among them:
    [GetPixelsFromClick] asks the map for the pixel at once. *)
Theorem X1_methods_defer_their_calls (a : Action) (w : World) :
  is_deferring_method a = true ->
  calls (step a w) = calls w /\
  listeners (step a w) = listeners w /\
  arrays (step a w) = arrays w.
Proof.
  intros H. unfold step, exec.
  split; [|split].
  - refine ((_ : keeps (fun w => calls w) (perform a)) w).
    destruct a; try discriminate H; cbn [perform]; keeps_all.
  - refine ((_ : keeps (fun w => listeners w) (perform a)) w).
    destruct a; try discriminate H; cbn [perform]; keeps_all.
  - refine ((_ : keeps (fun w => arrays w) (perform a)) w).
    destruct a; try discriminate H; cbn [perform]; keeps_all.
Qed.

(** Marker 0 exists as native marker 5, yet [UpdateTitle] calls nothing. *)
Lemma X1_methods_defer_their_calls_witness :
  is_deferring_method (Do_UpdateTitle 0) = true /\
  calls (step (Do_UpdateTitle 0) one_marker_created) = calls one_marker_created.
Proof.
  split; [reflexivity|].
  exact (proj1 (X1_methods_defer_their_calls (Do_UpdateTitle 0) one_marker_created
                  eq_refl)).
Defined.

(** An unguarded method on a marker: what [perform] comes to. *)
Lemma perform_markers_get_then (marker : MapMarker) (cb : MarkerCallback) (w : World) :
  (bind (BingMarkerService.markers_get_then marker cb) (fun _ => ret tt) w).1
    = match _markers w !! marker with
      | Some _ => Normal tt
      | None => Throw TypeError
      end.
Proof.
  unfold bind. destruct (_markers w !! marker) as [p|] eqn:H.
  - rewrite (markers_get_then_present _ _ _ _ H). reflexivity.
  - rewrite (markers_get_then_absent _ _ _ H). reflexivity.
Qed.

Lemma perform_polylines_get_then (polyline : MapPolylineDirective) (cb : PolylineCallback)
    (w : World) :
  (bind (BingPolylineService.polylines_get_then polyline cb) (fun _ => ret tt) w).1
    = match _polylines w !! polyline with
      | Some _ => Normal tt
      | None => Throw TypeError
      end.
Proof.
  unfold bind. destruct (_polylines w !! polyline) as [p|] eqn:H.
  - rewrite (polylines_get_then_present _ _ _ _ H). reflexivity.
  - rewrite (polylines_get_then_absent _ _ _ H). reflexivity.
Qed.

(** X2. A call of a service method that takes a marker or polyline handle
    ends in one of two ways. It throws a [TypeError] exactly when it is one
    of the methods that look the handle up without a guard (the marker
    updates, [LocationToPoint], [SetOptions], and a subscription to a marker
    event or to a polyline event other than "mousemove" and "rightclick")
    and the handle has no entry; in every other case it completes normally.
    The methods with a handle are the two that add, the two that delete,
    the two that return the native object, [LocationToPoint], the marker
    updates, [SetOptions], [UpdatePolyline] and a subscription to an
    observable of either [CreateEventObservable]. The click queries, which
    take an event and dereference what it carries, are not among them. *)
Theorem X2_service_call_throws_iff_unguarded_and_absent (a : Action) (w : World) :
  is_service_call a = true ->
  (lacks_needed_entry a w -> (perform a w).1 = Throw TypeError) /\
  (~ lacks_needed_entry a w -> (perform a w).1 = Normal tt).
Proof.
  intros Ha.
  destruct a; try discriminate Ha; cbn [perform]; unfold lacks_needed_entry;
    try (split; [intros H0; exact (False_ind _ H0) | intros _]);
    unfold BingMarkerService.LocationToPoint, BingMarkerService.UpdateAnchor,
      BingMarkerService.UpdateMarkerPosition, BingMarkerService.UpdateTitle,
      BingMarkerService.UpdateLabel, BingMarkerService.UpdateDraggable,
      BingMarkerService.UpdateIcon, BingPolylineService.SetOptions;
    try (rewrite perform_markers_get_then;
         destruct (_markers w !! marker); split; intros H;
         solve [reflexivity | discriminate H | exfalso; apply H; reflexivity]);
    try (rewrite perform_polylines_get_then;
         destruct (_polylines w !! polyline); split; intros H;
         solve [reflexivity | discriminate H | exfalso; apply H; reflexivity]).
  - apply AddMarker_effect.
  - change (bind (BingMarkerService.CreateEventObservable eventName marker)
              (fun o => subscribe o observer) w)
      with (bind (BingMarkerService.markers_get_then marker
                    (MarkerEvent_then eventName observer)) (fun _ => ret tt) w).
    rewrite perform_markers_get_then.
    destruct (_markers w !! marker); split; intros H;
      solve [reflexivity | discriminate H | exfalso; apply H; reflexivity].
  - unfold bind. destruct (_markers w !! marker) as [p|] eqn:H.
    + rewrite (DeleteMarker_present _ _ _ H). reflexivity.
    + rewrite (DeleteMarker_absent _ _ H). reflexivity.
  - reflexivity.
  - apply AddPolyline_effect.
  - change (bind (BingPolylineService.CreateEventObservable eventName polyline)
              (fun o => subscribe o observer))
      with (perform (Do_SubscribePolyline eventName polyline observer)).
    rewrite perform_SubscribePolyline. cbv zeta.
    destruct (decide (eventName = "mousemove" \/ eventName = "rightclick")) as [S|N].
    + split; [|reflexivity]. intros (N1 & N2 & _). destruct S; contradiction.
    + unfold BingPolylineService.subscribe_fn. rewrite perform_polylines_get_then.
      cbn. destruct (_polylines w !! polyline); split; intros H.
      * destruct H as (_ & _ & H). discriminate H.
      * reflexivity.
      * reflexivity.
      * exfalso. apply H. split; [|split]; [tauto | tauto | reflexivity].
  - unfold bind. destruct (_polylines w !! polyline) as [p|] eqn:H.
    + rewrite (DeletePolyline_present _ _ _ H). reflexivity.
    + rewrite (DeletePolyline_absent _ _ H). reflexivity.
  - reflexivity.
  - unfold bind. destruct (_polylines w !! polyline) as [p|] eqn:H.
    + rewrite (UpdatePolyline_present _ _ _ H). reflexivity.
    + rewrite (UpdatePolyline_absent _ _ H). reflexivity.
Qed.

(** What [AddMarker] leaves on the promise it stored. *)
Lemma AddMarker_reactions (w : World) (marker : MapMarker) :
  marker_promise_state (exec (BingMarkerService.AddMarker marker) w) (next_ref w)
    = Pending match MapMarkerProps.IconInfo (marker_obj w marker) with
              | Some _ =>
                  [AddMarker_then marker
                     (BingMarkerService.options_of (marker_obj w marker))]
              | None => []
              end /\
  microtasks (exec (BingMarkerService.AddMarker marker) w) = microtasks w.
Proof.
  unfold exec, BingMarkerService.AddMarker, bind, gets.
  destruct (MapMarkerProps.InClusterLayer (marker_obj w marker)),
    (MapMarkerProps.InCustomLayer (marker_obj w marker)),
    (MapMarkerProps.IconInfo (marker_obj w marker)); cbn;
    unfold marker_promise_state; cbn; rewrite ?lookup_insert_eq; cbn;
    rewrite ?lookup_insert_eq; split; reflexivity.
Qed.

(** [SetOptions] on the services as constructed throws; [UpdatePolyline],
    which has a guard, does not. *)
Lemma X2_service_call_throws_iff_unguarded_and_absent_witness :
  (perform (Do_SetOptions 0 (BingPolylineService.options_of unset_polyline))
     initial_world).1 = Throw TypeError /\
  (perform (Do_UpdatePolyline 0) initial_world).1 = Normal tt.
Proof.
  split.
  - apply (X2_service_call_throws_iff_unguarded_and_absent
             (Do_SetOptions 0 (BingPolylineService.options_of unset_polyline))
             initial_world eq_refl).
    reflexivity.
  - apply (X2_service_call_throws_iff_unguarded_and_absent
             (Do_UpdatePolyline 0) initial_world eq_refl).
    intros H. exact H.
Defined.

(** X3. On a marker with a lookup entry, [LocationToPoint] leaves one
    reaction on the stored creation promise and calls nothing; when the
    reaction runs with the native marker it makes exactly one call, the map
    service's [LocationToPoint] on that native marker's location, and
    changes nothing else. *)
Theorem X3_LocationToPoint_forwards_to_map_service (w : World) (marker : MapMarker)
    (p : PromiseRef) :
  _markers w !! marker = Some p ->
  BingMarkerService.LocationToPoint marker w
    = (Normal (marker_then_promise p LocationToPoint_then),
       exec (marker_then p LocationToPoint_then) w) /\
  calls (exec (marker_then p LocationToPoint_then) w) = calls w /\
  (forall m,
     marker_promise_state w p = Fulfilled m ->
     microtasks (exec (marker_then p LocationToPoint_then) w)
       = microtasks w ++ [MarkerJob LocationToPoint_then m]) /\
  (forall w0 m,
     run_job (MarkerJob LocationToPoint_then m) w0
       = (Normal tt, log [MapService_LocationToPoint_Location m] w0)).
Proof.
  intros H. split; [|split; [|split]].
  - apply markers_get_then_present, H.
  - apply marker_then_frame.
  - intros m Hm. apply (marker_then_fulfilled _ _ _ _ Hm).
  - reflexivity.
Qed.

Lemma X3_LocationToPoint_forwards_to_map_service_witness :
  _markers one_marker_created !! 0 = Some 0 /\
  microtasks (exec (marker_then 0 LocationToPoint_then) one_marker_created)
    = [MarkerJob LocationToPoint_then 5].
Proof.
  assert (H : _markers one_marker_created !! 0 = Some 0) by reflexivity.
  split; [exact H|].
  exact (proj1 (proj2 (proj2
           (X3_LocationToPoint_forwards_to_map_service one_marker_created 0 0 H)))
           5 eq_refl).
Defined.

(** X4. On a marker with a lookup entry, [UpdateIcon] leaves one reaction
    on the stored creation promise. When it runs it looks at the marker's
    icon description as it is then: with one, it sets the icon translated
    from an options object holding only the current position and that
    description, and then fires the marker's [DynamicMarkerCreated] hook
    with it; without one, it sets the icon to the marker's [IconUrl] and
    fires nothing. *)
Theorem X4_UpdateIcon_by_icon_description (w : World) (marker : MapMarker)
    (p : PromiseRef) :
  _markers w !! marker = Some p ->
  BingMarkerService.UpdateIcon marker w
    = (Normal (marker_then_promise p (UpdateIcon_then marker)),
       exec (marker_then p (UpdateIcon_then marker)) w) /\
  (forall w0 m,
     run_job (MarkerJob (UpdateIcon_then marker) m) w0
       = (Normal tt, log (icon_calls marker m (marker_obj w0 marker)) w0)).
Proof.
  intros H. split.
  - apply markers_get_then_present, H.
  - intros w0 m. unfold icon_calls. cbn [run_job BingMarkerService.run_callback].
    unfold bind at 1, gets at 1.
    destruct (MapMarkerProps.IconInfo (marker_obj w0 marker)) as [r|].
    + unfold bind. rewrite !call_log, log_app. reflexivity.
    + reflexivity.
Qed.

(** Marker 0 has no icon description: its icon becomes "pin.png". *)
Lemma X4_UpdateIcon_by_icon_description_witness :
  _markers one_marker_created !! 0 = Some 0 /\
  run_job (MarkerJob (UpdateIcon_then 0) 5) one_marker_created
    = (Normal tt, log [Marker_SetIcon 5 (IconUrl_arg "pin.png")] one_marker_created).
Proof.
  assert (H : _markers one_marker_created !! 0 = Some 0) by reflexivity.
  split; [exact H|].
  exact (proj2 (X4_UpdateIcon_by_icon_description one_marker_created 0 0 H)
           one_marker_created 5).
Defined.

(** X5. [AddMarker] leaves a reaction on the promise of the creation call
    exactly when the marker has an icon description at that moment, and
    queues nothing. When that reaction runs with the native marker it
    completes normally: it fires the marker's [DynamicMarkerCreated] hook
    with the description and then anchors the native marker, at the icon's
    size scaled by its offset ratio as the description holds them when the
    reaction runs, and at (0, 0) when either is missing. *)
Theorem X5_AddMarker_icon_hook :
  (forall w marker,
     marker_promise_state (exec (BingMarkerService.AddMarker marker) w) (next_ref w)
       = Pending match MapMarkerProps.IconInfo (marker_obj w marker) with
                 | Some _ =>
                     [AddMarker_then marker
                        (BingMarkerService.options_of (marker_obj w marker))]
                 | None => []
                 end /\
     microtasks (exec (BingMarkerService.AddMarker marker) w) = microtasks w) /\
  (forall w marker r w0 m,
     MapMarkerProps.IconInfo (marker_obj w marker) = Some r ->
     run_job (MarkerJob (AddMarker_then marker
                           (BingMarkerService.options_of (marker_obj w marker))) m) w0
       = (Normal tt,
          log [DynamicMarkerCreated_emit marker (Some r);
               Marker_SetAnchor m
                 (Some (BingMarkerService.icon_anchor (iconinfo_obj w0 r)))] w0)) /\
  (forall info,
     IMarkerIconInfo.size info = None \/ IMarkerIconInfo.markerOffsetRatio info = None ->
     BingMarkerService.icon_anchor info = {| IPoint.x := 0%float; IPoint.y := 0%float |}) /\
  (forall size ratio,
     BingMarkerService.icon_anchor
       {| IMarkerIconInfo.size := Some size;
          IMarkerIconInfo.markerOffsetRatio := Some ratio |}
     = {| IPoint.x := PrimFloat.mul (ISize.width size) (IPoint.x ratio);
          IPoint.y := PrimFloat.mul (ISize.height size) (IPoint.y ratio) |}).
Proof.
  split; [|split; [|split]].
  - apply AddMarker_reactions.
  - intros w marker r w0 m H. cbn [run_job BingMarkerService.run_callback].
    unfold BingMarkerService.options_of at 1 2. cbn [IMarkerOptions.iconInfo].
    rewrite H. unfold bind, gets. rewrite !call_log, log_app. reflexivity.
  - intros [[s|] [r|]] [H|H]; cbn in H; try discriminate H; reflexivity.
  - reflexivity.
Qed.

(** The clustered marker with its 32 by 32 icon is anchored at (16, 32). *)
Lemma X5_AddMarker_icon_hook_witness :
  run_job (MarkerJob (AddMarker_then 0 (BingMarkerService.options_of clustered_icon_marker))
             5)
      (run [Env_SetMarker 0 clustered_icon_marker; Env_SetIconInfo 0 pin_icon]
         initial_world)
    = (Normal tt,
       log [DynamicMarkerCreated_emit 0 (Some 0);
            Marker_SetAnchor 5 (Some {| IPoint.x := 16%float; IPoint.y := 32%float |})]
         (run [Env_SetMarker 0 clustered_icon_marker; Env_SetIconInfo 0 pin_icon]
            initial_world)).
Proof.
  exact (proj1 (proj2 X5_AddMarker_icon_hook)
           (run [Env_SetMarker 0 clustered_icon_marker; Env_SetIconInfo 0 pin_icon]
              initial_world)
           0 0
           (run [Env_SetMarker 0 clustered_icon_marker; Env_SetIconInfo 0 pin_icon]
              initial_world)
           5 eq_refl).
Defined.

(** X6. The options object [AddMarker] builds carries a width (a height)
    exactly when the marker's width (height) is a number that is truthy, and
    then that very number: an undefined, zero or NaN width is left out of
    the options rather than passed on. *)
Theorem X6_options_leave_out_falsy_size (mk : MapMarkerProps.t) :
  (forall n,
     IMarkerOptions.width (BingMarkerService.options_of mk) = Some n <->
     MapMarkerProps.Width mk = Some n /\ number_truthy n = true) /\
  (forall n,
     IMarkerOptions.height (BingMarkerService.options_of mk) = Some n <->
     MapMarkerProps.Height mk = Some n /\ number_truthy n = true) /\
  (MapMarkerProps.Width mk = Some 0%float \/ MapMarkerProps.Width mk = Some PrimFloat.nan ->
   IMarkerOptions.width (BingMarkerService.options_of mk) = None).
Proof.
  unfold BingMarkerService.options_of. cbn [IMarkerOptions.width IMarkerOptions.height].
  split; [|split].
  - intros n. destruct (MapMarkerProps.Width mk) as [x|]; cbn [opt_number_truthy].
    + destruct (number_truthy x) eqn:T; split.
      * intros [= ->]. split; [reflexivity | exact T].
      * intros [E _]. exact E.
      * discriminate.
      * intros [[= ->] T']. congruence.
    + split; [discriminate | intros [E _]; discriminate E].
  - intros n. destruct (MapMarkerProps.Height mk) as [x|]; cbn [opt_number_truthy].
    + destruct (number_truthy x) eqn:T; split.
      * intros [= ->]. split; [reflexivity | exact T].
      * intros [E _]. exact E.
      * discriminate.
      * intros [[= ->] T']. congruence.
    + split; [discriminate | intros [E _]; discriminate E].
  - intros [-> | ->]; reflexivity.
Qed.



(** X8. When the entry of a polyline is a single native polyline, the
    reaction of [UpdatePolyline] makes exactly one call: [SetPath] with the
    path itself when it is a flat list of points (the empty path included),
    and with the first segment alone when it is a list of segments; the
    other segments are dropped without a call. *)
Theorem X8_UpdatePolyline_single_line (w : World) (polyline : MapPolylineDirective)
    (l : Polyline) :
  run_job (PolylineJob (UpdatePolyline_then polyline) (OnePolyline l)) w
    = (Normal tt,
       log [Polyline_SetPath l
              match MapPolylineProps.Path (polyline_obj w polyline) with
              | SimplePath points => points
              | ComplexPath [] => []
              | ComplexPath (first :: _) => first
              end] w).
Proof.
  cbn [run_job]. rewrite run_UpdatePolyline_then_one.
  destruct (MapPolylineProps.Path (polyline_obj w polyline)) as [pts|[|s rest]];
    reflexivity.
Qed.

Lemma zip_with_SetPath_all (arr : list Polyline) (p : list (list ILatLong.t)) :
  forallb is_SetPath (zip_with Polyline_SetPath arr p) = true.
Proof.
  revert p. induction arr as [|line arr IH]; intros [|seg p]; cbn; auto.
Qed.

(** X9. When the entry is an array of native polylines that is not longer
    than the list of path segments, the reaction of [UpdatePolyline] gives
    every native polyline the segment at its own index with one [SetPath]
    each, in order, deletes nothing and leaves the stored array as it is;
    segments beyond the last native polyline get no call. *)
Theorem X9_UpdatePolyline_array_not_longer (w : World) (polyline : MapPolylineDirective)
    (a : ArrayRef) (arr : list Polyline) :
  arrays w !! a = Some arr ->
  let p := BingPolylineService.normalize_path
             (MapPolylineProps.Path (polyline_obj w polyline)) in
  length arr <= length p ->
  run_job (PolylineJob (UpdatePolyline_then polyline) (PolylineArray a)) w
    = (Normal tt, log (zip_with Polyline_SetPath arr p) w) /\
  length (zip_with Polyline_SetPath arr p) = length arr /\
  (forall i line,
     arr !! i = Some line ->
     exists segment,
       p !! i = Some segment /\
       zip_with Polyline_SetPath arr p !! i = Some (Polyline_SetPath line segment)).
Proof.
  intros Ha p Hle. split; [|split].
  - cbn [run_job]. rewrite (run_UpdatePolyline_then_array polyline a arr w Ha). fold p.
    rewrite decide_False by lia. reflexivity.
  - rewrite length_zip_with. lia.
  - intros i line Hi.
    assert (Hlt : i < length p) by (apply lookup_lt_Some in Hi; lia).
    destruct (lookup_lt_is_Some_2 p i Hlt) as [segment Hs].
    exists segment. split; [exact Hs|].
    rewrite lookup_zip_with, Hi, Hs. reflexivity.
Qed.

(** Three native polylines and a path that still has its three segments. *)
Lemma X9_UpdatePolyline_array_not_longer_witness :
  run_job (PolylineJob (UpdatePolyline_then 0) (PolylineArray 1))
      (run [Env_SetPolyline 0
              (polyline_with_path (ComplexPath [segment_a; segment_b; segment_c]))]
         three_lines_two_segments)
    = (Normal tt,
       log [Polyline_SetPath 10 segment_a; Polyline_SetPath 11 segment_b;
            Polyline_SetPath 12 segment_c]
         (run [Env_SetPolyline 0
                 (polyline_with_path (ComplexPath [segment_a; segment_b; segment_c]))]
            three_lines_two_segments)).
Proof.
  refine (proj1 (X9_UpdatePolyline_array_not_longer
                   (run [Env_SetPolyline 0
                           (polyline_with_path
                              (ComplexPath [segment_a; segment_b; segment_c]))]
                      three_lines_two_segments)
                   0 1 [10; 11; 12] eq_refl _)).
  vm_compute. lia.
Defined.

(** X10. Whatever the path, the reaction of [UpdatePolyline] followed by
    the reaction of [DeletePolyline] on the same array deletes every native
    polyline the array held exactly once: the polylines [UpdatePolyline]
    takes out of the array are the ones it deletes, and [DeletePolyline]
    deletes the ones that are left. Besides the deletions, the two make
    [SetPath] calls only. *)
Theorem X10_update_then_delete_deletes_each_line_once (w : World)
    (polyline : MapPolylineDirective) (a : ArrayRef) (arr : list Polyline) :
  arrays w !! a = Some arr ->
  let w1 := exec (run_job (PolylineJob (UpdatePolyline_then polyline) (PolylineArray a)))
              w in
  let w2 := exec (run_job (PolylineJob (DeletePolyline_then polyline) (PolylineArray a)))
              w1 in
  exists paths deleted,
    calls w2 = calls w ++ paths ++ map Polyline_Delete deleted /\
    forallb is_SetPath paths = true /\
    deleted ≡ₚ arr.
Proof.
  intros Ha w1 w2. subst w1 w2. unfold exec. cbn [run_job].
  rewrite (run_UpdatePolyline_then_array polyline a arr w Ha).
  set (p := BingPolylineService.normalize_path
              (MapPolylineProps.Path (polyline_obj w polyline))).
  cbn [snd]. rewrite run_DeletePolyline_then. cbn [snd].
  exists (zip_with Polyline_SetPath arr p).
  destruct (decide (length p < length arr)) as [Hlt|Hge].
  - exists (drop (length p - 1) arr ++ take (length p - 1) arr).
    split; [|split].
    + unfold as_array. cbn. rewrite lookup_insert_eq. cbn.
      rewrite map_app, <- !app_assoc. reflexivity.
    + apply zip_with_SetPath_all.
    + rewrite Permutation_app_comm. rewrite take_drop. reflexivity.
  - exists arr. split; [|split].
    + unfold as_array. cbn. rewrite Ha. cbn. rewrite <- app_assoc. reflexivity.
    + apply zip_with_SetPath_all.
    + reflexivity.
Qed.

Lemma X10_update_then_delete_deletes_each_line_once_witness :
  calls (exec (run_job (PolylineJob (DeletePolyline_then 0) (PolylineArray 1)))
           (exec (run_job (PolylineJob (UpdatePolyline_then 0) (PolylineArray 1)))
              three_lines_two_segments))
    = calls three_lines_two_segments ++
      [Polyline_SetPath 10 segment_a; Polyline_SetPath 11 segment_b;
       Polyline_Delete 11; Polyline_Delete 12; Polyline_Delete 10] /\
  exists paths deleted,
    calls (exec (run_job (PolylineJob (DeletePolyline_then 0) (PolylineArray 1)))
             (exec (run_job (PolylineJob (UpdatePolyline_then 0) (PolylineArray 1)))
                three_lines_two_segments))
      = calls three_lines_two_segments ++ paths ++ map Polyline_Delete deleted /\
    forallb is_SetPath paths = true /\
    deleted ≡ₚ [10; 11; 12].
Proof.
  split; [reflexivity|].
  exact (X10_update_then_delete_deletes_each_line_once three_lines_two_segments 0 1
           [10; 11; 12] eq_refl).
Defined.

(** A marker that has a width but a height of zero: only the width is
    passed on. *)
Lemma X6_options_leave_out_falsy_size_witness :
  IMarkerOptions.width (BingMarkerService.options_of (titled_marker "old"))
    = Some 24%float /\
  IMarkerOptions.height (BingMarkerService.options_of (titled_marker "old")) = None.
Proof.
  split.
  - apply (proj1 (X6_options_leave_out_falsy_size (titled_marker "old"))).
    split; reflexivity.
  - reflexivity.
Defined.

(** *** Reactions in the order of the calls *)

Lemma marker_then_fulfilled_world (p : PromiseRef) (cb : MarkerCallback) (m : Marker)
    (w : World) :
  marker_promise_state w p = Fulfilled m ->
  exec (marker_then p cb) w = set_microtasks (fun q => q ++ [MarkerJob cb m]) w.
Proof. intros H. unfold exec, marker_then, bind, gets. rewrite H. reflexivity. Qed.

Lemma marker_then_pending_world (p : PromiseRef) (cb : MarkerCallback)
    (rs : list MarkerCallback) (w : World) :
  marker_promise_state w p = Pending rs ->
  exec (marker_then p cb) w = set_marker_promises <[p := Pending (rs ++ [cb])]> w.
Proof. intros H. unfold exec, marker_then, bind, gets. rewrite H. reflexivity. Qed.

Lemma marker_then_rejected_world (p : PromiseRef) (cb : MarkerCallback) (w : World) :
  marker_promise_state w p = Rejected ->
  exec (marker_then p cb) w = w.
Proof. intros H. unfold exec, marker_then, bind, gets. rewrite H. reflexivity. Qed.

Lemma fulfil_marker_world (p : PromiseRef) (m : Marker) (rs : list MarkerCallback)
    (w : World) :
  marker_promise_state w p = Pending rs ->
  exec (fulfil_marker p m) w
    = set_microtasks (fun q => q ++ map (fun cb => MarkerJob cb m) rs)
        (set_marker_promises <[p := Fulfilled m]> w).
Proof. intros H. unfold exec, fulfil_marker, bind, gets. rewrite H. reflexivity. Qed.

Lemma marker_then_lookup (p : PromiseRef) (cb : MarkerCallback) (w : World)
    (marker : MapMarker) :
  _markers (exec (marker_then p cb) w) !! marker = _markers w !! marker.
Proof. destruct (marker_then_frame p cb w) as (_ & _ & -> & _). reflexivity. Qed.

Lemma step_update_action (u : MarkerUpdate) (marker : MapMarker) (p : PromiseRef)
    (w : World) :
  _markers w !! marker = Some p ->
  step (update_action u marker) w = exec (marker_then p (update_then u marker)) w.
Proof.
  intros H. unfold step, exec at 1.
  destruct u; cbn [update_action perform update_then]; unfold bind;
    unfold BingMarkerService.UpdateAnchor, BingMarkerService.UpdateMarkerPosition,
      BingMarkerService.UpdateTitle, BingMarkerService.UpdateLabel,
      BingMarkerService.UpdateDraggable;
    rewrite (markers_get_then_present _ _ _ _ H); reflexivity.
Qed.

Lemma step_DeleteMarker (marker : MapMarker) (p : PromiseRef) (w : World) :
  _markers w !! marker = Some p ->
  step (Do_DeleteMarker marker) w = exec (marker_then p (DeleteMarker_then marker)) w.
Proof.
  intros H. unfold step, exec at 1. cbn [perform]. unfold bind.
  rewrite (DeleteMarker_present _ _ _ H). reflexivity.
Qed.

Lemma run_job_keeps_microtasks (j : Job) : keeps (fun w => microtasks w) (run_job j).
Proof. destruct j as [cb m|cb v]; destruct cb; cbn [run_job]; keeps_all. Qed.

Lemma step_run_microtask (j : Job) (rest : list Job) (w : World) :
  microtasks w = j :: rest ->
  step Env_RunMicrotask w = exec (run_job j) (set_microtasks (fun _ => rest) w) /\
  microtasks (step Env_RunMicrotask w) = rest.
Proof.
  intros H. unfold step, exec. cbn [perform].
  rewrite (run_microtask_head _ _ _ H). split; [reflexivity|].
  exact (run_job_keeps_microtasks j (set_microtasks (fun _ => rest) w)).
Qed.

(** Two queued jobs run one after the other. *)
Lemma run_two_microtasks (j1 j2 : Job) (w : World) :
  microtasks w = [j1; j2] ->
  run [Env_RunMicrotask; Env_RunMicrotask] w
    = exec (run_job j2)
        (set_microtasks (fun _ => [])
           (exec (run_job j1) (set_microtasks (fun _ => [j2]) w))).
Proof.
  intros H. change (run [Env_RunMicrotask; Env_RunMicrotask] w)
    with (step Env_RunMicrotask (step Env_RunMicrotask w)).
  destruct (step_run_microtask j1 [j2] w H) as [E1 Q1].
  destruct (step_run_microtask j2 [] _ Q1) as [E2 _].
  rewrite E2, E1. reflexivity.
Qed.

Lemma run_job_keeps_marker_obj (j : Job) : keeps (fun w => marker_obj w) (run_job j).
Proof. destruct j as [cb m|cb v]; destruct cb; cbn [run_job]; keeps_all. Qed.

Lemma run_app (l1 l2 : list Action) (w : World) :
  run (l1 ++ l2) w = run l2 (run l1 w).
Proof. apply foldl_app. Qed.

(** Running as many microtasks as there are jobs ahead in the queue leaves
    exactly the jobs behind them, and no job changes a marker's properties. *)
Lemma run_jobs_ahead (ahead rest : list Job) (w : World) :
  microtasks w = ahead ++ rest ->
  microtasks (run (replicate (length ahead) Env_RunMicrotask) w) = rest /\
  marker_obj (run (replicate (length ahead) Env_RunMicrotask) w) = marker_obj w.
Proof.
  revert w. induction ahead as [|j ahead IH]; intros w H.
  - split; [exact H | reflexivity].
  - change (run (replicate (length (j :: ahead)) Env_RunMicrotask) w)
      with (run (replicate (length ahead) Env_RunMicrotask) (step Env_RunMicrotask w)).
    destruct (step_run_microtask j (ahead ++ rest) w H) as [E Q].
    destruct (IH _ Q) as [IH1 IH2]. split; [exact IH1|].
    rewrite IH2, E. unfold exec.
    exact (run_job_keeps_marker_obj j (set_microtasks (fun _ => ahead ++ rest) w)).
Qed.

(** Two reactions left on the same promise end up queued in the order
    they were left, behind everything that was waiting before them, whether
    the promise was fulfilled before or after. *)
Lemma two_reactions_fulfilled (p : PromiseRef) (m : Marker) (cb1 cb2 : MarkerCallback)
    (w : World) :
  marker_promise_state w p = Fulfilled m ->
  let w2 := exec (marker_then p cb2) (exec (marker_then p cb1) w) in
  microtasks w2 = microtasks w ++ [MarkerJob cb1 m; MarkerJob cb2 m] /\
  marker_obj w2 = marker_obj w.
Proof.
  intros Hs. cbv zeta. rewrite (marker_then_fulfilled_world p cb1 m w Hs).
  rewrite (marker_then_fulfilled_world p cb2 m) by exact Hs.
  cbn. rewrite <- app_assoc. split; reflexivity.
Qed.

Lemma two_reactions_pending (p : PromiseRef) (m : Marker) (cb1 cb2 : MarkerCallback)
    (rs : list MarkerCallback) (w : World) :
  marker_promise_state w p = Pending rs ->
  let w2 := exec (fulfil_marker p m)
              (exec (marker_then p cb2) (exec (marker_then p cb1) w)) in
  microtasks w2
    = (microtasks w ++ map (fun cb => MarkerJob cb m) rs)
      ++ [MarkerJob cb1 m; MarkerJob cb2 m] /\
  marker_obj w2 = marker_obj w.
Proof.
  intros Hs. cbv zeta. rewrite (marker_then_pending_world p cb1 rs w Hs).
  rewrite (marker_then_pending_world p cb2 (rs ++ [cb1])).
  2: { unfold marker_promise_state. cbn. rewrite lookup_insert_eq. reflexivity. }
  rewrite (fulfil_marker_world p m ((rs ++ [cb1]) ++ [cb2])).
  2: { unfold marker_promise_state. cbn. rewrite lookup_insert_eq. reflexivity. }
  cbn. split; [|reflexivity].
  rewrite !map_app, <- !app_assoc. reflexivity.
Qed.

(** Once the jobs ahead of them have run, the two reactions are the next
    two microtasks, and the marker's properties are as they were. *)
Lemma two_reactions_are_next (ahead : list Job) (j1 j2 : Job) (w2 : World) :
  microtasks w2 = ahead ++ [j1; j2] ->
  let w3 := run (replicate (length ahead) Env_RunMicrotask) w2 in
  microtasks w3 = [j1; j2] /\
  marker_obj w3 = marker_obj w2 /\
  run [Env_RunMicrotask; Env_RunMicrotask] w3
    = exec (run_job j2)
        (set_microtasks (fun _ => [])
           (exec (run_job j1) (set_microtasks (fun _ => [j2]) w3))).
Proof.
  intros H. cbv zeta. destruct (run_jobs_ahead ahead [j1; j2] w2 H) as [Q O].
  split; [exact Q|]. split; [exact O|]. exact (run_two_microtasks j1 j2 _ Q).
Qed.

Lemma two_updates_run (u1 u2 : MarkerUpdate) (marker : MapMarker) (m : Marker)
    (w3 : World) :
  calls (exec (run_job (MarkerJob (update_then u2 marker) m))
           (set_microtasks (fun _ => [])
              (exec (run_job (MarkerJob (update_then u1 marker) m))
                 (set_microtasks (fun _ => [MarkerJob (update_then u2 marker) m]) w3))))
    = calls w3 ++ [mutator_call u1 m (marker_obj w3 marker);
                   mutator_call u2 m (marker_obj w3 marker)].
Proof.
  unfold exec. cbn [run_job]. rewrite !run_update_then. cbn.
  rewrite <- app_assoc. reflexivity.
Qed.

(** X11. Two property updates called one after the other on a marker take
    effect in the order of the calls, each with exactly one mutator call on
    the native marker and nothing in between. The two calls themselves call
    nothing. Whatever reactions were waiting before the calls, in the
    microtask queue or on the creation promise (the icon hook of
    [AddMarker], say), run first; the two reactions of the updates are then
    the next two microtasks, and running them adds the first update's
    mutator call and then the second's to the log, with the properties of
    the marker, which no reaction changes. This holds when the creation
    promise is already fulfilled at the calls and when it is fulfilled only
    afterwards. On a rejected creation promise the two calls leave nothing
    behind. *)
Theorem X11_updates_apply_in_call_order (u1 u2 : MarkerUpdate) (w : World)
    (marker : MapMarker) (p : PromiseRef) (m : Marker) :
  _markers w !! marker = Some p ->
  calls (run [update_action u1 marker; update_action u2 marker] w) = calls w /\
  (marker_promise_state w p = Fulfilled m ->
   let w3 := run ([update_action u1 marker; update_action u2 marker]
                  ++ replicate (length (microtasks w)) Env_RunMicrotask) w in
   microtasks w3 = [MarkerJob (update_then u1 marker) m;
                    MarkerJob (update_then u2 marker) m] /\
   calls (run [Env_RunMicrotask; Env_RunMicrotask] w3)
     = calls w3 ++ [mutator_call u1 m (marker_obj w marker);
                    mutator_call u2 m (marker_obj w marker)]) /\
  (forall rs, marker_promise_state w p = Pending rs ->
   let w3 := run ([update_action u1 marker; update_action u2 marker;
                   Env_FulfilMarker p m]
                  ++ replicate (length (microtasks w) + length rs) Env_RunMicrotask) w in
   microtasks w3 = [MarkerJob (update_then u1 marker) m;
                    MarkerJob (update_then u2 marker) m] /\
   calls (run [Env_RunMicrotask; Env_RunMicrotask] w3)
     = calls w3 ++ [mutator_call u1 m (marker_obj w marker);
                    mutator_call u2 m (marker_obj w marker)]) /\
  (marker_promise_state w p = Rejected ->
   run [update_action u1 marker; update_action u2 marker] w = w).
Proof.
  intros H.
  assert (S2 : step (update_action u2 marker) (step (update_action u1 marker) w)
               = exec (marker_then p (update_then u2 marker))
                   (exec (marker_then p (update_then u1 marker)) w)).
  { rewrite (step_update_action u1 marker p w H).
    rewrite (step_update_action u2 marker p) by (rewrite marker_then_lookup; exact H).
    reflexivity. }
  split; [|split; [|split]].
  - change (run [update_action u1 marker; update_action u2 marker] w)
      with (step (update_action u2 marker) (step (update_action u1 marker) w)).
    rewrite S2.
    destruct (marker_then_frame p (update_then u2 marker)
                (exec (marker_then p (update_then u1 marker)) w)) as (_ & -> & _).
    destruct (marker_then_frame p (update_then u1 marker) w) as (_ & -> & _).
    reflexivity.
  - intros Hs. cbv zeta. rewrite run_app.
    change (run [update_action u1 marker; update_action u2 marker] w)
      with (step (update_action u2 marker) (step (update_action u1 marker) w)).
    rewrite S2.
    destruct (two_reactions_fulfilled p m (update_then u1 marker) (update_then u2 marker)
                w Hs) as [Q O].
    destruct (two_reactions_are_next _ _ _ _ Q) as (Q3 & O3 & R).
    split; [exact Q3|]. rewrite R, two_updates_run, O3, O. reflexivity.
  - intros rs Hs. cbv zeta. rewrite run_app.
    change (run [update_action u1 marker; update_action u2 marker;
                 Env_FulfilMarker p m] w)
      with (exec (fulfil_marker p m)
              (step (update_action u2 marker) (step (update_action u1 marker) w))).
    rewrite S2.
    destruct (two_reactions_pending p m (update_then u1 marker) (update_then u2 marker)
                rs w Hs) as [Q O].
    replace (length (microtasks w) + length rs)
      with (length (microtasks w ++ map (fun cb => MarkerJob cb m) rs))
      by (rewrite length_app, length_map; reflexivity).
    destruct (two_reactions_are_next _ _ _ _ Q) as (Q3 & O3 & R).
    split; [exact Q3|]. rewrite R, two_updates_run, O3, O. reflexivity.
  - intros Hs.
    change (run [update_action u1 marker; update_action u2 marker] w)
      with (step (update_action u2 marker) (step (update_action u1 marker) w)).
    rewrite S2. rewrite (marker_then_rejected_world p _ w Hs).
    exact (marker_then_rejected_world p _ w Hs).
Qed.

(** Title, then label, on the marker that exists as native marker 5; and
    on a marker with an icon that is created only after the two calls: the
    icon hook that [AddMarker] left runs first, the two updates follow. *)
Lemma X11_updates_apply_in_call_order_witness :
  calls (run [Do_UpdateTitle 0; Do_UpdateLabel 0; Env_RunMicrotask; Env_RunMicrotask]
           one_marker_created)
    = calls one_marker_created ++ [Marker_SetTitle 5 "old"; Marker_SetLabel 5 "A"] /\
  calls (run [Env_SetMarker 0 clustered_icon_marker; Env_SetIconInfo 0 pin_icon;
              Do_AddMarker 0;
              Do_UpdateTitle 0; Do_UpdateLabel 0; Env_FulfilMarker 0 5;
              Env_RunMicrotask; Env_RunMicrotask; Env_RunMicrotask] initial_world)
    = [ClusterService_CreateMarker 3%float (marker_options_from clustered_icon_marker) 0;
       DynamicMarkerCreated_emit 0 (Some 0);
       Marker_SetAnchor 5 (Some {| IPoint.x := 16%float; IPoint.y := 32%float |});
       Marker_SetTitle 5 "depot"; Marker_SetLabel 5 "D"].
Proof.
  split.
  - exact (proj2 (proj1 (proj2 (X11_updates_apply_in_call_order Title_update Label_update
                                  one_marker_created 0 0 5 eq_refl)) eq_refl)).
  - exact (proj2 (proj1 (proj2 (proj2
                    (X11_updates_apply_in_call_order Title_update Label_update
                       (run [Env_SetMarker 0 clustered_icon_marker;
                             Env_SetIconInfo 0 pin_icon; Do_AddMarker 0]
                          initial_world) 0 0 5 eq_refl)))
                   [AddMarker_then 0 (marker_options_from clustered_icon_marker)]
                   eq_refl)).
Defined.

Lemma two_deletes_run (marker : MapMarker) (m : Marker) (w3 : World) :
  let w5 := exec (run_job (MarkerJob (DeleteMarker_then marker) m))
              (set_microtasks (fun _ => [])
                 (exec (run_job (MarkerJob (DeleteMarker_then marker) m))
                    (set_microtasks
                       (fun _ => [MarkerJob (DeleteMarker_then marker) m]) w3))) in
  calls w5 = calls w3 ++ [Marker_DeleteMarker m; Marker_DeleteMarker m] /\
  _markers w5 = delete marker (_markers w3).
Proof.
  cbv zeta. unfold exec. cbn. rewrite <- app_assoc. split; [reflexivity|].
  apply delete_delete_eq.
Qed.

Lemma first_delete_removes_the_entry (marker : MapMarker) (m : Marker) (rest : list Job)
    (w3 : World) :
  microtasks w3 = MarkerJob (DeleteMarker_then marker) m :: rest ->
  _markers (run [Env_RunMicrotask] w3) !! marker = None.
Proof.
  intros Q. change (run [Env_RunMicrotask] w3) with (step Env_RunMicrotask w3).
  rewrite step_markers. cbn [markers_after]. rewrite Q. apply lookup_delete_eq.
Qed.

(** X12. [DeleteMarker] called twice on a marker before the first call
    has completed leaves two reactions on the creation promise that was
    stored for it, and neither call touches the log or the table. When that
    promise is fulfilled, at the calls already or only afterwards, the
    reactions that were waiting before run first and the two delete
    reactions are the next two microtasks: the native marker gets
    [DeleteMarker] twice, and the handle's entry is gone after the first.
    When the promise is rejected the two calls leave nothing behind, so that
    nothing is deleted and the entry stays. *)
Theorem X12_DeleteMarker_twice_deletes_twice (w : World) (marker : MapMarker)
    (p : PromiseRef) (m : Marker) :
  _markers w !! marker = Some p ->
  (calls (run [Do_DeleteMarker marker; Do_DeleteMarker marker] w) = calls w /\
   _markers (run [Do_DeleteMarker marker; Do_DeleteMarker marker] w) = _markers w) /\
  (marker_promise_state w p = Fulfilled m ->
   let w3 := run ([Do_DeleteMarker marker; Do_DeleteMarker marker]
                  ++ replicate (length (microtasks w)) Env_RunMicrotask) w in
   microtasks w3 = [MarkerJob (DeleteMarker_then marker) m;
                    MarkerJob (DeleteMarker_then marker) m] /\
   calls (run [Env_RunMicrotask; Env_RunMicrotask] w3)
     = calls w3 ++ [Marker_DeleteMarker m; Marker_DeleteMarker m] /\
   _markers (run [Env_RunMicrotask] w3) !! marker = None /\
   _markers (run [Env_RunMicrotask; Env_RunMicrotask] w3)
     = delete marker (_markers w3)) /\
  (forall rs, marker_promise_state w p = Pending rs ->
   let w3 := run ([Do_DeleteMarker marker; Do_DeleteMarker marker;
                   Env_FulfilMarker p m]
                  ++ replicate (length (microtasks w) + length rs) Env_RunMicrotask) w in
   microtasks w3 = [MarkerJob (DeleteMarker_then marker) m;
                    MarkerJob (DeleteMarker_then marker) m] /\
   calls (run [Env_RunMicrotask; Env_RunMicrotask] w3)
     = calls w3 ++ [Marker_DeleteMarker m; Marker_DeleteMarker m] /\
   _markers (run [Env_RunMicrotask] w3) !! marker = None /\
   _markers (run [Env_RunMicrotask; Env_RunMicrotask] w3)
     = delete marker (_markers w3)) /\
  (marker_promise_state w p = Rejected ->
   run [Do_DeleteMarker marker; Do_DeleteMarker marker] w = w).
Proof.
  intros H.
  assert (S2 : step (Do_DeleteMarker marker) (step (Do_DeleteMarker marker) w)
               = exec (marker_then p (DeleteMarker_then marker))
                   (exec (marker_then p (DeleteMarker_then marker)) w)).
  { rewrite (step_DeleteMarker marker p w H).
    rewrite (step_DeleteMarker marker p) by (rewrite marker_then_lookup; exact H).
    reflexivity. }
  split; [|split; [|split]].
  - change (run [Do_DeleteMarker marker; Do_DeleteMarker marker] w)
      with (step (Do_DeleteMarker marker) (step (Do_DeleteMarker marker) w)).
    rewrite S2.
    destruct (marker_then_frame p (DeleteMarker_then marker)
                (exec (marker_then p (DeleteMarker_then marker)) w))
      as (_ & -> & -> & _).
    destruct (marker_then_frame p (DeleteMarker_then marker) w) as (_ & -> & -> & _).
    split; reflexivity.
  - intros Hs. cbv zeta. rewrite run_app.
    change (run [Do_DeleteMarker marker; Do_DeleteMarker marker] w)
      with (step (Do_DeleteMarker marker) (step (Do_DeleteMarker marker) w)).
    rewrite S2.
    destruct (two_reactions_fulfilled p m (DeleteMarker_then marker)
                (DeleteMarker_then marker) w Hs) as [Q _].
    destruct (two_reactions_are_next _ _ _ _ Q) as (Q3 & _ & R).
    split; [exact Q3|]. rewrite R.
    destruct (two_deletes_run marker m
                (run (replicate (length (microtasks w)) Env_RunMicrotask)
                   (exec (marker_then p (DeleteMarker_then marker))
                      (exec (marker_then p (DeleteMarker_then marker)) w))))
      as [C D].
    split; [exact C|]. split; [|exact D].
    exact (first_delete_removes_the_entry marker m _ _ Q3).
  - intros rs Hs. cbv zeta. rewrite run_app.
    change (run [Do_DeleteMarker marker; Do_DeleteMarker marker;
                 Env_FulfilMarker p m] w)
      with (exec (fulfil_marker p m)
              (step (Do_DeleteMarker marker) (step (Do_DeleteMarker marker) w))).
    rewrite S2.
    destruct (two_reactions_pending p m (DeleteMarker_then marker)
                (DeleteMarker_then marker) rs w Hs) as [Q _].
    replace (length (microtasks w) + length rs)
      with (length (microtasks w ++ map (fun cb => MarkerJob cb m) rs))
      by (rewrite length_app, length_map; reflexivity).
    destruct (two_reactions_are_next _ _ _ _ Q) as (Q3 & _ & R).
    split; [exact Q3|]. rewrite R.
    destruct (two_deletes_run marker m
                (run (replicate
                        (length (microtasks w ++ map (fun cb => MarkerJob cb m) rs))
                        Env_RunMicrotask)
                   (exec (fulfil_marker p m)
                      (exec (marker_then p (DeleteMarker_then marker))
                         (exec (marker_then p (DeleteMarker_then marker)) w)))))
      as [C D].
    split; [exact C|]. split; [|exact D].
    exact (first_delete_removes_the_entry marker m _ _ Q3).
  - intros Hs.
    change (run [Do_DeleteMarker marker; Do_DeleteMarker marker] w)
      with (step (Do_DeleteMarker marker) (step (Do_DeleteMarker marker) w)).
    rewrite S2. rewrite (marker_then_rejected_world p _ w Hs).
    exact (marker_then_rejected_world p _ w Hs).
Qed.

(** Twice on the marker that exists as native marker 5; and twice on a
    marker whose creation the map service has refused. *)
Lemma X12_DeleteMarker_twice_deletes_twice_witness :
  calls (run [Do_DeleteMarker 0; Do_DeleteMarker 0; Env_RunMicrotask; Env_RunMicrotask]
           one_marker_created)
    = calls one_marker_created ++ [Marker_DeleteMarker 5; Marker_DeleteMarker 5] /\
  _markers (run [Do_DeleteMarker 0; Do_DeleteMarker 0; Env_RunMicrotask]
              one_marker_created) !! 0 = None /\
  run [Do_DeleteMarker 0; Do_DeleteMarker 0]
    (run [Do_AddMarker 0; Env_RejectMarker 0] initial_world)
    = run [Do_AddMarker 0; Env_RejectMarker 0] initial_world.
Proof.
  pose proof (X12_DeleteMarker_twice_deletes_twice one_marker_created 0 0 5 eq_refl)
    as (_ & F & _).
  split; [exact (proj1 (proj2 (F eq_refl)))|].
  split; [exact (proj1 (proj2 (proj2 (F eq_refl))))|].
  exact (proj2 (proj2 (proj2 (X12_DeleteMarker_twice_deletes_twice
                                (run [Do_AddMarker 0; Env_RejectMarker 0] initial_world)
                                0 0 5 eq_refl))) eq_refl).
Defined.

(** X13. Once a [DeleteMarker] on a marker has completed, the marker is
    unknown to the service again: [GetNativeMarker] returns undefined, a
    further [DeleteMarker] returns an already resolved promise and changes
    nothing, and each of the property updates throws a [TypeError]. *)
Theorem X13_after_a_completed_delete (a : Action) (w : World) (marker : MapMarker) :
  completes_DeleteMarker a w marker ->
  let w' := step a w in
  BingMarkerService.GetNativeMarker marker w' = (Normal None, w') /\
  BingMarkerService.DeleteMarker marker w' = (Normal Promise_resolve, w') /\
  (forall u, update_method u marker w' = (Throw TypeError, w')).
Proof.
  intros [-> (m & rest & Hq)] w'.
  assert (H : _markers w' !! marker = None).
  { subst w'. rewrite step_markers. cbn [markers_after]. rewrite Hq.
    apply lookup_delete_eq. }
  split; [|split].
  - unfold BingMarkerService.GetNativeMarker, gets. rewrite H. reflexivity.
  - apply DeleteMarker_absent, H.
  - intros u. destruct u; apply markers_get_then_absent, H.
Qed.

Lemma X13_after_a_completed_delete_witness :
  BingMarkerService.UpdateTitle 0
      (run [Do_DeleteMarker 0; Env_RunMicrotask] one_marker_created)
    = (Throw TypeError, run [Do_DeleteMarker 0; Env_RunMicrotask] one_marker_created).
Proof.
  assert (C : completes_DeleteMarker Env_RunMicrotask
                (run [Do_DeleteMarker 0] one_marker_created) 0).
  { split; [reflexivity|]. exists 5, []. reflexivity. }
  exact (proj2 (proj2 (X13_after_a_completed_delete _ _ _ C)) Title_update).
Defined.

(** X14. [CreateEventObservable] of the marker service never throws and
    changes nothing, whether or not the marker has an entry: the lookup is
    made at each subscription. On a marker without an entry a subscription
    throws a [TypeError] and registers nothing; the same observable,
    subscribed to after [AddMarker], leaves its reaction on the promise that
    [AddMarker] stored. *)
Theorem X14_event_observable_looks_up_on_subscription (w : World) (eventName : string)
    (marker : MapMarker) (observer : Observer) :
  let o := Observable_create (MarkerEvent_subscribe eventName marker) in
  BingMarkerService.CreateEventObservable eventName marker w = (Normal o, w) /\
  (_markers w !! marker = None -> subscribe o observer w = (Throw TypeError, w)) /\
  subscribe o observer (step (Do_AddMarker marker) w)
    = (Normal tt,
       exec (marker_then (next_ref w) (MarkerEvent_then eventName observer))
         (step (Do_AddMarker marker) w)).
Proof.
  intros o. subst o. split; [reflexivity|]. split.
  - intros H. cbn [subscribe]. unfold BingMarkerService.subscribe_fn, bind.
    rewrite (markers_get_then_absent _ _ _ H). reflexivity.
  - cbn [subscribe]. unfold BingMarkerService.subscribe_fn, bind.
    rewrite (markers_get_then_present marker _ _ (next_ref w))
      by apply step_AddMarker_lookup.
    reflexivity.
Qed.

Lemma X14_event_observable_looks_up_on_subscription_witness :
  subscribe (Observable_create (MarkerEvent_subscribe "click" 0)) 9 initial_world
    = (Throw TypeError, initial_world).
Proof.
  exact (proj1 (proj2 (X14_event_observable_looks_up_on_subscription
                         initial_world "click" 0 9)) eq_refl).
Defined.

(** X15. The services handle no rejection. When the creation promise
    stored for a marker was rejected, [DeleteMarker] and the property
    updates on that marker complete normally but leave the world exactly as
    it was: nothing is queued, the native [DeleteMarker] is never called,
    and the entry stays in the lookup table. *)
Theorem X15_rejected_creation_keeps_the_entry (w : World) (marker : MapMarker)
    (p : PromiseRef) :
  _markers w !! marker = Some p ->
  marker_promise_state w p = Rejected ->
  BingMarkerService.DeleteMarker marker w
    = (Normal (marker_then_promise p (DeleteMarker_then marker)), w) /\
  (forall u,
     update_method u marker w = (Normal (marker_then_promise p (update_then u marker)), w)) /\
  (forall post,
     Forall (fun a => a = Do_DeleteMarker marker \/
                      exists u, a = update_action u marker) post ->
     run post w = w).
Proof.
  intros H Hs. split; [|split].
  - rewrite (DeleteMarker_present _ _ _ H).
    rewrite (marker_then_rejected_world _ _ _ Hs). reflexivity.
  - intros u. destruct u; cbn [update_method update_then];
      unfold BingMarkerService.UpdateAnchor, BingMarkerService.UpdateMarkerPosition,
        BingMarkerService.UpdateTitle, BingMarkerService.UpdateLabel,
        BingMarkerService.UpdateDraggable;
      rewrite (markers_get_then_present _ _ _ _ H);
      rewrite (marker_then_rejected_world _ _ _ Hs); reflexivity.
  - intros post Hpost. induction Hpost as [|a post Ha _ IH]; [reflexivity|].
    change (run (a :: post) w) with (run post (step a w)).
    assert (E : step a w = w).
    { destruct Ha as [-> | [u ->]].
      - rewrite (step_DeleteMarker _ _ _ H). apply marker_then_rejected_world, Hs.
      - rewrite (step_update_action _ _ _ _ H). apply marker_then_rejected_world, Hs. }
    rewrite E. exact IH.
Qed.

(** Marker 0 is added and its creation fails: deleting it changes nothing. *)
Lemma X15_rejected_creation_keeps_the_entry_witness :
  _markers (run [Do_AddMarker 0; Env_RejectMarker 0] initial_world) !! 0 = Some 0 /\
  run [Do_DeleteMarker 0; Do_UpdateTitle 0; Do_DeleteMarker 0]
      (run [Do_AddMarker 0; Env_RejectMarker 0] initial_world)
    = run [Do_AddMarker 0; Env_RejectMarker 0] initial_world.
Proof.
  split; [reflexivity|].
  apply (proj2 (proj2 (X15_rejected_creation_keeps_the_entry
                         (run [Do_AddMarker 0; Env_RejectMarker 0] initial_world) 0 0
                         eq_refl eq_refl))).
  constructor; [left; reflexivity|].
  constructor; [right; exists Title_update; reflexivity|].
  constructor; [left; reflexivity|].
  constructor.
Defined.

(** *** The icon hook and its icon description *)

Section Completes.

Lemma completes_ret {A : Type} (a : A) : completes (ret a).
Proof. intros w. exists a. reflexivity. Qed.

Lemma completes_gets {A : Type} (g : World -> A) : completes (gets g).
Proof. intros w. eexists. reflexivity. Qed.

Lemma completes_modify (g : World -> World) : completes (modify g).
Proof. intros w. exists tt. reflexivity. Qed.

Lemma completes_bind {A B : Type} (c : M A) (k : A -> M B) :
  completes c -> (forall a, completes (k a)) -> completes (bind c k).
Proof.
  intros Hc Hk w. destruct (Hc w) as [a Ha]. unfold bind.
  destruct (c w) as [[a'|e] w']; cbn in Ha; [|discriminate Ha].
  apply Hk.
Qed.

Lemma completes_forEach {A : Type} (g : A -> M unit) (l : list A) :
  (forall a, completes (g a)) -> completes (forEach g l).
Proof.
  intros Hg. induction l as [|a l IH]; cbn.
  - apply completes_ret.
  - apply completes_bind; [apply Hg | intros _; exact IH].
Qed.

Lemma completes_forEach_from {A : Type} (g : A -> nat -> M unit) (l : list A) (i : nat) :
  (forall a j, completes (g a j)) -> completes (forEach_from i g l).
Proof.
  intros Hg. revert i. induction l as [|a l IH]; intros i; cbn.
  - apply completes_ret.
  - apply completes_bind; [apply Hg | intros _; apply IH].
Qed.

End Completes.

Ltac completes_step :=
  lazymatch goal with
  | |- completes (ret _) => apply completes_ret
  | |- completes (gets _) => apply completes_gets
  | |- completes (bind _ _) => apply completes_bind; [| intros ?]
  | |- completes (modify _) => apply completes_modify
  | |- completes (forEach _ _) => apply completes_forEach; intros ?
  | |- completes (forEach_from _ _ _) => apply completes_forEach_from; intros ? ?
  | |- completes (throw _) => fail
  | |- completes (match ?x with _ => _ end) => destruct x
  | |- completes (let _ := _ in _) => cbv zeta
  | |- completes ?c => let h := keeps_head c in unfold h
  end.

Ltac completes_all := repeat completes_step.

(** A safe job runs to its end. *)
Lemma run_job_completes (j : Job) : job_safe j -> completes (run_job j).
Proof.
  destruct j as [cb m|cb v]; cbn [job_safe run_job]; intros H.
  - destruct cb; cbn [callback_safe] in H;
      try (unfold BingMarkerService.run_callback; solve [completes_all]).
    unfold BingMarkerService.run_callback.
    apply completes_bind; [completes_all|]. intros _.
    destruct (IMarkerOptions.iconInfo o) as [r|]; [completes_all | contradiction].
  - destruct cb; unfold BingPolylineService.run_callback; completes_all.
Qed.

Section KeepsSafe.

Lemma keeps_safe_ret {A : Type} (a : A) : keeps_safe (ret a).
Proof. intros w H. exact H. Qed.

Lemma keeps_safe_throw {A : Type} (e : JsError) : keeps_safe (@throw A e).
Proof. intros w H. exact H. Qed.

Lemma keeps_safe_gets {A : Type} (g : World -> A) : keeps_safe (gets g).
Proof. intros w H. exact H. Qed.

Lemma keeps_safe_modify (g : World -> World) :
  (forall w, reactions_safe w -> reactions_safe (g w)) -> keeps_safe (modify g).
Proof. intros Hg w H. apply Hg, H. Qed.

Lemma keeps_safe_bind {A B : Type} (c : M A) (k : A -> M B) :
  keeps_safe c -> (forall a, keeps_safe (k a)) -> keeps_safe (bind c k).
Proof.
  intros Hc Hk w H. unfold bind. specialize (Hc w H).
  destruct (c w) as [[a|e] w']; cbn in *; [apply Hk|]; exact Hc.
Qed.

Lemma keeps_safe_forEach {A : Type} (g : A -> M unit) (l : list A) :
  (forall a, keeps_safe (g a)) -> keeps_safe (forEach g l).
Proof.
  intros Hg. induction l as [|a l IH]; cbn.
  - apply keeps_safe_ret.
  - apply keeps_safe_bind; [apply Hg | intros _; exact IH].
Qed.

Lemma keeps_safe_forEach_from {A : Type} (g : A -> nat -> M unit) (l : list A) (i : nat) :
  (forall a j, keeps_safe (g a j)) -> keeps_safe (forEach_from i g l).
Proof.
  intros Hg. revert i. induction l as [|a l IH]; intros i; cbn.
  - apply keeps_safe_ret.
  - apply keeps_safe_bind; [apply Hg | intros _; apply IH].
Qed.

(** The reactions of a promise, read through its state, are safe. *)
Lemma safe_reactions_of_state (w : World) (p : PromiseRef) (rs : list MarkerCallback) :
  reactions_safe w -> marker_promise_state w p = Pending rs -> Forall callback_safe rs.
Proof.
  intros [H _] Hs. unfold marker_promise_state in Hs.
  destruct (marker_promises w !! p) as [st|] eqn:E; cbn in Hs.
  - subst st. exact (H p rs E).
  - injection Hs as <-. constructor.
Qed.

Lemma keeps_safe_marker_then (p : PromiseRef) (cb : MarkerCallback) :
  callback_safe cb -> keeps_safe (marker_then p cb).
Proof.
  intros Hcb w H. unfold marker_then, bind, gets.
  destruct (marker_promise_state w p) as [rs|m|] eqn:Hs; cbn.
  - split; [|apply H]. intros q rs' Hq. cbn in Hq.
    rewrite lookup_insert in Hq. case_decide as E.
    + injection Hq as <-. apply Forall_app. split; [|repeat constructor; exact Hcb].
      exact (safe_reactions_of_state w p rs H Hs).
    + exact (proj1 H q rs' Hq).
  - split; [apply H|]. cbn. apply Forall_app. split; [apply H|].
    repeat constructor. exact Hcb.
  - exact H.
Qed.

Lemma keeps_safe_polyline_then (p : PromiseRef) (cb : PolylineCallback) :
  keeps_safe (polyline_then p cb).
Proof.
  intros w H. unfold polyline_then, bind, gets.
  destruct (polyline_promise_state w p) as [rs|v|]; cbn; try exact H.
  split; [apply H|]. cbn. apply Forall_app. split; [apply H|].
  repeat constructor.
Qed.

Lemma keeps_safe_create_marker (c : PromiseRef -> Call) : keeps_safe (create_marker c).
Proof.
  intros w H. unfold create_marker, fresh, bind, gets, modify, call, ret. cbn.
  split; [|apply H]. intros q rs Hq. cbn in Hq.
  rewrite lookup_insert in Hq. case_decide as E.
  - injection Hq as <-. constructor.
  - exact (proj1 H q rs Hq).
Qed.

Lemma keeps_safe_fulfil_marker (p : PromiseRef) (m : Marker) :
  keeps_safe (fulfil_marker p m).
Proof.
  intros w H. unfold fulfil_marker, bind, gets, modify.
  destruct (marker_promise_state w p) as [rs|m'|] eqn:Hs; cbn; try exact H.
  split.
  - intros q rs' Hq. cbn in Hq. rewrite lookup_insert in Hq. case_decide as E.
    + discriminate Hq.
    + exact (proj1 H q rs' Hq).
  - cbn. apply Forall_app. split; [apply H|].
    apply Forall_fmap. exact (safe_reactions_of_state w p rs H Hs).
Qed.

Lemma keeps_safe_reject_marker (p : PromiseRef) : keeps_safe (reject_marker p).
Proof.
  intros w H. unfold reject_marker, bind, gets, modify.
  destruct (marker_promise_state w p) as [rs|m'|]; cbn; try exact H.
  split; [|apply H]. intros q rs' Hq. cbn in Hq.
  rewrite lookup_insert in Hq. case_decide as E.
  - discriminate Hq.
  - exact (proj1 H q rs' Hq).
Qed.

Lemma keeps_safe_fulfil_polyline (p : PromiseRef) (v : PolylineValue) :
  keeps_safe (fulfil_polyline p v).
Proof.
  intros w H. unfold fulfil_polyline, bind, gets, modify.
  destruct (polyline_promise_state w p) as [rs|v'|]; cbn; try exact H.
  split; [apply H|]. cbn. apply Forall_app. split; [apply H|].
  apply Forall_fmap. apply Forall_true. intros cb. exact I.
Qed.

End KeepsSafe.

Ltac keeps_safe_step :=
  lazymatch goal with
  | |- keeps_safe (ret _) => apply keeps_safe_ret
  | |- keeps_safe (throw _) => apply keeps_safe_throw
  | |- keeps_safe (gets _) => apply keeps_safe_gets
  | |- keeps_safe (bind _ _) => apply keeps_safe_bind; [| intros ?]
  | |- keeps_safe (marker_then _ _) => apply keeps_safe_marker_then; exact I
  | |- keeps_safe (polyline_then _ _) => apply keeps_safe_polyline_then
  | |- keeps_safe (create_marker _) => apply keeps_safe_create_marker
  | |- keeps_safe (fulfil_marker _ _) => apply keeps_safe_fulfil_marker
  | |- keeps_safe (reject_marker _) => apply keeps_safe_reject_marker
  | |- keeps_safe (fulfil_polyline _ _) => apply keeps_safe_fulfil_polyline
  | |- keeps_safe (modify _) =>
      apply keeps_safe_modify; let H := fresh "H" in intros ? H; exact H
  | |- keeps_safe (forEach _ _) => apply keeps_safe_forEach; intros ?
  | |- keeps_safe (forEach_from _ _ _) => apply keeps_safe_forEach_from; intros ? ?
  | |- keeps_safe (match ?x with _ => _ end) => destruct x
  | |- keeps_safe (let _ := _ in _) => cbv zeta
  | |- keeps_safe ?c => let h := keeps_head c in unfold h
  end.

Ltac keeps_safe_all := repeat keeps_safe_step.

Lemma keeps_safe_AddMarker (marker : MapMarker) :
  keeps_safe (BingMarkerService.AddMarker marker).
Proof.
  unfold BingMarkerService.AddMarker.
  apply keeps_safe_bind; [keeps_safe_all|]. intros mk.
  apply keeps_safe_bind; [keeps_safe_all|]. intros markerPromise.
  apply keeps_safe_bind; [keeps_safe_all|]. intros _.
  destruct (MapMarkerProps.IconInfo mk) as [r|] eqn:E; [|apply keeps_safe_ret].
  apply keeps_safe_marker_then. cbn. rewrite E. discriminate.
Qed.

Lemma keeps_safe_run_job (j : Job) : keeps_safe (run_job j).
Proof. destruct j as [cb m|cb v]; destruct cb; cbn [run_job]; keeps_safe_all. Qed.

Lemma keeps_safe_run_microtask : keeps_safe run_microtask.
Proof.
  intros w H. unfold run_microtask, bind, gets.
  destruct (microtasks w) as [|j rest] eqn:Hq; [exact H|].
  cbn. apply keeps_safe_run_job. split; [apply H|]. cbn.
  destruct H as [_ H]. rewrite Hq in H. inversion H; assumption.
Qed.

Lemma keeps_safe_perform (a : Action) : keeps_safe (perform a).
Proof.
  destruct a; cbn [perform];
    first [ apply keeps_safe_AddMarker
          | apply keeps_safe_run_microtask
          | apply keeps_safe_bind; [apply keeps_safe_AddMarker | intros ?; keeps_safe_all]
          | solve [keeps_safe_all] ].
Qed.

Lemma run_keeps_reactions_safe (post : list Action) (w : World) :
  reactions_safe w -> reactions_safe (run post w).
Proof.
  revert w. induction post as [|a post IH]; intros w H; [exact H|].
  change (run (a :: post) w) with (run post (step a w)).
  apply IH. apply keeps_safe_perform, H.
Qed.

(** The icon hook run on options without an icon description: the
    dereference of [o.iconInfo] fails after the event was emitted. *)
Lemma icon_hook_without_description_throws (marker : MapMarker) (o : IMarkerOptions.t)
    (m : Marker) (w : World) :
  IMarkerOptions.iconInfo o = None ->
  BingMarkerService.run_callback (AddMarker_then marker o) m w
    = (Throw TypeError, log [DynamicMarkerCreated_emit marker None] w).
Proof. intros H. unfold BingMarkerService.run_callback, bind. rewrite H. reflexivity. Qed.

(** X16. The icon hook that [AddMarker] leaves on the creation promise
    reads [o.iconInfo.size], and would throw a [TypeError] on options
    without an icon description. It never meets such options: [AddMarker]
    leaves the hook only when the marker has an icon description, and the
    hook keeps the options object built at that call. So from the services
    as constructed, and from any world where this holds, every run of
    service calls and environment moves leads to a world where every icon
    hook that waits on a creation promise or in the microtask queue carries
    options with an icon description, and where an icon hook that is the
    next microtask runs to its end. The other reactions are not the subject
    here; what they do on values outside the handle's declared type, such
    as a polyline without a path, is not modelled. *)
Theorem X16_icon_hook_has_its_icon_description (w : World) (post : list Action) :
  reactions_safe w ->
  let w' := run post w in
  (forall p rs marker o,
     marker_promises w' !! p = Some (Pending rs) ->
     AddMarker_then marker o ∈ rs ->
     is_Some (IMarkerOptions.iconInfo o)) /\
  (forall marker o m,
     MarkerJob (AddMarker_then marker o) m ∈ microtasks w' ->
     is_Some (IMarkerOptions.iconInfo o)) /\
  (forall marker o m rest,
     microtasks w' = MarkerJob (AddMarker_then marker o) m :: rest ->
     (perform Env_RunMicrotask w').1 = Normal tt).
Proof.
  intros H w'. pose proof (run_keeps_reactions_safe post w H) as [Hp Hq].
  fold w' in Hp, Hq.
  assert (S : forall o, IMarkerOptions.iconInfo o <> None ->
                        is_Some (IMarkerOptions.iconInfo o)).
  { intros o. destruct (IMarkerOptions.iconInfo o) as [r|]; [eexists; reflexivity|].
    intros N. contradiction. }
  split; [|split].
  - intros p rs marker o E I. apply S.
    exact (proj1 (Forall_forall _ _) (Hp p rs E) _ I).
  - intros marker o m I. apply S.
    exact (proj1 (Forall_forall _ _) Hq _ I).
  - intros marker o m rest Q. cbn [perform].
    rewrite (run_microtask_head _ _ _ Q).
    assert (Hj : job_safe (MarkerJob (AddMarker_then marker o) m)).
    { rewrite Q in Hq. inversion Hq; assumption. }
    destruct (run_job_completes _ Hj (set_microtasks (fun _ => rest) w')) as [[] E].
    exact E.
Qed.

(** The services as constructed; a clustered marker with an icon is added
    and created, and its icon hook is next in the queue. *)
Lemma X16_icon_hook_has_its_icon_description_witness :
  reactions_safe initial_world /\
  microtasks (run [Env_SetMarker 0 clustered_icon_marker; Do_AddMarker 0;
                   Env_FulfilMarker 0 5] initial_world)
    = [MarkerJob (AddMarker_then 0 (marker_options_from clustered_icon_marker)) 5] /\
  (perform Env_RunMicrotask
     (run [Env_SetMarker 0 clustered_icon_marker; Do_AddMarker 0; Env_FulfilMarker 0 5]
        initial_world)).1 = Normal tt.
Proof.
  assert (H : reactions_safe initial_world).
  { split; [|constructor]. intros p rs E. cbn in E. rewrite lookup_empty in E.
    discriminate E. }
  split; [exact H|]. split; [reflexivity|].
  exact (proj2 (proj2 (X16_icon_hook_has_its_icon_description initial_world
                         [Env_SetMarker 0 clustered_icon_marker; Do_AddMarker 0;
                          Env_FulfilMarker 0 5] H))
           0 (marker_options_from clustered_icon_marker) 5 [] eq_refl).
Defined.

Lemma marker_then_counter (p : PromiseRef) (cb : MarkerCallback) (w : World) :
  next_ref (marker_then p cb w).2 = next_ref w /\
  marker_obj (marker_then p cb w).2 = marker_obj w.
Proof.
  split.
  - refine ((_ : keeps (fun w => next_ref w) (marker_then p cb)) w). keeps_all.
  - refine ((_ : keeps (fun w => marker_obj w) (marker_then p cb)) w). keeps_all.
Qed.

Lemma AddMarker_counter (w : World) (marker : MapMarker) :
  next_ref (exec (BingMarkerService.AddMarker marker) w) = S (next_ref w) /\
  marker_obj (exec (BingMarkerService.AddMarker marker) w) = marker_obj w.
Proof.
  unfold exec, BingMarkerService.AddMarker, bind, gets.
  destruct (MapMarkerProps.InClusterLayer (marker_obj w marker)),
    (MapMarkerProps.InCustomLayer (marker_obj w marker)),
    (MapMarkerProps.IconInfo (marker_obj w marker)); cbn -[marker_then];
    repeat match goal with
    | |- context [marker_then ?p ?cb ?w0] =>
        let F := fresh "F" in
        pose proof (marker_then_counter p cb w0) as F; destruct F as (-> & ->)
    end; split; reflexivity.
Qed.

(** X17. [AddMarker] does not look for an entry before it writes one. A
    second [AddMarker] on the same marker makes a second creation call and
    replaces the entry: the table then holds the second promise alone for
    that marker, and a later [DeleteMarker] leaves its reaction on the
    second promise, so that the native marker of the first creation call is
    not deleted through this marker any more. *)
Theorem X17_AddMarker_twice_replaces_the_entry (w : World) (marker : MapMarker) :
  let w2 := run [Do_AddMarker marker; Do_AddMarker marker] w in
  calls w2 = calls w ++ [marker_creation_call (marker_obj w marker) (next_ref w);
                         marker_creation_call (marker_obj w marker) (S (next_ref w))] /\
  _markers w2 = <[marker := S (next_ref w)]> (_markers w) /\
  BingMarkerService.DeleteMarker marker w2
    = (Normal (marker_then_promise (S (next_ref w)) (DeleteMarker_then marker)),
       exec (marker_then (S (next_ref w)) (DeleteMarker_then marker)) w2).
Proof.
  intros w2.
  assert (Hc : calls w2 = calls w ++
                 [marker_creation_call (marker_obj w marker) (next_ref w);
                  marker_creation_call (marker_obj w marker) (S (next_ref w))]).
  { subst w2. change (run [Do_AddMarker marker; Do_AddMarker marker] w)
      with (exec (BingMarkerService.AddMarker marker)
              (exec (BingMarkerService.AddMarker marker) w)).
    destruct (AddMarker_effect (exec (BingMarkerService.AddMarker marker) w) marker)
      as (_ & -> & _).
    destruct (AddMarker_effect w marker) as (_ & -> & _).
    destruct (AddMarker_counter w marker) as (-> & ->).
    rewrite <- app_assoc. reflexivity. }
  assert (Hm : _markers w2 = <[marker := S (next_ref w)]> (_markers w)).
  { subst w2. change (run [Do_AddMarker marker; Do_AddMarker marker] w)
      with (exec (BingMarkerService.AddMarker marker)
              (exec (BingMarkerService.AddMarker marker) w)).
    destruct (AddMarker_effect (exec (BingMarkerService.AddMarker marker) w) marker)
      as (_ & _ & -> & _).
    destruct (AddMarker_effect w marker) as (_ & _ & -> & _).
    destruct (AddMarker_counter w marker) as (-> & _).
    apply insert_insert_eq. }
  split; [exact Hc|]. split; [exact Hm|].
  apply DeleteMarker_present. rewrite Hm. apply lookup_insert_eq.
Qed.

Lemma X17_AddMarker_twice_replaces_the_entry_witness :
  _markers (run [Do_AddMarker 0; Do_AddMarker 0] initial_world) !! 0 = Some 1.
Proof.
  rewrite (proj1 (proj2 (X17_AddMarker_twice_replaces_the_entry initial_world 0))).
  reflexivity.
Defined.

(** *** The stored arrays *)

Lemma UpdatePolyline_then_touches_its_array (polyline : MapPolylineDirective)
    (v : PolylineValue) (w : World) (ar : ArrayRef) :
  arrays (BingPolylineService.run_callback (UpdatePolyline_then polyline) v w).2 !! ar
    <> arrays w !! ar ->
  v = PolylineArray ar.
Proof.
  destruct v as [l|a0].
  - rewrite run_UpdatePolyline_then_one. intros H. contradiction H. reflexivity.
  - destruct (arrays w !! a0) as [arr|] eqn:E.
    + rewrite (run_UpdatePolyline_then_array polyline a0 arr w E). cbv zeta.
      destruct (decide (_ < _)); cbn; [|intros H; contradiction H; reflexivity].
      rewrite lookup_insert. case_decide as D; [intros _; congruence|].
      intros H. contradiction H. reflexivity.
    + unfold BingPolylineService.run_callback, bind, gets, as_array. rewrite E. cbn.
      destruct (decide (_ < 0)) as [Hlt|_]; [lia|].
      intros H. contradiction H. reflexivity.
Qed.

(** X18. The array of native polylines behind an entry is shared by
    reference with whoever got it from [GetNativePolyline], and the services
    change it in one place only: among the service calls and the microtasks
    they queue, a step after which an array holds something else is the
    reaction of [UpdatePolyline] running on that very array. [SetOptions],
    [DeletePolyline], the event subscriptions and every marker method leave
    all arrays as they are. *)
Theorem X18_only_UpdatePolyline_changes_an_array (a : Action) (w : World)
    (ar : ArrayRef) :
  is_service_call a = true \/ a = Env_RunMicrotask ->
  arrays (step a w) !! ar <> arrays w !! ar ->
  a = Env_RunMicrotask /\
  exists polyline rest,
    microtasks w = PolylineJob (UpdatePolyline_then polyline) (PolylineArray ar) :: rest.
Proof.
  intros Ha Hne.
  assert (K : forall c : M unit,
            keeps (fun w => arrays w) c -> arrays (c w).2 !! ar = arrays w !! ar).
  { intros c Hc. rewrite (Hc w). reflexivity. }
  destruct Ha as [Ha | ->].
  - exfalso. apply Hne. unfold step, exec. apply K.
    destruct a; try discriminate Ha; cbn [perform]; keeps_all.
  - split; [reflexivity|].
    unfold step, exec in Hne. cbn [perform] in Hne.
    destruct (microtasks w) as [|j rest] eqn:Hq.
    + exfalso. apply Hne. unfold run_microtask, bind, gets. rewrite Hq. reflexivity.
    + rewrite (run_microtask_head _ _ _ Hq) in Hne.
      destruct j as [cb m|cb v]; cbn [run_job] in Hne.
      * exfalso. apply Hne.
        refine (f_equal (fun x => x !! ar)
                  ((_ : keeps (fun w => arrays w) (BingMarkerService.run_callback cb m))
                     (set_microtasks (fun _ => rest) w))).
        destruct cb; keeps_all.
      * destruct cb as [n o|pl|o|pl];
          try (exfalso; apply Hne;
               refine (f_equal (fun x => x !! ar)
                         ((_ : keeps (fun w => arrays w)
                                 (BingPolylineService.run_callback _ v))
                            (set_microtasks (fun _ => rest) w)));
               solve [keeps_all]).
        apply (UpdatePolyline_then_touches_its_array pl v
                 (set_microtasks (fun _ => rest) w) ar) in Hne. subst v.
        exists pl, rest. reflexivity.
Qed.

(** [SetOptions] on the three native polylines leaves their array alone. *)
Lemma X18_only_UpdatePolyline_changes_an_array_witness :
  arrays (step (Do_SetOptions 0 (BingPolylineService.options_of unset_polyline))
            three_lines_two_segments) !! 1
    = arrays three_lines_two_segments !! 1.
Proof.
  destruct (decide (arrays (step (Do_SetOptions 0
                                    (BingPolylineService.options_of unset_polyline))
                              three_lines_two_segments) !! 1
                    = arrays three_lines_two_segments !! 1)) as [E|N]; [exact E|].
  destruct (X18_only_UpdatePolyline_changes_an_array
              (Do_SetOptions 0 (BingPolylineService.options_of unset_polyline))
              three_lines_two_segments 1 (or_introl eq_refl) N) as [D _].
  discriminate D.
Defined.
